(** * Gesture-driven string control engine: a shallow embedding

    The development follows the TypeScript sources of the repository:

    - [JS]           the fragment of JavaScript's [number] the code relies on;
    - [Utils]        [lib/utils.ts] (control-signal computation);
    - [AudioConfig]  [lib/audioConfig.ts] ([applyCurve], [updateAudio]);
    - [StringCanvas] [components/StringCanvas.tsx] (the [draw] tick: pinch
                     detector, grab/release state machine, easing);
    - [Page]         [app/page.tsx] (the audio gate of [Home]);
    - [Tracking]     [lib/handposeMediaPipe.ts] (conversion of the tracker's
                     results into hands);
    - [Binary64]     the expressions of [lerp], [applyCurve], the range
                     interpolation and [videoToCanvas] on binary64 floats.

    Numbers.  Coordinates that flow through the canvas component are real
    numbers ([R]): the arithmetic of the code is taken exactly, without the
    rounding of IEEE doubles.  Where the code itself distinguishes the
    special values of a JavaScript number ([isNaN], [isFinite], comparisons
    that are false on [NaN]) the type [JS.num] adds [NaN] and the two
    infinities to the reals.  Wall-clock times ([Date.now()]) are integers
    ([Z], milliseconds).  Hand identities are array indices ([nat]).

    Rounding.  A double is a real, but the sum, difference, product or
    quotient of two doubles is rounded, and overflows beyond
    [Number.MAX_VALUE].  The statements below are therefore put on
    quantities the code computes itself (a value against a threshold or
    against another value of the same expression), which rounding
    preserves, and carry the hypothesis that a difference does not
    overflow where that matters.  Where rounding or overflow makes the code
    depart from exact arithmetic, [Binary64] repeats the expression on
    binary64 floats and the departure is shown by computation. *)

From Stdlib Require Import Floats.
From Stdlib Require Import Reals Lra ZArith Lia Sorted.
From stdpp Require Import base decidable option list gmap.

Open Scope R_scope.
Set Warnings "-clear-no-such-hyp".
Set Warnings "-inexact-float".

#[global] Instance Rlt_decision (a b : R) : Decision (a < b) := Rlt_dec a b.
#[global] Instance Rle_decision (a b : R) : Decision (a <= b) := Rle_dec a b.
#[global] Instance Req_decision : EqDecision R := Req_dec_T.

(* ===================================================================== *)
(** ** JavaScript numbers *)
(* ===================================================================== *)

Module JS.

(** A JavaScript number: a real, one of the two infinities, or NaN.
    Signed zeros and rounding are not represented. *)
Inductive num : Type :=
  | NaN
  | PInf
  | NInf
  | Fin (r : R).

Definition isNaN (a : num) : bool :=
  match a with NaN => true | _ => false end.

Definition isFinite (a : num) : bool :=
  match a with Fin _ => true | _ => false end.

(** [a < b]; every comparison with NaN is false. *)
Definition lt (a b : num) : bool :=
  match a, b with
  | NaN, _ | _, NaN => false
  | Fin r, Fin s => bool_decide (r < s)
  | PInf, _ => false
  | _, NInf => false
  | NInf, _ => true
  | Fin _, PInf => true
  end.

(** [a <= b] *)
Definition le (a b : num) : bool :=
  match a, b with
  | NaN, _ | _, NaN => false
  | Fin r, Fin s => bool_decide (r <= s)
  | NInf, _ => true
  | _, PInf => true
  | PInf, _ => false
  | Fin _, NInf => false
  end.

(** [a > b] and [a >= b] *)
Definition gt (a b : num) : bool := lt b a.
Definition ge (a b : num) : bool := le b a.

(** [a === b] on numbers: NaN is different from itself. *)
Definition strict_eq (a b : num) : bool :=
  match a, b with
  | Fin r, Fin s => bool_decide (r = s)
  | PInf, PInf | NInf, NInf => true
  | _, _ => false
  end.

Definition neg (a : num) : num :=
  match a with
  | NaN => NaN
  | PInf => NInf
  | NInf => PInf
  | Fin r => Fin (- r)
  end.

Definition add (a b : num) : num :=
  match a, b with
  | NaN, _ | _, NaN => NaN
  | Fin r, Fin s => Fin (r + s)
  | PInf, NInf | NInf, PInf => NaN
  | PInf, _ | _, PInf => PInf
  | NInf, _ | _, NInf => NInf
  end.

Definition sub (a b : num) : num := add a (neg b).

(** An infinity of the sign of [r], NaN when [r] is zero. *)
Definition inf_of_sign (r : R) : num :=
  if bool_decide (0 < r) then PInf
  else if bool_decide (r < 0) then NInf
  else NaN.

Definition mul (a b : num) : num :=
  match a, b with
  | NaN, _ | _, NaN => NaN
  | Fin r, Fin s => Fin (r * s)
  | PInf, PInf | NInf, NInf => PInf
  | PInf, NInf | NInf, PInf => NInf
  | PInf, Fin r | Fin r, PInf => inf_of_sign r
  | NInf, Fin r | Fin r, NInf => inf_of_sign (- r)
  end.

(** Division.  A finite zero divisor is read as [+0]. *)
Definition div (a b : num) : num :=
  match a, b with
  | NaN, _ | _, NaN => NaN
  | Fin r, Fin s =>
      if bool_decide (s = 0) then inf_of_sign r else Fin (r / s)
  | Fin _, (PInf | NInf) => Fin 0
  | (PInf | NInf), (PInf | NInf) => NaN
  | PInf, Fin s => if bool_decide (s < 0) then NInf else PInf
  | NInf, Fin s => if bool_decide (s < 0) then PInf else NInf
  end.

(** [Math.max(a, b)] and [Math.min(a, b)]: NaN as soon as one argument is. *)
Definition max (a b : num) : num :=
  match a, b with
  | NaN, _ | _, NaN => NaN
  | _, _ => if lt a b then b else a
  end.

Definition min (a b : num) : num :=
  match a, b with
  | NaN, _ | _, NaN => NaN
  | _, _ => if lt b a then b else a
  end.

(** [Math.abs] *)
Definition abs (a : num) : num :=
  match a with
  | NaN => NaN
  | PInf | NInf => PInf
  | Fin r => Fin (Rabs r)
  end.

(** [Math.pow(base, exponent)] (ECMAScript Number::exponentiate) for a base
    that is NaN, [+Infinity] or a non-negative real, which is all that
    [applyCurve] passes; negative bases are mapped to NaN. *)
Definition pow (base exponent : num) : num :=
  match exponent with
  | NaN => NaN
  | Fin e =>
      if bool_decide (e = 0) then Fin 1
      else match base with
           | NaN => NaN
           | PInf => if bool_decide (0 < e) then PInf else Fin 0
           | NInf => NaN
           | Fin b =>
               if bool_decide (b = 0)
               then (if bool_decide (0 < e) then Fin 0 else PInf)
               else if bool_decide (0 < b) then Fin (Rpower b e)
               else NaN
           end
  | PInf =>
      match base with
      | NaN | NInf => NaN
      | PInf => PInf
      | Fin b =>
          if bool_decide (b < 0) then NaN
          else if bool_decide (b < 1) then Fin 0
          else if bool_decide (b = 1) then NaN
          else PInf
      end
  | NInf =>
      match base with
      | NaN | NInf => NaN
      | PInf => Fin 0
      | Fin b =>
          if bool_decide (b < 0) then NaN
          else if bool_decide (b < 1) then PInf
          else if bool_decide (b = 1) then NaN
          else Fin 0
      end
  end.

(** [Math.hypot] on reals. *)
Definition hypot (a b : R) : R := sqrt (a * a + b * b).

Declare Scope js_scope.
Delimit Scope js_scope with js.
Bind Scope js_scope with num.
Infix "+" := add : js_scope.
Infix "-" := sub : js_scope.
Infix "*" := mul : js_scope.
Infix "/" := div : js_scope.

End JS.

(* ===================================================================== *)
(** ** Points *)
(* ===================================================================== *)

(** [interface Point { x: number; y: number }] *)
Record Point : Type := mkPoint { x : R; y : R }.

(* ===================================================================== *)
(** ** lib/utils.ts *)
(* ===================================================================== *)

Module Utils.
Import JS.

Definition distance (a b : Point) : R :=
  hypot (a.(x) - b.(x)) (a.(y) - b.(y)).

Definition computeTension
    (leftEnd rightEnd leftAnchor rightAnchor : Point) (maxStretch : num) : num :=
  let restLength := distance leftAnchor rightAnchor in
  let currentLength := distance leftEnd rightEnd in
  let stretch := max (Fin 0) (Fin (currentLength - restLength)) in
  min (Fin 1) (div stretch maxStretch).

Definition computeLeftStretch (leftEnd leftAnchor : Point) (maxStretch : num) : num :=
  let stretch := distance leftEnd leftAnchor in
  min (Fin 1) (div (Fin stretch) maxStretch).

Definition computeRightStretch (rightEnd rightAnchor : Point) (maxStretch : num) : num :=
  let stretch := distance rightEnd rightAnchor in
  min (Fin 1) (div (Fin stretch) maxStretch).

(** [Math.atan2(dy, dx)] on reals. *)
Definition atan2 (dy dx : R) : R :=
  if bool_decide (0 < dx) then atan (dy / dx)
  else if bool_decide (dx < 0) then
    (if bool_decide (0 <= dy) then atan (dy / dx) + PI else atan (dy / dx) - PI)
  else if bool_decide (0 < dy) then PI / 2
  else if bool_decide (dy < 0) then - (PI / 2)
  else 0.

Definition computeStringAngle (leftEnd rightEnd : Point) : num :=
  let dx := rightEnd.(x) - leftEnd.(x) in
  let dy := rightEnd.(y) - leftEnd.(y) in
  let angle := atan2 dy dx in
  let normalized := sin angle in
  max (Fin (-1)) (min (Fin 1) (Fin normalized)).

Definition computeTensionVelocity
    (currentTension previousTension deltaTime : num) : num :=
  if le deltaTime (Fin 0) then Fin 0
  else div (sub currentTension previousTension) deltaTime.

Record StringControls : Type := mkStringControls {
  tension : num;
  leftStretch : num;
  rightStretch : num;
  angle : num;
  tensionVelocity : num;
  isGrabbed_left : bool;
  isGrabbed_right : bool;
}.

Definition computeStringControls
    (leftEnd rightEnd leftAnchor rightAnchor : Point)
    (previousTension deltaTime : num)
    (leftGrabbed rightGrabbed : bool) (maxStretch : num) : StringControls :=
  let tension := computeTension leftEnd rightEnd leftAnchor rightAnchor maxStretch in
  {| tension := tension;
     leftStretch := computeLeftStretch leftEnd leftAnchor maxStretch;
     rightStretch := computeRightStretch rightEnd rightAnchor maxStretch;
     angle := computeStringAngle leftEnd rightEnd;
     tensionVelocity := computeTensionVelocity tension previousTension deltaTime;
     isGrabbed_left := leftGrabbed;
     isGrabbed_right := rightGrabbed |}.

(** The default of the [maxStretch] parameter. *)
Definition defaultMaxStretch : num := Fin 100.

End Utils.

(* ===================================================================== *)
(** ** lib/audioConfig.ts *)
(* ===================================================================== *)

Module AudioConfig.
Import Utils.
Import (notations) JS.
Abbreviation num := JS.num.
Abbreviation Fin := JS.Fin.

Record Range : Type := mkRange { min : num; max : num }.

Record Mappings : Type := mkMappings {
  frequency : Range;
  filterCutoff : Range;
  volume : Range;
  pan : Range;
  modulationDepth : Range;
  distortion : Range;
  reverb : Range;
  pluckThreshold : num;
}.

(** [config.curves]; the fields are prefixed because they share their names
    with those of [mappings]. *)
Record Curves : Type := mkCurves {
  curve_volume : num;
  curve_frequency : num;
  curve_filterCutoff : num;
  curve_distortion : num;
  curve_reverb : num;
}.

(** The part of [AudioConfig] that [updateAudio] and [Home] read. *)
Record Config : Type := mkConfig {
  mappings : Mappings;
  curves : Curves;
  rampTime : num;
}.

(** The exported default [audioConfig]. *)
Definition audioConfig : Config :=
  {| mappings :=
       {| frequency := mkRange (Fin 220) (Fin 880);
          filterCutoff := mkRange (Fin 200) (Fin 8000);
          volume := mkRange (Fin (-30)) (Fin 0);
          pan := mkRange (Fin (-1)) (Fin 1);
          modulationDepth := mkRange (Fin 0) (Fin 10);
          distortion := mkRange (Fin 0) (Fin (8 / 10));
          reverb := mkRange (Fin 0) (Fin (5 / 10));
          pluckThreshold := Fin (1 / 10) |};
     curves :=
       {| curve_volume := Fin (8 / 10);
          curve_frequency := Fin 1;
          curve_filterCutoff := Fin 2;
          curve_distortion := Fin (15 / 10);
          curve_reverb := Fin 1 |};
     rampTime := Fin (5 / 100) |}.

Definition applyCurve (value curve : num) : num :=
  let clamped := JS.max (Fin 0) (JS.min (Fin 1) value) in
  if JS.strict_eq curve (Fin 1) then clamped
  else JS.pow clamped curve.

(** [min + curved * (max - min)] *)
Definition mapRange (r : Range) (curved : num) : num :=
  (min r + curved * (max r - min r))%js.

(** [isNaN(f) || !isFinite(f) || f <= 0] *)
Definition invalidFrequency (f : num) : bool :=
  JS.isNaN f || negb (JS.isFinite f) || JS.le f (Fin 0).

(** [!isNaN(f) && isFinite(f) && f > 0] *)
Definition validFrequency (f : num) : bool :=
  negb (JS.isNaN f) && JS.isFinite f && JS.gt f (Fin 0).

Definition normalizedX (midpointX canvasWidth : num) : num :=
  let safeCanvasWidth :=
    if JS.isNaN canvasWidth || negb (JS.isFinite canvasWidth)
       || JS.le canvasWidth (Fin 0)
    then Fin 1 else JS.max (Fin 1) canvasWidth in
  let safeMidpointX :=
    if JS.isNaN midpointX || negb (JS.isFinite midpointX)
    then Fin 0 else midpointX in
  JS.max (Fin 0) (JS.min (Fin 1) (safeMidpointX / safeCanvasWidth)%js).

(** The hybrid pitch before any clamping: base from position, tension on top. *)
Definition rawFrequency (controls : StringControls) (midpointX canvasWidth : num)
    (config : Config) : num :=
  let fr := frequency (mappings config) in
  let tensionForFrequency :=
    applyCurve (tension controls) (curve_frequency (curves config)) in
  let baseFrequencyMin := min fr in
  let baseFrequencyMax := (min fr + (max fr - min fr) * Fin (75 / 100))%js in
  let baseFrequency :=
    (baseFrequencyMin
     + normalizedX midpointX canvasWidth * (baseFrequencyMax - baseFrequencyMin))%js in
  let tensionFrequencyRange := (max fr - baseFrequencyMax)%js in
  (baseFrequency + tensionForFrequency * tensionFrequencyRange)%js.

(** [frequency] after the clamp to the configured bounds. *)
Definition clampedFrequency (controls : StringControls) (midpointX canvasWidth : num)
    (config : Config) : num :=
  let fr := frequency (mappings config) in
  let minFrequency := JS.max (Fin 20) (min fr) in
  let maxFrequency := JS.min (Fin 20000) (max fr) in
  JS.max minFrequency
    (JS.min maxFrequency (rawFrequency controls midpointX canvasWidth config)).

(** [frequency] after the final validation. *)
Definition validatedFrequency (controls : StringControls)
    (midpointX canvasWidth : num) (config : Config) : num :=
  let f := clampedFrequency controls midpointX canvasWidth config in
  if invalidFrequency f then min (frequency (mappings config)) else f.

(** The value that reaches [synth.frequency], through [rampTo] (or the
    direct assignment that replaces a failed [rampTo]) or through the
    fallback assignment. *)
Definition synthFrequency (controls : StringControls)
    (midpointX canvasWidth : num) (config : Config) : num :=
  let f := validatedFrequency controls midpointX canvasWidth config in
  if validFrequency f then JS.max (Fin 20) (JS.min (Fin 20000) f)
  else min (frequency (mappings config)).

(** What one call of [updateAudio] hands to the audio nodes; every field is
    named after the node parameter it is written to. *)
Record AudioUpdate : Type := mkAudioUpdate {
  synth_frequency : num;
  synth_volume : num;
  filter_frequency : num;
  distortion_distortion : num;
  reverb_wet : num;
  lfo_max : num;
  lfo_min : num;
  panNode_pan : num;
}.

Definition updateAudio (controls : StringControls) (midpointX canvasWidth : num)
    (config : Config) : AudioUpdate :=
  let m := mappings config in
  let c := curves config in
  let tensionForVolume := applyCurve (tension controls) (curve_volume c) in
  let tensionForFilter := applyCurve (tension controls) (curve_filterCutoff c) in
  let tensionForDistortion := applyCurve (tension controls) (curve_distortion c) in
  let tensionForReverb := applyCurve (tension controls) (curve_reverb c) in
  let volume := mapRange (volume m) tensionForVolume in
  let filterCutoff :=
    JS.max (Fin 20) (JS.min (Fin 20000) (mapRange (filterCutoff m) tensionForFilter)) in
  let distortionAmount := mapRange (distortion m) tensionForDistortion in
  let reverbWet := mapRange (reverb m) tensionForReverb in
  let modulationDepth :=
    JS.max (Fin 0)
      (JS.min (Fin 50) (mapRange (modulationDepth m) (JS.abs (angle controls)))) in
  {| synth_frequency := synthFrequency controls midpointX canvasWidth config;
     synth_volume := volume;
     filter_frequency := filterCutoff;
     distortion_distortion := distortionAmount;
     reverb_wet := reverbWet;
     lfo_max := modulationDepth;
     lfo_min := JS.neg modulationDepth;
     panNode_pan := Fin 0 |}.

(** [v] lies within the configured range [r], bounds included. *)
Definition within (r : Range) (v : num) : Prop :=
  JS.le (min r) v = true /\ JS.le v (max r) = true.

(** A range with finite bounds and [min <= max]. *)
Definition finiteOrdered (r : Range) : Prop :=
  JS.isFinite (min r) = true /\ JS.isFinite (max r) = true
  /\ JS.le (min r) (max r) = true.

(** A curve exponent in [[0.1, 5.0]]. *)
Definition exponentInRange (curve : num) : Prop :=
  JS.le (Fin (1 / 10)) curve = true /\ JS.le curve (Fin 5) = true.

(** A tension in [[0, 1]]. *)
Definition unitTension (t : num) : Prop :=
  JS.le (Fin 0) t = true /\ JS.le t (Fin 1) = true.

(** The audible band, 20 Hz to 20 kHz. *)
Definition audible (f : num) : Prop :=
  JS.le (Fin 20) f = true /\ JS.le f (Fin 20000) = true.

End AudioConfig.

(* ===================================================================== *)
(** ** components/StringCanvas.tsx *)
(* ===================================================================== *)

Module StringCanvas.

(** [interface HandTip extends Point { handId: number; isPinched: boolean }] *)
Record HandTip : Type := mkHandTip {
  tipPoint :> Point;
  handId : nat;
  isPinched : bool;
}.

Record PinchState : Type := mkPinchState {
  state : bool;
  releaseTime : option Z;
}.

(** [CanvasState]; both endpoints are set before the first [draw]. *)
Record CanvasState : Type := mkCanvasState {
  leftEnd : Point;
  rightEnd : Point;
  leftGrabbed : bool;
  rightGrabbed : bool;
  leftHandId : option nat;
  rightHandId : option nat;
  pinchStates : gmap nat PinchState;
}.

Definition GRAB_RADIUS : R := 30.
Definition RELEASE_HYSTERESIS : R := 10.
Definition EASING_FACTOR : R := 15 / 100.
Definition PINCH_THRESHOLD : R := 50.
Definition PINCH_RELEASE_THRESHOLD : R := 80.
Definition PINCH_DEBOUNCE_TIME : Z := 150.

(** The two properties of the video element and of the canvas that are read. *)
Record Video : Type := mkVideo { videoWidth : R; videoHeight : R }.
Record Canvas : Type := mkCanvas { width : R; height : R }.

(** [hand.annotations]: the two fingers that are read; an entry is [[x, y]]
    or [{x, y}], here a pair. *)
Record HandAnnotations : Type := mkHandAnnotations {
  thumb : list (R * R);
  indexFinger : list (R * R);
}.

(** A tracked hand, in either of the two formats the component accepts. *)
Record Hand : Type := mkHand {
  landmarks : option (list (R * R * R));
  annotations : option HandAnnotations;
}.

(** Anchor points (rest position). *)
Definition leftAnchor (canvas : Canvas) : Point :=
  {| x := width canvas * (25 / 100); y := height canvas / 2 |}.
Definition rightAnchor (canvas : Canvas) : Point :=
  {| x := width canvas * (75 / 100); y := height canvas / 2 |}.

(** The state of a freshly mounted component, endpoints at the anchors. *)
Definition initialState (canvas : Canvas) : CanvasState :=
  {| leftEnd := leftAnchor canvas;
     rightEnd := rightAnchor canvas;
     leftGrabbed := false;
     rightGrabbed := false;
     leftHandId := None;
     rightHandId := None;
     pinchStates := ∅ |}.

Definition videoToCanvas (vx vy : R) (video : option Video) (canvas : Canvas)
    : R * R :=
  match video with
  | None => (vx, vy)
  | Some v =>
      if bool_decide (videoWidth v = 0) || bool_decide (videoHeight v = 0)
      then (vx, vy)
      else
        let '(pixelX, pixelY) :=
          if bool_decide (1 < vx) || bool_decide (1 < vy)
          then (videoWidth v - vx, vy)
          else ((1 - vx) * videoWidth v, vy * videoHeight v) in
        let scaleX := width canvas / videoWidth v in
        let scaleY := height canvas / videoHeight v in
        (pixelX * scaleX, pixelY * scaleY)
  end.

(** The thumb tip and index tip read by [getPinchState]: landmarks 4 and 8
    when the landmarks array is there, else entry 3 of the annotations. *)
Definition pinchTips (hand : Hand) : option ((R * R) * (R * R)) :=
  match landmarks hand with
  | Some lms =>
      match lms !! 4%nat, lms !! 8%nat with
      | Some (tx, ty, _), Some (ix, iy, _) => Some ((tx, ty), (ix, iy))
      | _, _ => None
      end
  | None =>
      match annotations hand with
      | Some a =>
          match thumb a !! 3%nat, indexFinger a !! 3%nat with
          | Some t, Some i => Some (t, i)
          | _, _ => None
          end
      | None => None
      end
  end.

Definition getPinchState (hand : Hand) (video : option Video) (canvas : Canvas)
    (currentState : bool) : bool :=
  match video with
  | None => false
  | Some _ =>
      match pinchTips hand with
      | None => false
      | Some ((vx1, vy1), (vx2, vy2)) =>
          let '(x1, y1) := videoToCanvas vx1 vy1 video canvas in
          let '(x2, y2) := videoToCanvas vx2 vy2 video canvas in
          let pinchDistance := JS.hypot (x2 - x1) (y2 - y1) in
          if currentState
          then bool_decide (pinchDistance < PINCH_RELEASE_THRESHOLD)
          else bool_decide (pinchDistance < PINCH_THRESHOLD)
      end
  end.

Definition distance (a b : Point) : R :=
  JS.hypot (a.(x) - b.(x)) (a.(y) - b.(y)).

Definition lerp (start end_ : Point) (factor : R) : Point :=
  {| x := start.(x) + (end_.(x) - start.(x)) * factor;
     y := start.(y) + (end_.(y) - start.(y)) * factor |}.

(** The index finger tip used for string control: annotations first, then
    landmark 8. *)
Definition indexTip (hand : Hand) : option (R * R) :=
  match annotations hand ≫= (λ a, indexFinger a !! 3%nat) with
  | Some t => Some t
  | None =>
      match landmarks hand ≫= (λ lms, lms !! 8%nat) with
      | Some (lx, ly, _) => Some (lx, ly)
      | None => None
      end
  end.

(** What the loop over the hands builds: the pinch records, the hand tips
    and the set of hands seen this tick. *)
Record Collected : Type := mkCollected {
  col_pinchStates : gmap nat PinchState;
  handTips : list HandTip;
  activeHandIds : gset nat;
}.

(** [(state.leftHandId === handId && state.leftGrabbed) ||
     (state.rightHandId === handId && state.rightGrabbed)] *)
Definition isControllingEndpoint (st : CanvasState) (handId : nat) : bool :=
  (bool_decide (leftHandId st = Some handId) && leftGrabbed st)
  || (bool_decide (rightHandId st = Some handId) && rightGrabbed st).

(** The release time after the update of the pinch record. *)
Definition updateReleaseTime (rawPinchState currentPinchState : bool)
    (releaseTime : option Z) (currentTime : Z) : option Z :=
  if negb rawPinchState && currentPinchState then
    match releaseTime with
    | None => Some currentTime
    | Some t => Some t
    end
  else if rawPinchState then None
  else releaseTime.

(** The debounced pinch. *)
Definition effectivePinch (rawPinchState isControlling : bool)
    (releaseTime : option Z) (currentTime : Z) : bool :=
  if negb rawPinchState && isControlling then
    match releaseTime with
    | Some t =>
        if bool_decide (currentTime - t < PINCH_DEBOUNCE_TIME)%Z then true
        else rawPinchState
    | None => rawPinchState
    end
  else rawPinchState.

(** The body of [hands.forEach((hand, index) => ...)]. *)
Definition observeHand (st : CanvasState) (video : option Video) (canvas : Canvas)
    (currentTime : Z) (acc : Collected) (index : nat) (hand : Hand) : Collected :=
  match indexTip hand with
  | None => acc
  | Some (vx, vy) =>
      let '(tx, ty) := videoToCanvas vx vy video canvas in
      let handId := index in
      let pinchData :=
        default (mkPinchState false None) (col_pinchStates acc !! handId) in
      let currentPinchState := state pinchData in
      let rawPinchState := getPinchState hand video canvas currentPinchState in
      let releaseTime' :=
        updateReleaseTime rawPinchState currentPinchState
          (releaseTime pinchData) currentTime in
      let isPinched :=
        effectivePinch rawPinchState (isControllingEndpoint st handId)
          releaseTime' currentTime in
      {| col_pinchStates :=
           <[handId := mkPinchState rawPinchState releaseTime']> (col_pinchStates acc);
         handTips := handTips acc ++ [mkHandTip (mkPoint tx ty) handId isPinched];
         activeHandIds := activeHandIds acc ∪ {[handId]} |}
  end.

Fixpoint forEachHand (st : CanvasState) (video : option Video) (canvas : Canvas)
    (currentTime : Z) (index : nat) (hands : list Hand) (acc : Collected)
    : Collected :=
  match hands with
  | [] => acc
  | hand :: rest =>
      forEachHand st video canvas currentTime (S index) rest
        (observeHand st video canvas currentTime acc index hand)
  end.

(** Collect all hand tips; nothing is collected without a video element. *)
Definition collectHandTips (st : CanvasState) (hands : list Hand)
    (video : option Video) (canvas : Canvas) (currentTime : Z) : Collected :=
  let start := mkCollected (pinchStates st) [] ∅ in
  match video with
  | None => start
  | Some _ => forEachHand st video canvas currentTime 0 hands start
  end.

(** Clean up pinch state for hands that are no longer present. *)
Definition cleanPinchStates (active : gset nat) (ps : gmap nat PinchState)
    : gmap nat PinchState :=
  filter (λ kv, kv.1 ∈ active) ps.

(** One endpoint with its ownership, as the grab logic reads and writes it. *)
Record Endpoint : Type := mkEndpoint {
  position : Point;
  grabbed : bool;
  controllingHandId : option nat;
}.

(** Check if the previously controlling hand is still present. *)
Definition checkPresence (active : gset nat) (e : Endpoint) : Endpoint :=
  match controllingHandId e with
  | Some h =>
      if bool_decide (h ∈ active) then e
      else {| position := position e; grabbed := false; controllingHandId := None |}
  | None => e
  end.

(** One step of the search for the closest tip.  The accumulator [None]
    stands for [closest = null, minDist = Infinity]. *)
Definition closerTip (endpoint : Point) (acc : option (HandTip * R))
    (tip : HandTip) : option (HandTip * R) :=
  let dist := distance tip endpoint in
  match acc with
  | None => Some (tip, dist)
  | Some (_, minDist) => if bool_decide (dist < minDist) then Some (tip, dist) else acc
  end.

Definition closestTip (tips : list HandTip) (endpoint : Point)
    : option (HandTip * R) :=
  foldl (closerTip endpoint) None tips.

(** Grab/release logic for one endpoint (the code has it twice, once for
    the left and once for the right endpoint). *)
Definition grabRelease (tips : list HandTip) (e : Endpoint) : Endpoint :=
  match tips with
  | [] => e
  | _ :: _ =>
      match closestTip tips (position e) with
      | Some (closest, minDist) =>
          if bool_decide (minDist <= GRAB_RADIUS) && isPinched closest then
            {| position := tipPoint closest;
               grabbed := true;
               controllingHandId :=
                 if grabbed e then controllingHandId e else Some (handId closest) |}
          else if grabbed e then
            if negb (isPinched closest)
               || bool_decide (GRAB_RADIUS + RELEASE_HYSTERESIS < minDist)
            then {| position := position e; grabbed := false; controllingHandId := None |}
            else {| position := tipPoint closest;
                    grabbed := true;
                    controllingHandId := controllingHandId e |}
          else e
      | None =>
          if grabbed e
          then {| position := position e; grabbed := false; controllingHandId := None |}
          else e
      end
  end.

(** Easing: if not grabbed, ease back toward the anchor. *)
Definition ease (anchor : Point) (e : Endpoint) : Endpoint :=
  if grabbed e then e
  else {| position := lerp (position e) anchor EASING_FACTOR;
          grabbed := grabbed e;
          controllingHandId := controllingHandId e |}.

Definition leftEndpoint (st : CanvasState) : Endpoint :=
  mkEndpoint (leftEnd st) (leftGrabbed st) (leftHandId st).
Definition rightEndpoint (st : CanvasState) : Endpoint :=
  mkEndpoint (rightEnd st) (rightGrabbed st) (rightHandId st).

(** One endpoint through one tick: presence check, grab/release, easing. *)
Definition stepEndpoint (active : gset nat) (tips : list HandTip)
    (anchor : Point) (e : Endpoint) : Endpoint :=
  ease anchor (grabRelease tips (checkPresence active e)).

(** One call of [draw]: the state update, in the order of the code
    (painting left out). *)
Definition draw (canvas : Canvas) (hands : list Hand) (video : option Video)
    (currentTime : Z) (st : CanvasState) : CanvasState :=
  let col := collectHandTips st hands video canvas currentTime in
  let pinchStates' := cleanPinchStates (activeHandIds col) (col_pinchStates col) in
  let l0 := checkPresence (activeHandIds col) (leftEndpoint st) in
  let r0 := checkPresence (activeHandIds col) (rightEndpoint st) in
  let l1 := grabRelease (handTips col) l0 in
  let r1 := grabRelease (handTips col) r0 in
  let l2 := ease (leftAnchor canvas) l1 in
  let r2 := ease (rightAnchor canvas) r1 in
  {| leftEnd := position l2;
     rightEnd := position r2;
     leftGrabbed := grabbed l2;
     rightGrabbed := grabbed r2;
     leftHandId := controllingHandId l2;
     rightHandId := controllingHandId r2;
     pinchStates := pinchStates' |}.

(** What a frame feeds to [draw]. *)
Record Frame : Type := mkFrame {
  frameHands : list Hand;
  frameVideo : option Video;
  frameTime : Z;
}.

Definition drawFrame (canvas : Canvas) (st : CanvasState) (f : Frame) : CanvasState :=
  draw canvas (frameHands f) (frameVideo f) (frameTime f) st.

(** The state after a sequence of frames. *)
Definition run (canvas : Canvas) (st : CanvasState) (frames : list Frame)
    : CanvasState :=
  foldl (drawFrame canvas) st frames.

(** What the loop body computes for one hand from the pinch record [prev]
    it finds for that hand: the hand tip it pushes and the record it stores. *)
Definition observation (st : CanvasState) (video : option Video) (canvas : Canvas)
    (currentTime : Z) (prev : option PinchState) (index : nat) (hand : Hand)
    : option (HandTip * PinchState) :=
  match indexTip hand with
  | None => None
  | Some (vx, vy) =>
      let '(tx, ty) := videoToCanvas vx vy video canvas in
      let pinchData := default (mkPinchState false None) prev in
      let rawPinchState := getPinchState hand video canvas (state pinchData) in
      let releaseTime' :=
        updateReleaseTime rawPinchState (state pinchData)
          (releaseTime pinchData) currentTime in
      Some (mkHandTip (mkPoint tx ty) index
              (effectivePinch rawPinchState (isControllingEndpoint st index)
                 releaseTime' currentTime),
            mkPinchState rawPinchState releaseTime')
  end.

(** The observations of all hands, each against the records [ps] of the
    start of the tick. *)
Fixpoint observations (st : CanvasState) (video : option Video) (canvas : Canvas)
    (currentTime : Z) (ps : gmap nat PinchState) (index : nat) (hands : list Hand)
    : list (HandTip * PinchState) :=
  match hands with
  | [] => []
  | hand :: rest =>
      let later := observations st video canvas currentTime ps (S index) rest in
      match observation st video canvas currentTime (ps !! index) index hand with
      | Some o => o :: later
      | None => later
      end
  end.

(** The pinch records after the loop: each observation stored under its hand. *)
Definition storeObservations (ps : gmap nat PinchState)
    (obs : list (HandTip * PinchState)) : gmap nat PinchState :=
  foldl (λ m o, <[handId o.1 := o.2]> m) ps obs.

(** The two endpoints, to state properties once for both. *)
Inductive Side : Type := Left | Right.

Definition endpointOf (side : Side) (st : CanvasState) : Endpoint :=
  match side with
  | Left => leftEndpoint st
  | Right => rightEndpoint st
  end.

Definition anchorOf (side : Side) (canvas : Canvas) : Point :=
  match side with
  | Left => leftAnchor canvas
  | Right => rightAnchor canvas
  end.

(** The endpoint of [side] is idle after each of the frames. *)
Fixpoint idleThroughout (side : Side) (canvas : Canvas) (st : CanvasState)
    (frames : list Frame) : Prop :=
  match frames with
  | [] => True
  | f :: rest =>
      grabbed (endpointOf side (drawFrame canvas st f)) = false
      /\ idleThroughout side canvas (drawFrame canvas st f) rest
  end.

(** [c] is the closest of the tips to [p], the first one among equals. *)
Definition isClosest (tips : list HandTip) (p : Point) (c : HandTip) : Prop :=
  exists before after,
    tips = before ++ c :: after
    /\ (forall t : HandTip, t ∈ before -> distance c p < distance t p)
    /\ (forall t : HandTip, t ∈ after -> distance c p <= distance t p).

End StringCanvas.

(* ===================================================================== *)
(** ** app/page.tsx *)
(* ===================================================================== *)

Module Page.
Import Utils AudioConfig.

(** What [StringCanvas] reports through [onStateChange]. *)
Record StringState : Type := mkStringState {
  leftEnd : Point;
  rightEnd : Point;
  leftGrabbed : bool;
  rightGrabbed : bool;
}.

Definition reported (st : StringCanvas.CanvasState) : StringState :=
  {| leftEnd := StringCanvas.leftEnd st;
     rightEnd := StringCanvas.rightEnd st;
     leftGrabbed := StringCanvas.leftGrabbed st;
     rightGrabbed := StringCanvas.rightGrabbed st |}.

(** The refs of [Home] that the audio effect reads and writes. *)
Record Refs : Type := mkRefs {
  isPlaying : bool;
  previousTension : num;
  lastUpdateTime : Z;
}.

Definition initialRefs (now : Z) : Refs :=
  {| isPlaying := false; previousTension := Fin 0; lastUpdateTime := now |}.

(** The calls made on the audio objects, in order. *)
Inductive AudioCall : Type :=
  | TriggerAttack            (* synth.triggerAttack('C4') *)
  | TriggerAttackScheduled   (* synth.triggerAttack('C4', Tone.now() + 0.01) *)
  | TriggerRelease           (* synth.triggerRelease() *)
  | UpdateAudio (u : AudioUpdate).

(** The controls computed by the effect from the reported string state. *)
Definition effectControls (canvas : StringCanvas.Canvas) (refs : Refs)
    (s : StringState) (now : Z) : StringControls :=
  let deltaTime := Fin (IZR (now - lastUpdateTime refs) / 1000) in
  computeStringControls (leftEnd s) (rightEnd s)
    (StringCanvas.leftAnchor canvas) (StringCanvas.rightAnchor canvas)
    (previousTension refs) deltaTime (leftGrabbed s) (rightGrabbed s)
    defaultMaxStretch.

(** [controls.tension > 0.01 && isGrabbed] *)
Definition gate (controls : StringControls) (isGrabbed : bool) : bool :=
  JS.gt (tension controls) (Fin (1 / 100)) && isGrabbed.

(** [isPluck && controls.tensionVelocity > 0] *)
Definition pluckCondition (config : Config) (controls : StringControls) : bool :=
  JS.gt (JS.abs (tensionVelocity controls)) (pluckThreshold (mappings config))
  && JS.gt (tensionVelocity controls) (Fin 0).

(** The [try] block that updates the audio: the new value of
    [isPlayingRef] and the calls made, for calls on the synthesizer that do
    not throw. *)
Definition playAudio (config : Config) (isPlaying isGrabbed : bool)
    (controls : StringControls) (midpointX canvasWidth : num)
    : bool * list AudioCall :=
  if gate controls isGrabbed then
    let attack := if isPlaying then [] else [TriggerAttack] in
    let retrigger :=
      if pluckCondition config controls
      then [TriggerRelease; TriggerAttackScheduled] else [] in
    let update := [UpdateAudio (updateAudio controls midpointX canvasWidth config)] in
    (true, attack ++ retrigger ++ update)
  else if isPlaying then (false, [TriggerRelease])
  else (isPlaying, []).

(** The audio effect of [Home], run once per reported string state, with
    audio initialised. *)
Definition audioEffect (canvas : StringCanvas.Canvas) (config : Config)
    (refs : Refs) (s : StringState) (now : Z) : Refs * list AudioCall :=
  let controls := effectControls canvas refs s now in
  let midpointX := Fin (((leftEnd s).(x) + (rightEnd s).(x)) / 2) in
  let isGrabbed := leftGrabbed s || rightGrabbed s in
  let '(isPlaying', calls) :=
    playAudio config (isPlaying refs) isGrabbed controls midpointX
      (Fin (StringCanvas.width canvas)) in
  ({| isPlaying := isPlaying';
      previousTension := tension controls;
      lastUpdateTime := now |},
   calls).

(** A pluck is raised when the note is retriggered. *)
Definition pluckRaised (calls : list AudioCall) : bool :=
  existsb (λ c, match c with TriggerAttackScheduled => true | _ => false end) calls.

(** The calls that start a sound. *)
Definition isAttack (c : AudioCall) : bool :=
  match c with
  | TriggerAttack | TriggerAttackScheduled => true
  | _ => false
  end.

(** One reported string state with the time at which the effect runs. *)
Record Report : Type := mkReport { reportState : StringState; reportTime : Z }.

Definition effectStep (canvas : StringCanvas.Canvas) (config : Config)
    (refs : Refs) (rep : Report) : Refs :=
  (audioEffect canvas config refs (reportState rep) (reportTime rep)).1.

(** The refs after a sequence of reports. *)
Definition runEffects (canvas : StringCanvas.Canvas) (config : Config)
    (refs : Refs) (reports : list Report) : Refs :=
  foldl (effectStep canvas config) refs reports.

End Page.

(* ===================================================================== *)
(** ** Concrete inputs used in the examples below *)
(* ===================================================================== *)

Module Inputs.
Import AudioConfig.

(** The default configuration with another frequency range. *)
Definition configWithFrequency (r : Range) : Config :=
  let m := mappings audioConfig in
  {| mappings :=
       {| frequency := r;
          filterCutoff := filterCutoff m;
          volume := volume m;
          pan := pan m;
          modulationDepth := modulationDepth m;
          distortion := distortion m;
          reverb := reverb m;
          pluckThreshold := pluckThreshold m |};
     curves := curves audioConfig;
     rampTime := rampTime audioConfig |}.

(** The default configuration with another filter cutoff range. *)
Definition configWithFilterCutoff (r : Range) : Config :=
  let m := mappings audioConfig in
  {| mappings :=
       {| frequency := frequency m;
          filterCutoff := r;
          volume := volume m;
          pan := pan m;
          modulationDepth := modulationDepth m;
          distortion := distortion m;
          reverb := reverb m;
          pluckThreshold := pluckThreshold m |};
     curves := curves audioConfig;
     rampTime := rampTime audioConfig |}.

(** The default configuration with another exponent for the frequency curve. *)
Definition configWithFrequencyCurve (curve : num) : Config :=
  let c := curves audioConfig in
  {| mappings := mappings audioConfig;
     curves :=
       {| curve_volume := curve_volume c;
          curve_frequency := curve;
          curve_filterCutoff := curve_filterCutoff c;
          curve_distortion := curve_distortion c;
          curve_reverb := curve_reverb c |};
     rampTime := rampTime audioConfig |}.

(** Controls of a horizontal string with the left endpoint grabbed. *)
Definition controlsWithTension (t : num) : Utils.StringControls :=
  {| Utils.tension := t;
     Utils.leftStretch := t;
     Utils.rightStretch := Fin 0;
     Utils.angle := Fin 0;
     Utils.tensionVelocity := Fin 0;
     Utils.isGrabbed_left := true;
     Utils.isGrabbed_right := false |}.

(** The canvas that [Home] mounts. *)
Definition canvas800 : StringCanvas.Canvas := StringCanvas.mkCanvas 800 600.

(** The left endpoint held one unit left of its anchor, the right endpoint
    at rest: the string is one unit longer than at rest. *)
Definition barelyStretched : Page.StringState :=
  {| Page.leftEnd := mkPoint 199 300;
     Page.rightEnd := mkPoint 600 300;
     Page.leftGrabbed := true;
     Page.rightGrabbed := false |}.

(** A note is playing, the previous tension was 0, the effect last ran at
    time 0. *)
Definition playingRefs : Page.Refs :=
  {| Page.isPlaying := true;
     Page.previousTension := Fin 0;
     Page.lastUpdateTime := 0 |}.

(** A frame without hands. *)
Definition emptyFrame (t : Z) : StringCanvas.Frame :=
  StringCanvas.mkFrame [] (Some (StringCanvas.mkVideo 800 600)) t.

(** Both endpoints idle, the left one displaced 100 units to the left of
    its anchor. *)
Definition displacedLeft : StringCanvas.CanvasState :=
  {| StringCanvas.leftEnd := mkPoint 100 300;
     StringCanvas.rightEnd := mkPoint 600 300;
     StringCanvas.leftGrabbed := false;
     StringCanvas.rightGrabbed := false;
     StringCanvas.leftHandId := None;
     StringCanvas.rightHandId := None;
     StringCanvas.pinchStates := ∅ |}.

(** The video element, of the size of the canvas. *)
Definition video800 : StringCanvas.Video := StringCanvas.mkVideo 800 600.

(** A hand in the annotations format (pixel coordinates of the video) whose
    index finger tip appears on the canvas at [(cx, cy)] and whose thumb tip
    is [spread] units to the right of it.  The video is mirrored: canvas
    abscissa [cx] is video abscissa [800 - cx]. *)
Definition handAt (cx cy spread : R) : StringCanvas.Hand :=
  {| StringCanvas.landmarks := None;
     StringCanvas.annotations :=
       Some {| StringCanvas.thumb :=
                 [(2, 2); (2, 2); (2, 2); (800 - (cx + spread), cy)];
               StringCanvas.indexFinger :=
                 [(2, 2); (2, 2); (2, 2); (800 - cx, cy)] |} |}.

(** The left endpoint is held at its anchor by hand 0, which was pinching
    in the previous frame. *)
Definition leftHeld : StringCanvas.CanvasState :=
  {| StringCanvas.leftEnd := mkPoint 200 300;
     StringCanvas.rightEnd := mkPoint 600 300;
     StringCanvas.leftGrabbed := true;
     StringCanvas.rightGrabbed := false;
     StringCanvas.leftHandId := Some 0%nat;
     StringCanvas.rightHandId := None;
     StringCanvas.pinchStates :=
       {[ 0%nat := StringCanvas.mkPinchState true None ]} |}.

(** The left endpoint is held at [(cx, 300)] by hand 0, the right endpoint
    rests at its anchor. *)
Definition dragging (cx : R) : StringCanvas.CanvasState :=
  {| StringCanvas.leftEnd := mkPoint cx 300;
     StringCanvas.rightEnd := mkPoint 600 300;
     StringCanvas.leftGrabbed := true;
     StringCanvas.rightGrabbed := false;
     StringCanvas.leftHandId := Some 0%nat;
     StringCanvas.rightHandId := None;
     StringCanvas.pinchStates :=
       {[ 0%nat := StringCanvas.mkPinchState true None ]} |}.

(** Both endpoints are held at [(cx, 300)] by hand 0. *)
Definition bothHeld (cx : R) : StringCanvas.CanvasState :=
  {| StringCanvas.leftEnd := mkPoint cx 300;
     StringCanvas.rightEnd := mkPoint cx 300;
     StringCanvas.leftGrabbed := true;
     StringCanvas.rightGrabbed := true;
     StringCanvas.leftHandId := Some 0%nat;
     StringCanvas.rightHandId := Some 0%nat;
     StringCanvas.pinchStates :=
       {[ 0%nat := StringCanvas.mkPinchState true None ]} |}.

(** A frame with one pinching hand whose index tip is at [(cx, 300)]. *)
Definition pinchFrame (cx : R) (t : Z) : StringCanvas.Frame :=
  StringCanvas.mkFrame [handAt cx 300 10] (Some video800) t.

(** One hand pinches the left endpoint at its anchor, carries it to the
    right, 40 units per frame, and ends 10 units from the right endpoint. *)
Definition carryFrames : list StringCanvas.Frame :=
  [ pinchFrame 200 0; pinchFrame 240 16; pinchFrame 280 32; pinchFrame 320 48;
    pinchFrame 360 64; pinchFrame 400 80; pinchFrame 440 96; pinchFrame 480 112;
    pinchFrame 520 128; pinchFrame 560 144; pinchFrame 590 160 ].

(** An open hand 5 units from the left anchor and a pinching hand 20 units
    from it. *)
Definition openNearPinchFar : StringCanvas.Frame :=
  StringCanvas.mkFrame [handAt 205 300 100; handAt 220 300 10] (Some video800) 0.

(** The pinching hand 0 is 35 units from the left anchor, an open hand 1 is
    5 units from it. *)
Definition holderFarOpenNear : StringCanvas.Frame :=
  StringCanvas.mkFrame [handAt 235 300 10; handAt 205 300 100] (Some video800) 16.

End Inputs.

(* ===================================================================== *)
(** ** components/StringCanvas.tsx: helpers of the painting code *)
(* ===================================================================== *)

Module StringCanvasPaint.
Import StringCanvas.

(** Clamp coordinates to the canvas bounds. *)
Definition clampToCanvas (px py : R) (canvas : Canvas) : R * R :=
  (Rmax 0 (Rmin (width canvas) px), Rmax 0 (Rmin (height canvas) py)).

(** Check if a point is out of bounds. *)
Definition isOutOfBounds (px py : R) (canvas : Canvas) : bool :=
  bool_decide (px < 0) || bool_decide (width canvas < px)
  || bool_decide (py < 0) || bool_decide (height canvas < py).

End StringCanvasPaint.

(* ===================================================================== *)
(** ** components/StringCanvas.tsx: the ownership invariant *)
(* ===================================================================== *)

Module CanvasInvariants.
Import StringCanvas.

(** An endpoint is grabbed exactly when it has a controlling hand. *)
Definition owned (e : Endpoint) : Prop :=
  grabbed e = true <-> is_Some (controllingHandId e).

Definition wellOwned (st : CanvasState) : Prop :=
  owned (leftEndpoint st) /\ owned (rightEndpoint st).

End CanvasInvariants.

(* ===================================================================== *)
(** ** lib/handposeMediaPipe.ts: conversion of the tracker's results *)
(* ===================================================================== *)

Module Tracking.
Import StringCanvas.

(** One entry of [results.multiHandLandmarks] converted to a [Hand]: the
    landmarks as triples, and annotations whose thumb is [slice(1, 5)] and
    whose index finger is [slice(5, 9)] of the landmarks.  The palm base
    reads [landmarks[0].x], which throws when there is no landmark. *)
Definition convertHand (handLandmarks : list (R * R * R)) : option Hand :=
  match handLandmarks with
  | [] => None
  | _ :: _ =>
      let xy := λ lm : R * R * R, (lm.1.1, lm.1.2) in
      Some {| landmarks := Some handLandmarks;
              annotations :=
                Some {| thumb := xy <$> take 4 (drop 1 handLandmarks);
                        indexFinger := xy <$> take 4 (drop 5 handLandmarks) |} |}
  end.

End Tracking.

(* ===================================================================== *)
(** ** lib/audioConfig.ts: the parameters mapped from tension *)
(* ===================================================================== *)

Module MappedParams.
Import AudioConfig.

(** The four outputs of [updateAudio] that are computed from tension by a
    curve and a linear interpolation. *)
Inductive TensionParam : Type := Volume | FilterCutoff | Distortion | ReverbWet.

Definition rangeOf (p : TensionParam) (m : Mappings) : Range :=
  match p with
  | Volume => volume m
  | FilterCutoff => filterCutoff m
  | Distortion => distortion m
  | ReverbWet => reverb m
  end.

Definition curveOf (p : TensionParam) (c : Curves) : num :=
  match p with
  | Volume => curve_volume c
  | FilterCutoff => curve_filterCutoff c
  | Distortion => curve_distortion c
  | ReverbWet => curve_reverb c
  end.

Definition outputOf (p : TensionParam) (u : AudioUpdate) : num :=
  match p with
  | Volume => synth_volume u
  | FilterCutoff => filter_frequency u
  | Distortion => distortion_distortion u
  | ReverbWet => reverb_wet u
  end.

(** What is done to the interpolated value before it is handed over: the
    filter cutoff is clamped to 20..20000 Hz, the others go unchanged. *)
Definition settle (p : TensionParam) (v : num) : num :=
  match p with
  | FilterCutoff => JS.max (Fin 20) (JS.min (Fin 20000) v)
  | _ => v
  end.

(** A finite, positive curve exponent. *)
Definition positiveExponent (curve : num) : Prop :=
  exists e, curve = Fin e /\ 0 < e.

End MappedParams.

(* ===================================================================== *)
(** ** app/page.tsx: the calls on the synthesizer over a run *)
(* ===================================================================== *)

Module SynthCalls.
Import Page.

(** The calls made by the audio effect over a sequence of reports. *)
Fixpoint effectTrace (canvas : StringCanvas.Canvas) (config : AudioConfig.Config)
    (refs : Refs) (reports : list Report) : list AudioCall :=
  match reports with
  | [] => []
  | rep :: rest =>
      let res := audioEffect canvas config refs (reportState rep) (reportTime rep) in
      res.2 ++ effectTrace canvas config res.1 rest
  end.

(** The synthesizer as the calls see it: a note sounds or not.  An attack
    needs silence, a release and a parameter update need a sounding note. *)
Definition callStep (sounding : bool) (c : AudioCall) : option bool :=
  match c with
  | TriggerAttack | TriggerAttackScheduled => if sounding then None else Some true
  | TriggerRelease => if sounding then Some false else None
  | UpdateAudio _ => if sounding then Some true else None
  end.

(** The state after a sequence of calls, if every call was in order. *)
Definition callsInOrder (sounding : bool) (calls : list AudioCall) : option bool :=
  foldl (λ s c, s ≫= λ b, callStep b c) (Some sounding) calls.

End SynthCalls.

(* ===================================================================== *)
(** ** Further concrete inputs *)
(* ===================================================================== *)

Module MoreInputs.

(** The left endpoint held 50 units left of its anchor, the right endpoint
    at rest: the string is 50 units longer than at rest. *)
Definition stretched : Page.StringState :=
  {| Page.leftEnd := mkPoint 150 300;
     Page.rightEnd := mkPoint 600 300;
     Page.leftGrabbed := true;
     Page.rightGrabbed := false |}.

(** Nine landmarks of a hand in normalised coordinates: the thumb tip
    (landmark 4) at (0.30, 0.50), the index tip (landmark 8) at (0.25, 0.50). *)
Definition nineLandmarks : list (R * R * R) :=
  [ (5 / 10, 9 / 10, 0); (4 / 10, 8 / 10, 0); (35 / 100, 7 / 10, 0);
    (32 / 100, 6 / 10, 0); (30 / 100, 5 / 10, 0); (3 / 10, 7 / 10, 0);
    (28 / 100, 6 / 10, 0); (26 / 100, 55 / 100, 0); (25 / 100, 5 / 10, 0) ].

End MoreInputs.

(* ===================================================================== *)
(** ** Binary64: the arithmetic of the code on the doubles themselves *)
(* ===================================================================== *)

(** The modules above compute on exact reals.  Where rounding or overflow
    decides what the code returns, its expressions are repeated here on the
    kernel's binary64 floats (IEEE 754, round to nearest even: the
    arithmetic of a JavaScript [number]), operation for operation.
    [Math.pow] is left to the implementation by ECMAScript; it is a
    parameter of [applyCurve]. *)
Module Binary64.

(** [Number.MAX_VALUE], as a real. *)
Definition MAX_VALUE : R := (2 - / 2 ^ 52) * 2 ^ 1023.

(** The difference of two reals is within the finite doubles: [b - a] on
    doubles does not overflow. *)
Definition finiteDifference (a b : R) : Prop := Rabs (b - a) <= MAX_VALUE.

(** A range with finite bounds whose [max - min] does not overflow. *)
Definition spanFinite (r : AudioConfig.Range) : Prop :=
  exists lo hi, r = AudioConfig.mkRange (JS.Fin lo) (JS.Fin hi) /\ finiteDifference lo hi.

(** [Math.max(a, b)] and [Math.min(a, b)]: NaN as soon as one argument is,
    and [-0] below [+0]. *)
Definition max (a b : float) : float :=
  if is_nan a || is_nan b then nan
  else if (a <? b)%float then b
  else if (b <? a)%float then a
  else if get_sign a then b else a.

Definition min (a b : float) : float :=
  if is_nan a || is_nan b then nan
  else if (a <? b)%float then a
  else if (b <? a)%float then b
  else if get_sign a then a else b.

(** [applyCurve] of [lib/audioConfig.ts]. *)
Definition applyCurve (pow : float -> float -> float) (value curve : float) : float :=
  let clamped := max 0 (min 1 value) in
  if (curve =? 1)%float then clamped
  else pow clamped curve.

(** [min + curved * (max - min)] *)
Definition mapRange (lo hi curved : float) : float :=
  (lo + curved * (hi - lo))%float.

Record Point : Type := mkPoint { x : float; y : float }.

(** [lerp] of [components/StringCanvas.tsx]. *)
Definition lerp (start end_ : Point) (factor : float) : Point :=
  {| x := (start.(x) + (end_.(x) - start.(x)) * factor)%float;
     y := (start.(y) + (end_.(y) - start.(y)) * factor)%float |}.

Definition EASING_FACTOR : float := 0.15%float.

(** The easing step of [n] ticks on an endpoint that stays idle. *)
Fixpoint easeTicks (n : nat) (anchor position : Point) : Point :=
  match n with
  | O => position
  | S n' => easeTicks n' anchor (lerp position anchor EASING_FACTOR)
  end.

Record Video : Type := mkVideo { videoWidth : float; videoHeight : float }.
Record Canvas : Type := mkCanvas { width : float; height : float }.

(** [!a] on a number: true for [0], [-0] and NaN. *)
Definition falsy (a : float) : bool := is_zero a || is_nan a.

(** [videoToCanvas] of [components/StringCanvas.tsx]. *)
Definition videoToCanvas (vx vy : float) (video : option Video) (canvas : Canvas)
    : float * float :=
  match video with
  | None => (vx, vy)
  | Some v =>
      if falsy (videoWidth v) || falsy (videoHeight v) then (vx, vy)
      else
        let '(pixelX, pixelY) :=
          if (1 <? vx)%float || (1 <? vy)%float
          then ((videoWidth v - vx)%float, vy)
          else (((1 - vx) * videoWidth v)%float, (vy * videoHeight v)%float) in
        let scaleX := (width canvas / videoWidth v)%float in
        let scaleY := (height canvas / videoHeight v)%float in
        ((pixelX * scaleX)%float, (pixelY * scaleY)%float)
  end.

End Binary64.

(** What the bounds below are stated with. *)
Module MappedBounds.
Import JS AudioConfig.

(** [lo <= v <= hi] on numbers. *)
Definition between (lo v hi : num) : Prop :=
  JS.le lo v = true /\ JS.le v hi = true.

(** The value of the formula at full tension, [min + 1 * (max - min)]: the
    configured maximum in exact arithmetic. *)
Definition fullTension (r : Range) : num := mapRange r (Fin 1).

End MappedBounds.

(* ===================================================================== *)
(** * Properties *)
(* ===================================================================== *)

(** ** Facts about JavaScript numbers *)

Section JSFacts.
Import JS.

Lemma le_Fin (r s : R) : le (Fin r) (Fin s) = true <-> r <= s.
Proof. unfold le. apply bool_decide_eq_true. Qed.

Lemma lt_Fin (r s : R) : lt (Fin r) (Fin s) = true <-> r < s.
Proof. unfold lt. apply bool_decide_eq_true. Qed.

Lemma gt_Fin (r s : R) : gt (Fin r) (Fin s) = true <-> s < r.
Proof. unfold gt. apply lt_Fin. Qed.

Lemma max_Fin (r s : R) : max (Fin r) (Fin s) = Fin (Rmax r s).
Proof.
  unfold max, lt, Rmax. case_bool_decide; destruct (Rle_dec r s); f_equal; lra.
Qed.

Lemma min_Fin (r s : R) : min (Fin r) (Fin s) = Fin (Rmin r s).
Proof.
  unfold min, lt, Rmin. case_bool_decide; destruct (Rle_dec r s); f_equal; lra.
Qed.

(** A value between two finite bounds is finite. *)
Lemma between_Fin (lo hi : R) (a : num) :
  le (Fin lo) a = true -> le a (Fin hi) = true ->
  exists r, a = Fin r /\ lo <= r <= hi.
Proof.
  destruct a as [| | |r]; simpl; try discriminate.
  intros H1 H2. apply bool_decide_eq_true in H1, H2. eauto.
Qed.

(** Clamping a real into [[lo, hi]] with [Math.max(lo, Math.min(hi, _))]. *)
Lemma clamp_Fin (lo hi r : R) :
  lo <= hi ->
  exists c, max (Fin lo) (min (Fin hi) (Fin r)) = Fin c /\ lo <= c <= hi
            /\ (lo <= r <= hi -> c = r).
Proof.
  intros Hle. rewrite min_Fin, max_Fin. eexists; split; [reflexivity|].
  unfold Rmax, Rmin.
  destruct (Rle_dec hi r), (Rle_dec lo hi), (Rle_dec lo r); lra.
Qed.

(** Powers of a base in (0, 1] with a positive exponent stay in (0, 1]. *)
Lemma Rpower_unit (b e : R) : 0 < b <= 1 -> 0 < e -> 0 < Rpower b e <= 1.
Proof.
  intros [Hb0 Hb1] He. unfold Rpower. split; [apply exp_pos|].
  rewrite <- exp_0. destruct (Rle_lt_or_eq_dec _ _ Hb1) as [Hlt|Heq].
  - left. apply exp_increasing.
    assert (ln b < 0) by (rewrite <- ln_1; now apply ln_increasing).
    nra.
  - subst b. rewrite ln_1, Rmult_0_r. right. reflexivity.
Qed.

End JSFacts.

(** Evaluation of the code on concrete numbers: comparisons of constants
    are decided by [lra] (reals) or [lia] (times). *)
Lemma hypot_axis (a b : R) : b = 0 -> JS.hypot a b = Rabs a.
Proof.
  intros ->. unfold JS.hypot. rewrite Rmult_0_l, Rplus_0_r.
  rewrite <- (sqrt_Rsqr_abs a). reflexivity.
Qed.

Ltac decide_const :=
  first [ lra | lia | reflexivity | discriminate
        | let H := fresh in intros H; injection H; lia ].

Ltac js_core :=
  first
    [ rewrite min_Fin
    | rewrite max_Fin
    | match goal with
      | |- context [JS.hypot ?a ?b] => rewrite (hypot_axis a b) by lra
      | |- context [Rmax ?a ?b] =>
          first [ rewrite (Rmax_left a b) by lra | rewrite (Rmax_right a b) by lra ]
      | |- context [Rmin ?a ?b] =>
          first [ rewrite (Rmin_left a b) by lra | rewrite (Rmin_right a b) by lra ]
      | |- context [Rabs ?a] =>
          first [ rewrite (Rabs_right a) by lra | rewrite (Rabs_left a) by lra ]
      | |- context [@bool_decide ?P ?d] =>
          let H := fresh in
          first [ assert (H : P) by decide_const;
                  rewrite (@bool_decide_true P d H); clear H
                | assert (H : ~ P) by decide_const;
                  rewrite (@bool_decide_false P d H); clear H ]
      end
    | progress unfold JS.inf_of_sign
    | progress cbn [JS.add JS.sub JS.mul JS.div JS.neg JS.abs JS.pow JS.inf_of_sign
                    JS.strict_eq JS.lt JS.le JS.gt JS.ge JS.isNaN JS.isFinite
                    negb andb orb] ].

Ltac js_step :=
  first
    [ js_core
    | match goal with
      | |- context [IZR (?a - ?b)] =>
          let z := eval vm_compute in (a - b)%Z in
          change (IZR (a - b)) with (IZR z)
      end ].

Ltac js_eval := repeat js_step.
Ltac js_compute := js_eval; try reflexivity; try (f_equal; lra).

(** Evaluation of the canvas tick on concrete hands. *)
Ltac canvas_step :=
  first
    [ js_core
    | match goal with
      | |- context [@lookup nat ?A (gmap nat ?A) _ ?k ?m] =>
          let r := eval vm_compute in (@lookup nat A (gmap nat A) _ k m) in
          change (@lookup nat A (gmap nat A) _ k m) with r
      end
    | progress cbn [StringCanvas.getPinchState StringCanvas.pinchTips
        StringCanvas.indexTip StringCanvas.videoToCanvas StringCanvas.observation
        StringCanvas.observations StringCanvas.closestTip StringCanvas.closerTip
        StringCanvas.grabRelease StringCanvas.checkPresence StringCanvas.ease
        StringCanvas.lerp StringCanvas.stepEndpoint StringCanvas.distance
        StringCanvas.effectivePinch StringCanvas.updateReleaseTime
        StringCanvas.isControllingEndpoint StringCanvas.leftEndpoint
        StringCanvas.rightEndpoint StringCanvas.endpointOf StringCanvas.anchorOf
        StringCanvas.leftAnchor StringCanvas.rightAnchor
        StringCanvas.landmarks StringCanvas.annotations StringCanvas.thumb
        StringCanvas.indexFinger StringCanvas.videoWidth StringCanvas.videoHeight
        StringCanvas.width StringCanvas.height StringCanvas.state
        StringCanvas.releaseTime StringCanvas.tipPoint StringCanvas.handId
        StringCanvas.isPinched StringCanvas.position StringCanvas.grabbed
        StringCanvas.controllingHandId StringCanvas.leftEnd StringCanvas.rightEnd
        StringCanvas.leftGrabbed StringCanvas.rightGrabbed StringCanvas.leftHandId
        StringCanvas.rightHandId StringCanvas.pinchStates
        StringCanvas.frameHands StringCanvas.frameVideo StringCanvas.frameTime
        StringCanvas.storeObservations
        x y fst snd lookup list_lookup mbind option_bind from_option Datatypes.id
        foldl fmap list_fmap app negb andb orb]
    | match goal with
      | |- context [bool_decide (?k ∈ @list_to_set nat (gset nat) _ _ _ ?l)] =>
          let r := eval vm_compute in
                     (bool_decide (k ∈ @list_to_set nat (gset nat) _ _ _ l)) in
          change (bool_decide (k ∈ @list_to_set nat (gset nat) _ _ _ l)) with r
      end
    | progress unfold StringCanvas.GRAB_RADIUS, StringCanvas.RELEASE_HYSTERESIS,
        StringCanvas.EASING_FACTOR, StringCanvas.PINCH_THRESHOLD,
        StringCanvas.PINCH_RELEASE_THRESHOLD, StringCanvas.PINCH_DEBOUNCE_TIME
    | progress unfold StringCanvas.stepEndpoint, StringCanvas.leftEndpoint,
        StringCanvas.rightEndpoint, StringCanvas.leftAnchor, StringCanvas.rightAnchor
    | progress unfold StringCanvas.checkPresence
    | progress unfold StringCanvas.closestTip, StringCanvas.closerTip,
        StringCanvas.distance
    | progress unfold StringCanvas.grabRelease
    | progress unfold StringCanvas.ease, StringCanvas.lerp
    | case_bool_decide ].

Ltac canvas_eval :=
  unfold Inputs.pinchFrame, Inputs.openNearPinchFar, Inputs.holderFarOpenNear,
    Inputs.handAt, Inputs.canvas800, Inputs.video800, Inputs.leftHeld,
    Inputs.dragging, Inputs.bothHeld, StringCanvas.initialState,
    StringCanvas.drawFrame;
  repeat canvas_step.

(** ** The parameter mapping engine ([lib/audioConfig.ts]) *)

Section MappingFacts.
Import JS Utils AudioConfig.

Lemma add_NaN_r (a : num) : (a + NaN)%js = NaN.
Proof. now destruct a. Qed.

Lemma min_NaN_r (a : num) : JS.min a NaN = NaN.
Proof. now destruct a. Qed.

Lemma max_NaN_r (a : num) : JS.max a NaN = NaN.
Proof. now destruct a. Qed.

Lemma validFrequency_Fin (f : num) :
  validFrequency f = true <-> exists r, f = Fin r /\ 0 < r.
Proof.
  unfold validFrequency. destruct f as [| | |r]; simpl;
    try (split; [discriminate | intros (r' & [=] & _)]).
  unfold gt, lt. rewrite bool_decide_eq_true.
  split; [eauto | intros (r' & [= <-] & H); exact H].
Qed.

Lemma validFrequency_invalid (f : num) :
  validFrequency f = negb (invalidFrequency f).
Proof.
  unfold validFrequency, invalidFrequency, gt.
  destruct f as [| | |r]; simpl; try reflexivity.
  repeat case_bool_decide; simpl; try reflexivity; lra.
Qed.

(** A valid frequency, clamped for the synthesizer, is audible. *)
Lemma audible_clamp (f : num) :
  validFrequency f = true -> audible (JS.max (Fin 20) (JS.min (Fin 20000) f)).
Proof.
  intros (r & -> & _)%validFrequency_Fin.
  destruct (clamp_Fin 20 20000 r) as (c & -> & Hc & _); [lra|].
  split; apply le_Fin; lra.
Qed.

(** The curve keeps a tension of the unit interval in the unit interval. *)
Lemma applyCurve_unit (t e : R) :
  0 <= t <= 1 -> 1 / 10 <= e <= 5 ->
  exists c, applyCurve (Fin t) (Fin e) = Fin c /\ 0 <= c <= 1.
Proof.
  intros Ht He. unfold applyCurve.
  destruct (clamp_Fin 0 1 t) as (c & -> & Hc & Heq); [lra|].
  rewrite (Heq Ht). simpl. case_bool_decide; [eauto|].
  rewrite bool_decide_false by lra.
  case_bool_decide.
  - rewrite bool_decide_true by lra. exists 0. split; [reflexivity | lra].
  - rewrite bool_decide_true by lra. eexists; split; [reflexivity|].
    pose proof (Rpower_unit t e). lra.
Qed.

(** Linear interpolation of a value of the unit interval into a range, in
    exact arithmetic. *)
Lemma mapRange_within (lo hi c : R) :
  lo <= hi -> 0 <= c <= 1 ->
  exists v, mapRange (mkRange (Fin lo) (Fin hi)) (Fin c) = Fin v /\ lo <= v <= hi.
Proof.
  intros Hle Hc. unfold mapRange. simpl. eexists; split; [reflexivity|]. nra.
Qed.

Lemma finiteOrdered_Fin (r : Range) :
  finiteOrdered r -> exists lo hi, r = mkRange (Fin lo) (Fin hi) /\ lo <= hi.
Proof.
  destruct r as [[| | |lo] [| | |hi]]; intros (H1 & H2 & H3); simpl in *;
    try discriminate.
  apply le_Fin in H3. eauto.
Qed.

(** The mapping formula of one parameter: curve, then interpolation. *)
Lemma mapped_within (r : Range) (t curve : num) :
  unitTension t -> exponentInRange curve -> finiteOrdered r ->
  exists lo hi v, r = mkRange (Fin lo) (Fin hi)
                  /\ mapRange r (applyCurve t curve) = Fin v /\ lo <= v <= hi.
Proof.
  intros [Ht1 Ht2] [He1 He2] Hr.
  destruct (between_Fin _ _ _ Ht1 Ht2) as (t' & -> & Ht).
  destruct (between_Fin _ _ _ He1 He2) as (e' & -> & He).
  destruct (finiteOrdered_Fin _ Hr) as (lo & hi & -> & Hle).
  destruct (applyCurve_unit t' e' Ht He) as (c & -> & Hc).
  destruct (mapRange_within lo hi c Hle Hc) as (v & -> & Hv).
  eauto 6.
Qed.

End MappingFacts.

(** ** Doubles: what does not overflow *)

Section DoubleFacts.
Import JS Binary64.

Lemma MAX_VALUE_large : 1000000000 <= MAX_VALUE.
Proof.
  unfold MAX_VALUE.
  assert (H52 : 1 <= 2 ^ 52) by (apply pow_R1_Rle; lra).
  assert (Hinv : / 2 ^ 52 <= 1).
  { rewrite <- Rinv_1. apply Rinv_le_contravar; lra. }
  assert (H993 : 1 <= 2 ^ 993) by (apply pow_R1_Rle; lra).
  replace (2 ^ 1023) with (2 ^ 30 * 2 ^ 993) by (rewrite <- pow_add; reflexivity).
  assert (H30 : 2 ^ 30 = 1073741824) by (cbn [pow]; lra).
  rewrite H30. nra.
Qed.

Lemma finiteDifference_small (a b : R) :
  -1000000000 <= b - a <= 1000000000 -> finiteDifference a b.
Proof.
  intros H. unfold finiteDifference. pose proof MAX_VALUE_large.
  unfold Rabs. destruct (Rcase_abs _); lra.
Qed.

Lemma spanFinite_small (lo hi : R) :
  -1000000000 <= hi - lo <= 1000000000 ->
  spanFinite (AudioConfig.mkRange (Fin lo) (Fin hi)).
Proof. intros H. exists lo, hi. split; [reflexivity|]. now apply finiteDifference_small. Qed.

End DoubleFacts.

(** ** The mapped parameters and the pitch *)

Section MappingClaims.
Import JS Utils AudioConfig MappedBounds Inputs.

(** C8 (amended).  For a tension in [0, 1], curve exponents in [0.1, 5.0]
    and finite ranges with [min <= max] whose [max - min] does not
    overflow: the volume, the distortion amount and the reverb wet level
    handed over by [updateAudio] are at least the configured minimum and at
    most the value the same formula takes at full tension,
    [min + 1 * (max - min)] (the configured maximum in exact arithmetic; on
    doubles it can exceed the maximum by rounding).  The filter cutoff
    computed by the formula lies between the same bounds, but what reaches
    the filter is that value clamped to 20..20000 Hz: it is at least the
    minimum when [min <= 20000] and at most the value at full tension when
    that is at least 20. *)
Theorem C8_mapped_parameters_within_range
    (controls : StringControls) (midpointX canvasWidth : num) (config : Config) :
  unitTension (tension controls) ->
  exponentInRange (curve_volume (curves config)) ->
  exponentInRange (curve_filterCutoff (curves config)) ->
  exponentInRange (curve_distortion (curves config)) ->
  exponentInRange (curve_reverb (curves config)) ->
  finiteOrdered (volume (mappings config)) ->
  finiteOrdered (filterCutoff (mappings config)) ->
  finiteOrdered (distortion (mappings config)) ->
  finiteOrdered (reverb (mappings config)) ->
  Binary64.spanFinite (volume (mappings config)) ->
  Binary64.spanFinite (filterCutoff (mappings config)) ->
  Binary64.spanFinite (distortion (mappings config)) ->
  Binary64.spanFinite (reverb (mappings config)) ->
  let m := mappings config in
  let u := updateAudio controls midpointX canvasWidth config in
  let cutoff :=
    mapRange (filterCutoff m)
      (applyCurve (tension controls) (curve_filterCutoff (curves config))) in
  between (min (volume m)) (synth_volume u) (fullTension (volume m))
  /\ between (min (distortion m)) (distortion_distortion u) (fullTension (distortion m))
  /\ between (min (reverb m)) (reverb_wet u) (fullTension (reverb m))
  /\ between (min (filterCutoff m)) cutoff (fullTension (filterCutoff m))
  /\ filter_frequency u = JS.max (Fin 20) (JS.min (Fin 20000) cutoff)
  /\ audible (filter_frequency u)
  /\ (JS.le (min (filterCutoff m)) (Fin 20000) = true ->
      JS.le (min (filterCutoff m)) (filter_frequency u) = true)
  /\ (JS.le (Fin 20) (fullTension (filterCutoff m)) = true ->
      JS.le (filter_frequency u) (fullTension (filterCutoff m)) = true).
Proof.
  intros Ht Hcv Hcf Hcd Hcr Hv Hf Hd Hr _ _ _ _ m u cutoff.
  subst m u cutoff. unfold updateAudio. cbn [synth_volume distortion_distortion
    reverb_wet filter_frequency].
  destruct (mapped_within _ _ _ Ht Hcv Hv) as (lo1 & hi1 & v1 & E1 & -> & B1).
  destruct (mapped_within _ _ _ Ht Hcd Hd) as (lo2 & hi2 & v2 & E2 & -> & B2).
  destruct (mapped_within _ _ _ Ht Hcr Hr) as (lo3 & hi3 & v3 & E3 & -> & B3).
  destruct (mapped_within _ _ _ Ht Hcf Hf) as (lo4 & hi4 & v4 & E4 & -> & B4).
  rewrite E1, E2, E3, E4. unfold between, audible, fullTension, mapRange.
  cbn [min max JS.add JS.sub JS.mul JS.neg].
  rewrite min_Fin, max_Fin, !le_Fin.
  repeat split; try lra; try intros H1;
    unfold Rmax, Rmin; repeat destruct (Rle_dec _ _); lra.
Qed.

Lemma C8_witness :
  let u := updateAudio (controlsWithTension (Fin (1 / 2))) (Fin 400) (Fin 800)
             audioConfig in
  between (Fin (-30)) (synth_volume u) (fullTension (mkRange (Fin (-30)) (Fin 0)))
  /\ between (Fin 200) (filter_frequency u) (fullTension (mkRange (Fin 200) (Fin 8000))).
Proof.
  assert (Hexp : forall e, 1 / 10 <= e <= 5 -> exponentInRange (Fin e)).
  { intros e He. split; apply le_Fin; lra. }
  assert (Hrng : forall lo hi, lo <= hi -> finiteOrdered (mkRange (Fin lo) (Fin hi))).
  { intros lo hi Hle. repeat split. apply le_Fin, Hle. }
  destruct (C8_mapped_parameters_within_range
              (controlsWithTension (Fin (1 / 2))) (Fin 400) (Fin 800) audioConfig)
    as (Hvol & _ & _ & _ & _ & _ & Hlow & Hhigh).
  - split; apply le_Fin; lra.
  - apply Hexp; lra.
  - apply Hexp; lra.
  - apply Hexp; lra.
  - apply Hexp; lra.
  - apply Hrng; lra.
  - apply Hrng; lra.
  - apply Hrng; lra.
  - apply Hrng; lra.
  - apply spanFinite_small; lra.
  - apply spanFinite_small; lra.
  - apply spanFinite_small; lra.
  - apply spanFinite_small; lra.
  - split; [exact Hvol|]. split.
    + apply Hlow. apply le_Fin; lra.
    + apply Hhigh. unfold fullTension, mapRange. cbn. apply le_Fin. lra.
Defined.

(** C8 fails as stated, for three reasons.  The clamp: with the filter
    cutoff range configured as 5..10 Hz and tension 0, the formula gives 5
    but the filter receives 20.  Rounding: on doubles, with the range
    0.03..0.3, a linear curve and tension 1 the formula gives
    0.30000000000000004, above the maximum.  Overflow: with the range
    -MAX_VALUE..MAX_VALUE and tension 0 the formula gives NaN. *)
Lemma C8_counterexample_outside_range :
  (let config := configWithFilterCutoff (mkRange (Fin 5) (Fin 10)) in
   let u := updateAudio (controlsWithTension (Fin 0)) (Fin 400) (Fin 800) config in
   unitTension (Fin 0)
   /\ exponentInRange (curve_filterCutoff (curves config))
   /\ finiteOrdered (filterCutoff (mappings config))
   /\ filter_frequency u = Fin 20
   /\ ~ within (filterCutoff (mappings config)) (filter_frequency u))
  /\ (forall pow : float -> float -> float,
        let value := Binary64.mapRange 0.03 0.3 (Binary64.applyCurve pow 1 1) in
        value = 0.30000000000000004%float /\ (0.3 <? value)%float = true)
  /\ (forall pow : float -> float -> float,
        let value :=
          Binary64.mapRange (-0x1.fffffffffffffp+1023) 0x1.fffffffffffffp+1023
            (Binary64.applyCurve pow 0 1) in
        is_nan value = true).
Proof.
  split; [|split; intros pow; vm_compute; auto].
  cbn zeta.
  assert (E : filter_frequency
                (updateAudio (controlsWithTension (Fin 0)) (Fin 400) (Fin 800)
                   (configWithFilterCutoff (mkRange (Fin 5) (Fin 10)))) = Fin 20).
  { unfold updateAudio, applyCurve, mapRange, configWithFilterCutoff,
      controlsWithTension.
    cbn [filter_frequency mappings curves filterCutoff curve_filterCutoff
         tension min max audioConfig].
    js_compute. }
  repeat split; try (apply le_Fin; cbn; lra); [exact E|].
  rewrite E. intros [_ H]. cbn in H. apply le_Fin in H. lra.
Qed.

(** The normalised midpoint is a real of the unit interval whatever the
    midpoint and the canvas width are. *)
Lemma normalizedX_unit (midpointX canvasWidth : num) :
  exists nx, normalizedX midpointX canvasWidth = Fin nx /\ 0 <= nx <= 1.
Proof.
  unfold normalizedX.
  assert (Hw : exists w, (if JS.isNaN canvasWidth || negb (JS.isFinite canvasWidth)
                             || JS.le canvasWidth (Fin 0)
                          then Fin 1 else JS.max (Fin 1) canvasWidth) = Fin w
                         /\ 1 <= w).
  { destruct canvasWidth as [| | |w]; cbn; try (exists 1; split; [reflexivity|lra]).
    case_bool_decide; [exists 1; split; [reflexivity|lra]|].
    fold (JS.lt (Fin 1) (Fin w)). fold (JS.max (Fin 1) (Fin w)).
    rewrite max_Fin. eexists; split; [reflexivity|]. apply Rmax_l. }
  assert (Hm : exists m, (if JS.isNaN midpointX || negb (JS.isFinite midpointX)
                          then Fin 0 else midpointX) = Fin m).
  { destruct midpointX; cbn; eauto. }
  destruct Hw as (w & -> & Hw). destruct Hm as (m & ->).
  cbn [JS.div]. rewrite bool_decide_false by lra.
  destruct (clamp_Fin 0 1 (m / w)) as (c & -> & Hc & _); [lra|]. eauto.
Qed.

(** With a finite tension, a finite non-negative exponent and finite
    frequency bounds whose [max - min] does not overflow, every intermediate
    value is finite, the clamped frequency is valid and what reaches the
    synthesizer is audible, also when the configured minimum is not
    positive. *)
Lemma finite_inputs_frequency_audible
    (controls : StringControls) (midpointX canvasWidth : num) (config : Config)
    (t e lo hi : R) :
  tension controls = Fin t ->
  curve_frequency (curves config) = Fin e -> 0 <= e ->
  frequency (mappings config) = mkRange (Fin lo) (Fin hi) ->
  Binary64.finiteDifference lo hi ->
  invalidFrequency (clampedFrequency controls midpointX canvasWidth config) = false
  /\ audible (synth_frequency (updateAudio controls midpointX canvasWidth config)).
Proof.
  intros Ht He Hpos Hfr _.
  assert (Hcurve : exists c, applyCurve (Fin t) (Fin e) = Fin c).
  { unfold applyCurve. destruct (clamp_Fin 0 1 t) as (b & -> & Hb & _); [lra|].
    cbn [JS.strict_eq JS.pow]. case_bool_decide; [eauto|].
    case_bool_decide; [eauto|]. rewrite (bool_decide_true (0 < e)) by lra.
    case_bool_decide; [eauto|]. rewrite bool_decide_true by lra. eauto. }
  destruct Hcurve as (c & Hc).
  destruct (normalizedX_unit midpointX canvasWidth) as (nx & Hnx & _).
  assert (Hvalid : validFrequency (clampedFrequency controls midpointX canvasWidth config)
                   = true).
  { unfold clampedFrequency, rawFrequency. rewrite Ht, He, Hfr, Hc, Hnx.
    cbn [min max JS.add JS.sub JS.mul JS.neg].
    rewrite !min_Fin, !max_Fin. apply validFrequency_Fin.
    eexists; split; [reflexivity|].
    pose proof (Rmax_l (Rmax 20 lo)). pose proof (Rmax_l 20 lo).
    match goal with |- 0 < Rmax ?a ?b => specialize (H b) end. lra. }
  assert (Hinv : invalidFrequency
                   (clampedFrequency controls midpointX canvasWidth config) = false)
    by (now rewrite validFrequency_invalid, negb_true_iff in Hvalid).
  split; [exact Hinv|].
  unfold updateAudio. cbn [synth_frequency]. unfold synthFrequency, validatedFrequency.
  rewrite Hinv, Hvalid. now apply audible_clamp.
Qed.

Lemma min_PInf_r (a : R) : JS.min (Fin a) PInf = Fin a.
Proof. reflexivity. Qed.

(** An infinite intermediate value is not replaced by the configured
    minimum: with a negative exponent and tension 0 the curve gives
    [+Infinity], the pitch before clamping is [+Infinity], and the clamp
    turns it into the configured maximum. *)
Example infinite_intermediate_gives_maximum :
  let config := configWithFrequencyCurve (Fin (-1)) in
  rawFrequency (controlsWithTension (Fin 0)) (Fin 400) (Fin 800) config = PInf
  /\ synth_frequency (updateAudio (controlsWithTension (Fin 0)) (Fin 400) (Fin 800) config)
     = Fin 880.
Proof.
  cbn zeta.
  assert (Eraw : rawFrequency (controlsWithTension (Fin 0)) (Fin 400) (Fin 800)
                   (configWithFrequencyCurve (Fin (-1))) = PInf).
  { unfold rawFrequency, applyCurve, normalizedX, controlsWithTension,
      configWithFrequencyCurve.
    cbn [tension mappings curves frequency curve_frequency min max audioConfig].
    js_eval. reflexivity. }
  split; [exact Eraw|].
  unfold updateAudio. cbn [synth_frequency].
  unfold synthFrequency, validatedFrequency, clampedFrequency. rewrite Eraw.
  unfold configWithFrequencyCurve.
  cbn [mappings frequency min max audioConfig].
  rewrite min_Fin, min_PInf_r. unfold invalidFrequency, validFrequency.
  js_compute.
Qed.

(** C4 (amended).  For every control frame, midpoint position and mapping
    configuration whose configured minimum frequency is a finite positive
    number, the frequency that reaches the synthesizer lies within 20 Hz to
    20000 Hz; and whenever the frequency computed and clamped to the
    configured bounds is NaN, infinite or not positive, the configured
    minimum frequency is substituted for that tick (and, like every valid
    value, clamped into 20..20000 Hz on its way to the synthesizer). *)
Theorem C4_frequency_audible
    (controls : StringControls) (midpointX canvasWidth : num) (config : Config) :
  validFrequency (min (frequency (mappings config))) = true ->
  let configuredMin := min (frequency (mappings config)) in
  let sent := synth_frequency (updateAudio controls midpointX canvasWidth config) in
  audible sent
  /\ (invalidFrequency (clampedFrequency controls midpointX canvasWidth config) = true ->
      validatedFrequency controls midpointX canvasWidth config = configuredMin
      /\ sent = JS.max (Fin 20) (JS.min (Fin 20000) configuredMin)).
Proof.
  intros Hmin configuredMin sent. subst configuredMin sent.
  unfold updateAudio. cbn [synth_frequency].
  unfold synthFrequency, validatedFrequency.
  destruct (invalidFrequency (clampedFrequency _ _ _ _)) eqn:Hinv.
  - rewrite Hmin. split; [now apply audible_clamp | auto].
  - assert (Hval : validFrequency
                     (clampedFrequency controls midpointX canvasWidth config) = true)
      by (rewrite validFrequency_invalid, Hinv; reflexivity).
    rewrite Hval. split; [now apply audible_clamp | discriminate].
Qed.

Lemma C4_witness :
  audible (synth_frequency
             (updateAudio (controlsWithTension NaN) (Fin 400) (Fin 800) audioConfig))
  /\ validatedFrequency (controlsWithTension NaN) (Fin 400) (Fin 800) audioConfig
     = Fin 220.
Proof.
  assert (Hmin : validFrequency (min (frequency (mappings audioConfig))) = true).
  { apply validFrequency_Fin. exists 220. split; [reflexivity | lra]. }
  destruct (C4_frequency_audible (controlsWithTension NaN) (Fin 400) (Fin 800)
              audioConfig Hmin) as [Haud Hsub].
  split; [exact Haud|]. apply Hsub.
  unfold clampedFrequency, rawFrequency, applyCurve, controlsWithTension.
  cbn [tension mappings curves frequency curve_frequency min max audioConfig].
  rewrite min_NaN_r. cbn [JS.max]. js_eval.
  rewrite !add_NaN_r, !min_NaN_r, !max_NaN_r. reflexivity.
Defined.

(** C4 fails as stated: with a NaN tension and the minimum frequency
    configured as 0, every intermediate value is NaN, the fallback
    substitutes the configured minimum, and 0 Hz reaches the synthesizer. *)
Lemma C4_counterexample_invalid_minimum :
  let config := configWithFrequency (mkRange (Fin 0) (Fin 880)) in
  let sent :=
    synth_frequency (updateAudio (controlsWithTension NaN) (Fin 400) (Fin 800) config) in
  sent = Fin 0 /\ ~ audible sent.
Proof.
  cbn zeta.
  assert (E : synth_frequency
                (updateAudio (controlsWithTension NaN) (Fin 400) (Fin 800)
                   (configWithFrequency (mkRange (Fin 0) (Fin 880)))) = Fin 0).
  { unfold updateAudio. cbn [synth_frequency].
    unfold synthFrequency, validatedFrequency, clampedFrequency, rawFrequency,
      applyCurve, controlsWithTension, configWithFrequency.
    cbn [tension mappings curves frequency curve_frequency min max audioConfig].
    rewrite min_NaN_r. cbn [JS.max]. js_eval.
    rewrite !add_NaN_r, !min_NaN_r, !max_NaN_r.
    unfold invalidFrequency, validFrequency. js_compute. }
  split; [exact E|]. rewrite E. intros [H _]. apply le_Fin in H. lra.
Qed.

End MappingClaims.

(** ** Control signals ([lib/utils.ts]) *)

Section UtilsClaims.
Import JS Utils.

(** C5 (amended).  For every pair of tension values and every deltaTime: if
    deltaTime <= 0 (minus infinity included) or deltaTime is plus infinity,
    the computed tensionVelocity is 0; if deltaTime is positive and finite it
    is (tension - previousTension) / deltaTime; if deltaTime is NaN the test
    [deltaTime <= 0] is false and the result is NaN. *)
Theorem C5_tension_velocity (currentTension previousTension : R) (deltaTime : num) :
  let v := computeTensionVelocity (Fin currentTension) (Fin previousTension) deltaTime in
  (le deltaTime (Fin 0) = true \/ deltaTime = PInf -> v = Fin 0)
  /\ (forall d, deltaTime = Fin d -> 0 < d ->
      v = Fin ((currentTension - previousTension) / d))
  /\ (deltaTime = NaN -> v = NaN).
Proof.
  cbn zeta. unfold computeTensionVelocity. repeat split.
  - intros [H | ->]; [now rewrite H | reflexivity].
  - intros d -> Hd. cbn [le sub neg add div].
    rewrite !bool_decide_false by lra. reflexivity.
  - intros ->. reflexivity.
Qed.

Lemma C5_witness :
  computeTensionVelocity (Fin (5 / 10)) (Fin (1 / 10)) (Fin (-1)) = Fin 0
  /\ computeTensionVelocity (Fin (5 / 10)) (Fin (1 / 10)) PInf = Fin 0
  /\ computeTensionVelocity (Fin (5 / 10)) (Fin (1 / 10)) (Fin (1 / 60))
     = Fin ((5 / 10 - 1 / 10) / (1 / 60))
  /\ computeTensionVelocity (Fin (5 / 10)) (Fin (1 / 10)) NaN = NaN.
Proof.
  split; [|split; [|split]].
  - apply (C5_tension_velocity (5 / 10) (1 / 10) (Fin (-1))).
    left. apply le_Fin. lra.
  - apply (C5_tension_velocity (5 / 10) (1 / 10) PInf). right. reflexivity.
  - apply (C5_tension_velocity (5 / 10) (1 / 10) (Fin (1 / 60)));
      [reflexivity | lra].
  - apply (C5_tension_velocity (5 / 10) (1 / 10) NaN). reflexivity.
Defined.

(** C5 fails as stated: a NaN deltaTime is non-finite, yet the velocity
    computed for it is NaN, not 0. *)
Lemma C5_counterexample_nan_deltaTime :
  isFinite NaN = false
  /\ computeTensionVelocity (Fin (5 / 10)) (Fin (1 / 10)) NaN = NaN
  /\ computeTensionVelocity (Fin (5 / 10)) (Fin (1 / 10)) NaN <> Fin 0
  /\ strict_eq (computeTensionVelocity (Fin (5 / 10)) (Fin (1 / 10)) NaN) (Fin 0)
     = false.
Proof. repeat split. discriminate. Qed.

End UtilsClaims.

(** ** The audio gate ([app/page.tsx]) *)

Section PageClaims.
Import JS Utils AudioConfig Page Inputs.

Lemma le_not_gt (a b : num) : le a b = true -> gt a b = false.
Proof.
  unfold gt. destruct a, b; simpl; try discriminate; try reflexivity.
  intros H%bool_decide_eq_true. apply bool_decide_eq_false. lra.
Qed.

Lemma pluckRaised_playAudio (config : Config) (isPlaying isGrabbed : bool)
    (controls : StringControls) (midpointX canvasWidth : num) :
  pluckRaised (playAudio config isPlaying isGrabbed controls midpointX canvasWidth).2
  = gate controls isGrabbed && pluckCondition config controls.
Proof.
  unfold playAudio.
  destruct (gate controls isGrabbed), (pluckCondition config controls), isPlaying;
    reflexivity.
Qed.

Lemma audioEffect_calls (canvas : StringCanvas.Canvas) (config : Config)
    (refs : Refs) (s : StringState) (now : Z) :
  audioEffect canvas config refs s now
  = let controls := effectControls canvas refs s now in
    let res := playAudio config (isPlaying refs) (leftGrabbed s || rightGrabbed s)
                 controls (Fin (((leftEnd s).(x) + (rightEnd s).(x)) / 2))
                 (Fin (StringCanvas.width canvas)) in
    ({| isPlaying := res.1; previousTension := tension controls;
        lastUpdateTime := now |}, res.2).
Proof. unfold audioEffect. cbn zeta. now destruct (playAudio _ _ _ _ _ _). Qed.

(** C6 (amended).  In the audio effect a pluck (release and re-attack of the
    note) is raised exactly when tension > 0.01, at least one endpoint is
    grabbed, |tensionVelocity| > pluckThreshold and tensionVelocity > 0; in
    particular a tension jump from 0.1 to 0.5 in one tick with
    deltaTime = 1/60 s and pluckThreshold = 0.1 yields tensionVelocity = 24
    and, with an endpoint grabbed, raises a pluck. *)
Theorem C6_pluck_raised (canvas : StringCanvas.Canvas) (config : Config)
    (refs : Refs) (s : StringState) (now : Z) :
  let controls := effectControls canvas refs s now in
  (pluckRaised (audioEffect canvas config refs s now).2 = true <->
     gt (tension controls) (Fin (1 / 100)) = true
     /\ (leftGrabbed s = true \/ rightGrabbed s = true)
     /\ gt (abs (tensionVelocity controls)) (pluckThreshold (mappings config)) = true
     /\ gt (tensionVelocity controls) (Fin 0) = true)
  /\ computeTensionVelocity (Fin (5 / 10)) (Fin (1 / 10)) (Fin (1 / 60)) = Fin 24
  /\ (forall (jump : StringControls) (isPlaying : bool) (midpointX canvasWidth : num),
        tension jump = Fin (5 / 10) ->
        tensionVelocity jump
        = computeTensionVelocity (Fin (5 / 10)) (Fin (1 / 10)) (Fin (1 / 60)) ->
        pluckThreshold (mappings config) = Fin (1 / 10) ->
        pluckRaised (playAudio config isPlaying true jump midpointX canvasWidth).2
        = true).
Proof.
  assert (E24 : computeTensionVelocity (Fin (5 / 10)) (Fin (1 / 10)) (Fin (1 / 60))
                = Fin 24).
  { unfold computeTensionVelocity. js_eval. f_equal. lra. }
  cbn zeta. split; [|split; [exact E24|]].
  - rewrite audioEffect_calls. cbn [snd]. rewrite pluckRaised_playAudio.
    unfold gate, pluckCondition.
    rewrite !andb_true_iff, orb_true_iff. tauto.
  - intros jump isPlaying midpointX canvasWidth Ht Hv Hthr.
    rewrite pluckRaised_playAudio. unfold gate, pluckCondition.
    rewrite Ht, Hv, E24, Hthr. js_compute.
Qed.

Lemma C6_witness :
  pluckRaised
    (playAudio audioConfig false true
       {| tension := Fin (5 / 10); leftStretch := Fin (5 / 10);
          rightStretch := Fin 0; angle := Fin 0;
          tensionVelocity :=
            computeTensionVelocity (Fin (5 / 10)) (Fin (1 / 10)) (Fin (1 / 60));
          isGrabbed_left := true; isGrabbed_right := false |}
       (Fin 400) (Fin 800)).2 = true.
Proof.
  apply (C6_pluck_raised canvas800 audioConfig playingRefs barelyStretched 16);
    reflexivity.
Defined.

(** C6 fails as stated: with the left endpoint grabbed and the string one
    unit longer than at rest, the tension rises from 0 to 0.01 in 16 ms; the
    velocity 0.625 is positive and above the threshold 0.1, but the tension
    is not above 0.01, the gate is closed and no pluck is raised. *)
Lemma C6_counterexample_gate_closed :
  let controls := effectControls canvas800 playingRefs barelyStretched 16 in
  tension controls = Fin (1 / 100)
  /\ tensionVelocity controls = Fin (625 / 1000)
  /\ gt (abs (tensionVelocity controls)) (pluckThreshold (mappings audioConfig)) = true
  /\ gt (tensionVelocity controls) (Fin 0) = true
  /\ pluckRaised (audioEffect canvas800 audioConfig playingRefs barelyStretched 16).2
     = false.
Proof.
  cbn zeta.
  assert (Et : tension (effectControls canvas800 playingRefs barelyStretched 16)
               = Fin (1 / 100)).
  { unfold effectControls, computeStringControls, computeTension, distance,
      defaultMaxStretch.
    cbn [tension x y barelyStretched Page.leftEnd Page.rightEnd canvas800
         StringCanvas.leftAnchor StringCanvas.rightAnchor StringCanvas.width
         StringCanvas.height].
    js_compute. }
  assert (Ev : tensionVelocity (effectControls canvas800 playingRefs barelyStretched 16)
               = Fin (625 / 1000)).
  { pose proof Et as Et'. unfold effectControls, computeStringControls in Et' |- *.
    cbn [tension tensionVelocity] in Et' |- *. rewrite Et'.
    unfold computeTensionVelocity, playingRefs.
    cbn [Page.previousTension Page.lastUpdateTime Z.sub Z.opp Z.add].
    js_compute. }
  split; [exact Et|]. split; [exact Ev|].
  rewrite audioEffect_calls. cbn [snd]. rewrite pluckRaised_playAudio.
  unfold gate. rewrite Ev, Et. cbn [mappings pluckThreshold audioConfig].
  js_eval. repeat split.
Qed.

(** C10.  In the audio effect the note is attacked only when tension > 0.01
    and at least one endpoint is grabbed; when that condition fails while a
    note is playing, the note is released in that tick; hence after every
    tick a note is held exactly when the condition holds, and none is held
    while both endpoints are idle or the tension is at most 0.01. *)
Theorem C10_note_gated (canvas : StringCanvas.Canvas) (config : Config)
    (refs : Refs) (s : StringState) (now : Z) :
  let controls := effectControls canvas refs s now in
  let open := gt (tension controls) (Fin (1 / 100))
              && (leftGrabbed s || rightGrabbed s) in
  let res := audioEffect canvas config refs s now in
  (existsb isAttack res.2 = true -> open = true)
  /\ (open = false -> isPlaying refs = true ->
      res.2 = [TriggerRelease] /\ isPlaying res.1 = false)
  /\ isPlaying res.1 = open
  /\ ((leftGrabbed s = false /\ rightGrabbed s = false)
      \/ le (tension controls) (Fin (1 / 100)) = true ->
      isPlaying res.1 = false)
  /\ (forall (before : list Report) (last : Report),
        let refs' := runEffects canvas config refs before in
        let controls' :=
          effectControls canvas refs' (reportState last) (reportTime last) in
        isPlaying (runEffects canvas config refs (before ++ [last]))
        = gt (tension controls') (Fin (1 / 100))
          && (leftGrabbed (reportState last) || rightGrabbed (reportState last))).
Proof.
  assert (Hplay : forall r st t,
            isPlaying (audioEffect canvas config r st t).1
            = gate (effectControls canvas r st t) (leftGrabbed st || rightGrabbed st)).
  { intros r st t. rewrite audioEffect_calls. cbn [fst isPlaying].
    unfold playAudio. destruct (gate _ _), (isPlaying r); reflexivity. }
  cbn zeta. split; [|split; [|split; [|split]]].
  - rewrite audioEffect_calls. cbn [snd]. unfold playAudio.
    fold (gate (effectControls canvas refs s now) (leftGrabbed s || rightGrabbed s)).
    destruct (gate _ _); [reflexivity|]. destruct (isPlaying refs); discriminate.
  - intros Hclosed Hplaying. split; [|rewrite Hplay; exact Hclosed].
    rewrite audioEffect_calls. cbn [snd]. unfold playAudio, gate.
    rewrite Hclosed, Hplaying. reflexivity.
  - apply Hplay.
  - intros H. rewrite Hplay. unfold gate. destruct H as [[-> ->] | H].
    + apply andb_false_r.
    + now rewrite (le_not_gt _ _ H).
  - intros before last. unfold runEffects. rewrite foldl_app. cbn [foldl].
    unfold effectStep at 1. apply Hplay.
Qed.

Lemma C10_witness :
  (audioEffect canvas800 audioConfig playingRefs barelyStretched 16).2
  = [TriggerRelease]
  /\ isPlaying (audioEffect canvas800 audioConfig playingRefs barelyStretched 16).1
     = false.
Proof.
  apply (C10_note_gated canvas800 audioConfig playingRefs barelyStretched 16);
    [|reflexivity].
  unfold effectControls, computeStringControls, computeTension, distance,
    defaultMaxStretch.
  cbn [tension x y barelyStretched Page.leftEnd Page.rightEnd canvas800
       StringCanvas.leftAnchor StringCanvas.rightAnchor StringCanvas.width
       StringCanvas.height].
  js_compute.
Defined.

End PageClaims.

(** ** The canvas tick ([components/StringCanvas.tsx]) *)

Section CanvasFacts.
Import StringCanvas.

Lemma hypot_nonneg (a b : R) : 0 <= JS.hypot a b.
Proof. apply sqrt_pos. Qed.

Lemma hypot_scale (k a b : R) :
  0 <= k -> JS.hypot (k * a) (k * b) = k * JS.hypot a b.
Proof.
  intros Hk. unfold JS.hypot.
  replace (k * a * (k * a) + k * b * (k * b)) with ((k * k) * (a * a + b * b)) by ring.
  rewrite sqrt_mult; [|nra|nra]. rewrite sqrt_square by exact Hk. reflexivity.
Qed.

Lemma distance_nonneg (a b : Point) : 0 <= distance a b.
Proof. apply hypot_nonneg. Qed.

(** Easing shrinks the distance to the anchor by the factor [1 - factor],
    in exact arithmetic. *)
Lemma distance_lerp (p a : Point) (factor : R) :
  0 <= factor <= 1 ->
  distance (lerp p a factor) a = (1 - factor) * distance p a.
Proof.
  intros Hf. unfold distance, lerp. cbn [x y].
  rewrite <- hypot_scale by lra. f_equal; ring.
Qed.

Lemma ease_grabbed (anchor : Point) (e : Endpoint) :
  grabbed (ease anchor e) = grabbed e.
Proof. unfold ease. now destruct (grabbed e) eqn:E. Qed.

Lemma checkPresence_position (active : gset nat) (e : Endpoint) :
  position (checkPresence active e) = position e.
Proof.
  unfold checkPresence. destruct (controllingHandId e); [|reflexivity].
  now case_bool_decide.
Qed.

Lemma checkPresence_idle (active : gset nat) (e : Endpoint) :
  grabbed e = false -> grabbed (checkPresence active e) = false.
Proof.
  unfold checkPresence. destruct (controllingHandId e); [|auto].
  now case_bool_decide.
Qed.

(** The grab logic moves an endpoint only when it ends up grabbed. *)
Lemma grabRelease_idle_position (tips : list HandTip) (e : Endpoint) :
  grabbed (grabRelease tips e) = false ->
  position (grabRelease tips e) = position e.
Proof.
  unfold grabRelease. destruct tips as [|t tips]; [reflexivity|].
  destruct (closestTip _ _) as [[c d]|].
  - destruct (_ && _); [discriminate|].
    destruct (grabbed e) eqn:Eg; [|reflexivity].
    destruct (_ || _); [reflexivity | discriminate].
  - destruct (grabbed e); reflexivity.
Qed.

(** An endpoint that is idle at the end of a tick has been eased from the
    position it had at the start of the tick. *)
Lemma stepEndpoint_idle (active : gset nat) (tips : list HandTip)
    (anchor : Point) (e : Endpoint) :
  grabbed (stepEndpoint active tips anchor e) = false ->
  position (stepEndpoint active tips anchor e) = lerp (position e) anchor EASING_FACTOR.
Proof.
  unfold stepEndpoint. rewrite ease_grabbed. intros Hidle.
  unfold ease. rewrite Hidle. cbn [position].
  rewrite (grabRelease_idle_position _ _ Hidle), checkPresence_position.
  reflexivity.
Qed.

(** [draw] steps each endpoint on its own. *)
Lemma draw_endpoint (side : Side) (canvas : Canvas) (hands : list Hand)
    (video : option Video) (currentTime : Z) (st : CanvasState) :
  endpointOf side (draw canvas hands video currentTime st)
  = let col := collectHandTips st hands video canvas currentTime in
    stepEndpoint (activeHandIds col) (handTips col) (anchorOf side canvas)
      (endpointOf side st).
Proof.
  destruct side;
    unfold draw, stepEndpoint, endpointOf, anchorOf, leftEndpoint, rightEndpoint;
    cbn zeta;
    cbn [leftEnd rightEnd leftGrabbed rightGrabbed leftHandId rightHandId];
    match goal with |- mkEndpoint (position ?E) _ _ = _ => now destruct E end.
Qed.

Lemma run_snoc (canvas : Canvas) (st : CanvasState) (frames : list Frame) (f : Frame) :
  run canvas st (frames ++ [f]) = drawFrame canvas (run canvas st frames) f.
Proof. unfold run. now rewrite foldl_app. Qed.

Lemma run_cons (canvas : Canvas) (st : CanvasState) (f : Frame) (frames : list Frame) :
  run canvas st (f :: frames) = run canvas (drawFrame canvas st f) frames.
Proof. reflexivity. Qed.

(** Over frames that leave the endpoint idle, the distance to the anchor
    decays geometrically, in exact arithmetic. *)
Lemma idle_distance (side : Side) (canvas : Canvas) (frames : list Frame) :
  forall st, idleThroughout side canvas st frames ->
  distance (position (endpointOf side (run canvas st frames))) (anchorOf side canvas)
  = (1 - EASING_FACTOR) ^ length frames
    * distance (position (endpointOf side st)) (anchorOf side canvas).
Proof.
  induction frames as [|f frames IH]; intros st Hidle.
  - cbn. lra.
  - destruct Hidle as [Hf Hrest]. rewrite run_cons, (IH _ Hrest).
    unfold drawFrame in Hf |- *. rewrite draw_endpoint in Hf |- *. cbn zeta in *.
    rewrite (stepEndpoint_idle _ _ _ _ Hf), distance_lerp
      by (unfold EASING_FACTOR; lra).
    cbn [length pow]. ring.
Qed.

(** *** The loop over the hands *)

Lemma observeHand_observation (st : CanvasState) (video : option Video)
    (canvas : Canvas) (currentTime : Z) (acc : Collected) (index : nat) (hand : Hand) :
  observeHand st video canvas currentTime acc index hand
  = match observation st video canvas currentTime
            (col_pinchStates acc !! index) index hand with
    | Some (tip, record) =>
        {| col_pinchStates := <[index := record]> (col_pinchStates acc);
           handTips := handTips acc ++ [tip];
           activeHandIds := activeHandIds acc ∪ {[index]} |}
    | None => acc
    end.
Proof.
  unfold observeHand, observation.
  destruct (indexTip hand) as [[vx vy]|]; [|reflexivity].
  now destruct (videoToCanvas vx vy video canvas).
Qed.

Lemma observation_handId (st : CanvasState) (video : option Video) (canvas : Canvas)
    (currentTime : Z) (prev : option PinchState) (index : nat) (hand : Hand)
    (tip : HandTip) (record : PinchState) :
  observation st video canvas currentTime prev index hand = Some (tip, record) ->
  handId tip = index.
Proof.
  unfold observation. destruct (indexTip hand) as [[vx vy]|]; [|discriminate].
  destruct (videoToCanvas vx vy video canvas). now intros [= <- _].
Qed.

(** Records of hands before [index] are not touched by the rest of the loop. *)
Lemma forEachHand_lookup_lt (st : CanvasState) (video : option Video)
    (canvas : Canvas) (currentTime : Z) (hands : list Hand) :
  forall (index : nat) (acc : Collected) (k : nat),
    (k < index)%nat ->
    col_pinchStates (forEachHand st video canvas currentTime index hands acc) !! k
    = col_pinchStates acc !! k.
Proof.
  induction hands as [|hand rest IH]; intros index acc k Hk; [reflexivity|].
  cbn [forEachHand]. rewrite IH by lia. rewrite observeHand_observation.
  destruct (observation _ _ _ _ _ _ _) as [[tip record]|]; [|reflexivity].
  cbn [col_pinchStates]. apply lookup_insert_ne. lia.
Qed.

Lemma forEachHand_tips_prefix (st : CanvasState) (video : option Video)
    (canvas : Canvas) (currentTime : Z) (hands : list Hand) :
  forall (index : nat) (acc : Collected) (tip : HandTip),
    tip ∈ handTips acc ->
    tip ∈ handTips (forEachHand st video canvas currentTime index hands acc).
Proof.
  induction hands as [|hand rest IH]; intros index acc tip Hin; [exact Hin|].
  cbn [forEachHand]. apply IH. rewrite observeHand_observation.
  destruct (observation _ _ _ _ _ _ _) as [[tip' record]|]; [|exact Hin].
  cbn [handTips]. apply elem_of_app. now left.
Qed.

Lemma forEachHand_active_mono (st : CanvasState) (video : option Video)
    (canvas : Canvas) (currentTime : Z) (hands : list Hand) :
  forall (index : nat) (acc : Collected) (k : nat),
    k ∈ activeHandIds acc ->
    k ∈ activeHandIds (forEachHand st video canvas currentTime index hands acc).
Proof.
  induction hands as [|hand rest IH]; intros index acc k Hin; [exact Hin|].
  cbn [forEachHand]. apply IH. rewrite observeHand_observation.
  destruct (observation _ _ _ _ _ _ _) as [[tip' record]|]; [|exact Hin].
  cbn [activeHandIds]. set_solver.
Qed.

(** The hand at position [j] of the list is observed against the record
    found at the start of the loop, and what is computed for it is what the
    loop leaves behind. *)
Lemma forEachHand_observed (st : CanvasState) (video : option Video)
    (canvas : Canvas) (currentTime : Z) (hands : list Hand) :
  forall (index : nat) (acc : Collected) (j : nat) (hand : Hand)
         (tip : HandTip) (record : PinchState),
    hands !! j = Some hand ->
    observation st video canvas currentTime
      (col_pinchStates acc !! (index + j)%nat) (index + j) hand = Some (tip, record) ->
    let col := forEachHand st video canvas currentTime index hands acc in
    col_pinchStates col !! (index + j)%nat = Some record
    /\ tip ∈ handTips col
    /\ (index + j)%nat ∈ activeHandIds col.
Proof.
  induction hands as [|h rest IH]; intros index acc j hand tip record Hj Hobs;
    [discriminate|].
  cbn zeta. cbn [forEachHand]. destruct j as [|j].
  - injection Hj as ->. rewrite Nat.add_0_r in *.
    pose proof (observeHand_observation st video canvas currentTime acc index hand)
      as Hstep.
    rewrite Hobs in Hstep. split; [|split].
    + rewrite forEachHand_lookup_lt by lia. rewrite Hstep. cbn [col_pinchStates].
      apply lookup_insert_eq.
    + apply forEachHand_tips_prefix. rewrite Hstep. cbn [handTips].
      apply elem_of_app. right. apply list_elem_of_singleton. reflexivity.
    + apply forEachHand_active_mono. rewrite Hstep. cbn [activeHandIds]. set_solver.
  - cbn in Hj. rewrite Nat.add_succ_r in *.
    apply (IH (S index) _ j hand); [exact Hj|].
    rewrite observeHand_observation.
    destruct (observation st video canvas currentTime (col_pinchStates acc !! index)
                index h) as [[tip' record']|]; [|exact Hobs].
    cbn [col_pinchStates]. rewrite lookup_insert_ne by lia. exact Hobs.
Qed.

(** The records of the start of the tick decide the observations. *)
Lemma observations_ext (st : CanvasState) (video : option Video) (canvas : Canvas)
    (currentTime : Z) (hands : list Hand) :
  forall (index : nat) (ps ps' : gmap nat PinchState),
    (forall k, (index <= k)%nat -> ps' !! k = ps !! k) ->
    observations st video canvas currentTime ps' index hands
    = observations st video canvas currentTime ps index hands.
Proof.
  induction hands as [|hand rest IH]; intros index ps ps' Hext; [reflexivity|].
  cbn [observations]. rewrite (Hext index) by lia.
  rewrite (IH (S index) ps ps') by (intros k Hk; apply Hext; lia).
  reflexivity.
Qed.

(** The tips, the active hands and the records that the loop collects. *)
Lemma forEachHand_observations (st : CanvasState) (video : option Video)
    (canvas : Canvas) (currentTime : Z) (hands : list Hand) :
  forall (index : nat) (acc : Collected),
    let obs := observations st video canvas currentTime (col_pinchStates acc)
                 index hands in
    forEachHand st video canvas currentTime index hands acc
    = {| col_pinchStates := storeObservations (col_pinchStates acc) obs;
         handTips := handTips acc ++ obs.*1;
         activeHandIds := activeHandIds acc ∪ list_to_set (handId <$> obs.*1) |}.
Proof.
  induction hands as [|hand rest IH]; intros index acc; cbn zeta.
  - cbn. destruct acc as [ps tips active]. cbn. f_equal.
    + now rewrite app_nil_r.
    + set_solver.
  - cbn [forEachHand observations]. rewrite IH. rewrite observeHand_observation.
    destruct (observation _ _ _ _ _ _ _) as [[tip record]|] eqn:Hobs;
      [|reflexivity].
    cbn [col_pinchStates handTips activeHandIds].
    rewrite (observations_ext _ _ _ _ _ (S index) (col_pinchStates acc))
      by (intros k Hk; apply lookup_insert_ne; lia).
    rewrite !fmap_cons. cbn [fst].
    rewrite (observation_handId _ _ _ _ _ _ _ _ _ Hobs), <- app_assoc.
    f_equal.
    + unfold storeObservations. cbn [foldl fst snd].
      now rewrite (observation_handId _ _ _ _ _ _ _ _ _ Hobs).
    + rewrite list_to_set_cons. set_solver.
Qed.

Lemma collect_observations (st : CanvasState) (hands : list Hand) (v : Video)
    (canvas : Canvas) (currentTime : Z) :
  let obs := observations st (Some v) canvas currentTime (pinchStates st) 0 hands in
  collectHandTips st hands (Some v) canvas currentTime
  = {| col_pinchStates := storeObservations (pinchStates st) obs;
       handTips := obs.*1;
       activeHandIds := list_to_set (handId <$> obs.*1) |}.
Proof.
  cbn zeta. unfold collectHandTips. rewrite forEachHand_observations.
  cbn [handTips activeHandIds col_pinchStates app]. f_equal. set_solver.
Qed.

(** Without a video element nothing is collected. *)
Lemma collect_no_video (st : CanvasState) (hands : list Hand) (canvas : Canvas)
    (currentTime : Z) :
  collectHandTips st hands None canvas currentTime
  = mkCollected (pinchStates st) [] ∅.
Proof. reflexivity. Qed.

(** The active hands are the hands of the collected tips. *)
Lemma active_tips (st : CanvasState) (hands : list Hand) (video : option Video)
    (canvas : Canvas) (currentTime : Z) (k : nat) :
  let col := collectHandTips st hands video canvas currentTime in
  k ∈ activeHandIds col <-> exists tip, tip ∈ handTips col /\ handId tip = k.
Proof.
  cbn zeta. destruct video as [v|].
  - rewrite collect_observations. cbn [activeHandIds handTips].
    rewrite elem_of_list_to_set, list_elem_of_fmap. split.
    + intros (tip & -> & Hin). eauto.
    + intros (tip & Hin & <-). eauto.
  - rewrite collect_no_video. cbn [activeHandIds handTips]. split.
    + intros H. set_solver.
    + intros (tip & Hin & _). now apply elem_of_nil in Hin.
Qed.

(** [draw] in terms of the observations of the tick. *)
Lemma draw_observations (canvas : Canvas) (hands : list Hand) (v : Video)
    (currentTime : Z) (st : CanvasState) :
  draw canvas hands (Some v) currentTime st
  = let obs := observations st (Some v) canvas currentTime (pinchStates st) 0 hands in
    let active : gset nat := list_to_set (handId <$> obs.*1) in
    let l := stepEndpoint active obs.*1 (leftAnchor canvas) (leftEndpoint st) in
    let r := stepEndpoint active obs.*1 (rightAnchor canvas) (rightEndpoint st) in
    {| leftEnd := position l;
       rightEnd := position r;
       leftGrabbed := grabbed l;
       rightGrabbed := grabbed r;
       leftHandId := controllingHandId l;
       rightHandId := controllingHandId r;
       pinchStates := cleanPinchStates active (storeObservations (pinchStates st) obs) |}.
Proof. unfold draw. rewrite collect_observations. reflexivity. Qed.

(** *** The closest tip *)

Lemma closestTip_snoc (tips : list HandTip) (t : HandTip) (p : Point) :
  closestTip (tips ++ [t]) p = closerTip p (closestTip tips p) t.
Proof. unfold closestTip. now rewrite foldl_app. Qed.

(** The search returns the first of the closest tips, with its distance;
    it returns nothing only when there is no tip. *)
Lemma closestTip_spec (p : Point) (tips : list HandTip) :
  match closestTip tips p with
  | None => tips = []
  | Some (c, d) => d = distance c p /\ isClosest tips p c
  end.
Proof.
  induction tips as [|t tips IH] using rev_ind; [reflexivity|].
  rewrite closestTip_snoc.
  destruct (closestTip tips p) as [[c d]|]; cbn [closerTip].
  - destruct IH as [-> (before & after & -> & Hb & Ha)].
    case_bool_decide as Hlt; (split; [reflexivity|]).
    + exists (before ++ c :: after), []. split; [reflexivity|]. split.
      * intros u [Hu | [-> | Hu]%elem_of_cons]%elem_of_app.
        -- specialize (Hb u Hu). lra.
        -- exact Hlt.
        -- specialize (Ha u Hu). lra.
      * intros u Hu. now apply elem_of_nil in Hu.
    + exists before, (after ++ [t]). split; [now rewrite <- app_assoc|].
      split; [exact Hb|].
      intros u [Hu | ->%list_elem_of_singleton]%elem_of_app; [auto | lra].
  - subst tips. split; [reflexivity|]. exists [], []. split; [reflexivity|].
    split; intros u Hu; now apply elem_of_nil in Hu.
Qed.

(** There is one closest tip at most. *)
Lemma isClosest_unique (tips : list HandTip) (p : Point) (c c' : HandTip) :
  isClosest tips p c -> isClosest tips p c' -> c = c'.
Proof.
  intros (b & a & -> & Hb & Ha) (b' & a' & Heq & Hb' & Ha').
  assert (Hc : (b ++ c :: a) !! length b = Some c) by apply list_lookup_middle, eq_refl.
  assert (Hc' : (b ++ c :: a) !! length b' = Some c')
    by (rewrite Heq; apply list_lookup_middle, eq_refl).
  destruct (Nat.lt_trichotomy (length b) (length b')) as [Hlt | [Heqlen | Hgt]].
  - assert (c ∈ b').
    { apply (list_elem_of_lookup_2 _ (length b)).
      rewrite <- (lookup_app_l b' (c' :: a')) by exact Hlt. now rewrite <- Heq. }
    assert (c' ∈ a).
    { rewrite lookup_app_r in Hc' by lia.
      destruct (length b' - length b)%nat as [|n] eqn:En; [lia|].
      cbn in Hc'. now apply list_elem_of_lookup_2 in Hc'. }
    specialize (Hb' c ltac:(assumption)). specialize (Ha c' ltac:(assumption)). lra.
  - rewrite Heqlen in Hc. congruence.
  - assert (c' ∈ b).
    { apply (list_elem_of_lookup_2 _ (length b')).
      rewrite <- (lookup_app_l b (c :: a)) by exact Hgt. exact Hc'. }
    assert (c ∈ a').
    { rewrite Heq, lookup_app_r in Hc by lia.
      destruct (length b - length b')%nat as [|n] eqn:En; [lia|].
      cbn in Hc. now apply list_elem_of_lookup_2 in Hc. }
    specialize (Hb c' ltac:(assumption)). specialize (Ha' c ltac:(assumption)). lra.
Qed.

Lemma isClosest_elem (tips : list HandTip) (p : Point) (c : HandTip) :
  isClosest tips p c -> c ∈ tips.
Proof.
  intros (b & a & -> & _). apply elem_of_app. right. apply elem_of_cons. now left.
Qed.

Lemma closestTip_closest (tips : list HandTip) (p : Point) (c : HandTip) :
  isClosest tips p c -> closestTip tips p = Some (c, distance c p).
Proof.
  intros Hc. pose proof (closestTip_spec p tips) as Hspec.
  destruct (closestTip tips p) as [[c0 d]|].
  - destruct Hspec as [-> Hc0]. now rewrite (isClosest_unique _ _ _ _ Hc0 Hc).
  - subst tips. apply isClosest_elem in Hc. now apply elem_of_nil in Hc.
Qed.

(** Among tips there is a closest one. *)
Lemma closest_exists (tips : list HandTip) (p : Point) :
  tips <> [] -> exists c, isClosest tips p c.
Proof.
  intros Hne. pose proof (closestTip_spec p tips) as Hspec.
  destruct (closestTip tips p) as [[c d]|]; [|contradiction].
  exists c. apply Hspec.
Qed.

Lemma isClosest_singleton (p : Point) (c : HandTip) : isClosest [c] p c.
Proof.
  exists [], []. split; [reflexivity|].
  split; intros u Hu; now apply elem_of_nil in Hu.
Qed.

(** The grab logic, read off the closest tip. *)
Lemma grabRelease_closest (tips : list HandTip) (e : Endpoint) (c : HandTip) :
  isClosest tips (position e) c ->
  grabRelease tips e
  = if bool_decide (distance c (position e) <= GRAB_RADIUS) && isPinched c then
      {| position := tipPoint c;
         grabbed := true;
         controllingHandId :=
           if grabbed e then controllingHandId e else Some (handId c) |}
    else if grabbed e then
      if negb (isPinched c)
         || bool_decide (GRAB_RADIUS + RELEASE_HYSTERESIS < distance c (position e))
      then {| position := position e; grabbed := false; controllingHandId := None |}
      else {| position := tipPoint c;
              grabbed := true;
              controllingHandId := controllingHandId e |}
    else e.
Proof.
  intros Hc. unfold grabRelease. rewrite (closestTip_closest _ _ _ Hc).
  destruct tips; [|reflexivity].
  apply isClosest_elem in Hc. now apply elem_of_nil in Hc.
Qed.

(** One endpoint through a tick, read off the closest tip. *)
Lemma stepEndpoint_closest (active : gset nat) (tips : list HandTip)
    (anchor : Point) (e : Endpoint) (c : HandTip) :
  isClosest tips (position e) c ->
  let e0 := checkPresence active e in
  stepEndpoint active tips anchor e
  = if bool_decide (distance c (position e) <= GRAB_RADIUS) && isPinched c then
      {| position := tipPoint c;
         grabbed := true;
         controllingHandId :=
           if grabbed e0 then controllingHandId e0 else Some (handId c) |}
    else if grabbed e0 then
      if negb (isPinched c)
         || bool_decide (GRAB_RADIUS + RELEASE_HYSTERESIS < distance c (position e))
      then {| position := lerp (position e) anchor EASING_FACTOR;
              grabbed := false;
              controllingHandId := None |}
      else {| position := tipPoint c;
              grabbed := true;
              controllingHandId := controllingHandId e0 |}
    else ease anchor e0.
Proof.
  intros Hc. cbn zeta. unfold stepEndpoint.
  rewrite <- (checkPresence_position active e) in Hc |- *.
  rewrite (grabRelease_closest _ _ _ Hc).
  destruct (_ && _); [reflexivity|].
  destruct (grabbed (checkPresence active e)); [|reflexivity].
  destruct (_ || _); reflexivity.
Qed.

Lemma stepEndpoint_no_tips (active : gset nat) (anchor : Point) (e : Endpoint) :
  stepEndpoint active [] anchor e = ease anchor (checkPresence active e).
Proof. reflexivity. Qed.

Lemma checkPresence_observed (active : gset nat) (e : Endpoint) (h : nat) :
  controllingHandId e = Some h -> h ∈ active -> checkPresence active e = e.
Proof.
  intros Hh Hin. unfold checkPresence. rewrite Hh.
  now rewrite bool_decide_true by exact Hin.
Qed.

Lemma checkPresence_unobserved (active : gset nat) (e : Endpoint) (h : nat) :
  controllingHandId e = Some h -> h ∉ active ->
  checkPresence active e
  = {| position := position e; grabbed := false; controllingHandId := None |}.
Proof.
  intros Hh Hin. unfold checkPresence. rewrite Hh.
  now rewrite bool_decide_false by exact Hin.
Qed.

(** What happens to an endpoint that the grab logic finds idle. *)
Lemma stepEndpoint_from_idle (active : gset nat) (tips : list HandTip)
    (anchor : Point) (e : Endpoint) :
  grabbed (checkPresence active e) = false ->
  let e' := stepEndpoint active tips anchor e in
  (grabbed e' = true <->
     exists c, isClosest tips (position e) c /\ isPinched c = true
               /\ distance c (position e) <= GRAB_RADIUS)
  /\ (grabbed e' = false -> controllingHandId e' = controllingHandId (checkPresence active e))
  /\ (forall c, isClosest tips (position e) c -> grabbed e' = true ->
        controllingHandId e' = Some (handId c) /\ position e' = tipPoint c).
Proof.
  intros Hidle. cbn zeta.
  destruct tips as [|t tips].
  - rewrite stepEndpoint_no_tips. unfold ease. rewrite Hidle. cbn.
    split; [|split].
    + split; [discriminate|]. intros (c & Hc%isClosest_elem & _).
      now apply elem_of_nil in Hc.
    + reflexivity.
    + discriminate.
  - destruct (closest_exists (t :: tips) (position e)) as [c0 Hc0]; [discriminate|].
    rewrite (stepEndpoint_closest _ _ _ _ _ Hc0). cbn zeta. rewrite Hidle.
    unfold ease. rewrite Hidle.
    destruct (bool_decide (distance c0 (position e) <= GRAB_RADIUS)) eqn:Hd;
      destruct (isPinched c0) eqn:Hp; cbn [andb grabbed controllingHandId position];
      (split; [|split]); try reflexivity; try discriminate.
    + split; [|reflexivity]. intros _. exists c0.
      apply bool_decide_eq_true in Hd. auto.
    + intros c Hc _. now rewrite (isClosest_unique _ _ _ _ Hc Hc0).
    + split; [discriminate|]. intros (c & Hc & Hpc & _).
      rewrite (isClosest_unique _ _ _ _ Hc Hc0) in Hpc. congruence.
    + split; [discriminate|]. intros (c & Hc & _ & Hdc).
      rewrite (isClosest_unique _ _ _ _ Hc Hc0) in Hdc.
      apply bool_decide_eq_false in Hd. contradiction.
    + split; [discriminate|]. intros (c & Hc & Hpc & _).
      rewrite (isClosest_unique _ _ _ _ Hc Hc0) in Hpc. congruence.
Qed.

End CanvasFacts.

Section EasingClaims.
Import StringCanvas Inputs.

Lemma idle_distance_le (side : Side) (canvas : Canvas) (frames : list Frame) :
  forall st, idleThroughout side canvas st frames ->
  distance (position (endpointOf side (run canvas st frames))) (anchorOf side canvas)
  <= distance (position (endpointOf side st)) (anchorOf side canvas).
Proof.
  intros st Hidle. rewrite (idle_distance _ _ _ _ Hidle).
  pose proof (distance_nonneg (position (endpointOf side st)) (anchorOf side canvas)).
  assert (Hpow : 0 <= (1 - EASING_FACTOR) ^ length frames <= 1).
  { split; [apply pow_le; unfold EASING_FACTOR; lra|].
    apply Rle_trans with (1 ^ length frames); [|rewrite pow1; lra].
    apply pow_incr. unfold EASING_FACTOR. lra. }
  nra.
Qed.

(** C9 (amended).  An endpoint that is idle when the easing step of a tick
    runs gets the position [position + (anchor - position) * EASING_FACTOR];
    as long as [anchor - position] does not overflow, its distance to the
    anchor does not increase and it stays between its old position and the
    anchor, coordinate by coordinate (no overshoot); over ticks that leave
    it idle the distance never exceeds the initial one.  A grabbed endpoint
    is not moved by the easing step.  (Nothing is said about reaching the
    anchor: on doubles the step rounds away a few ulps before it.) *)
Theorem C9_easing (side : Side) (canvas : Canvas) :
  let anchor := anchorOf side canvas in
  (forall (st : CanvasState) (f : Frame),
     let before := position (endpointOf side st) in
     let after := position (endpointOf side (drawFrame canvas st f)) in
     grabbed (endpointOf side (drawFrame canvas st f)) = false ->
     Binary64.finiteDifference before.(x) anchor.(x) ->
     Binary64.finiteDifference before.(y) anchor.(y) ->
     after = {| x := before.(x) + (anchor.(x) - before.(x)) * EASING_FACTOR;
                y := before.(y) + (anchor.(y) - before.(y)) * EASING_FACTOR |}
     /\ distance after anchor <= distance before anchor
     /\ Rmin before.(x) anchor.(x) <= after.(x) <= Rmax before.(x) anchor.(x)
     /\ Rmin before.(y) anchor.(y) <= after.(y) <= Rmax before.(y) anchor.(y))
  /\ (forall (e : Endpoint), grabbed e = true -> ease anchor e = e)
  /\ (forall (st : CanvasState) (frames : list Frame),
        let start := position (endpointOf side st) in
        idleThroughout side canvas st frames ->
        Binary64.finiteDifference start.(x) anchor.(x) ->
        Binary64.finiteDifference start.(y) anchor.(y) ->
        distance (position (endpointOf side (run canvas st frames))) anchor
        <= distance start anchor).
Proof.
  cbn zeta. split; [|split].
  - intros st f Hidle _ _. unfold drawFrame in *. rewrite draw_endpoint in *.
    cbn zeta in *. rewrite (stepEndpoint_idle _ _ _ _ Hidle).
    split; [reflexivity|].
    rewrite distance_lerp by (unfold EASING_FACTOR; lra).
    pose proof (distance_nonneg (position (endpointOf side st)) (anchorOf side canvas)).
    unfold lerp, EASING_FACTOR in *. cbn [x y].
    split; [lra|].
    unfold Rmin, Rmax. repeat destruct (Rle_dec _ _); lra.
  - intros e He. unfold ease. now rewrite He.
  - intros st frames Hidle _ _. now apply idle_distance_le.
Qed.

Lemma C9_witness :
  distance (position (endpointOf Left (run canvas800 displacedLeft [emptyFrame 0])))
    (anchorOf Left canvas800)
  <= distance (position (endpointOf Left displacedLeft)) (anchorOf Left canvas800).
Proof.
  apply (C9_easing Left canvas800).
  - cbn. split; [reflexivity | exact I].
  - apply finiteDifference_small. cbn. lra.
  - apply finiteDifference_small. cbn. lra.
Defined.

(** C9 fails as stated, on the doubles of the code.  On the 800 x 600
    canvas an idle left endpoint that starts at (100, 300), 100 units from
    its anchor (200, 300), is at (199.99999999999991, 300) after 212 ticks,
    and there the easing step returns its argument: the endpoint stays
    8.5e-14 from the anchor on every later tick and its distance does not
    converge to zero.  And where [anchor - position] overflows the step
    overshoots: from x = -1.7e308 towards x = 1e308 it lands on Infinity. *)
Lemma C9_counterexample_stalls :
  let anchor := Binary64.mkPoint 200 300 in
  let stalled := Binary64.easeTicks 212 anchor (Binary64.mkPoint 100 300) in
  stalled = Binary64.mkPoint 199.99999999999991 300
  /\ (Binary64.x stalled <? Binary64.x anchor)%float = true
  /\ Binary64.lerp stalled anchor Binary64.EASING_FACTOR = stalled
  /\ (forall n : nat, Binary64.easeTicks n anchor stalled = stalled)
  /\ Binary64.lerp (Binary64.mkPoint (-1.7e308) 300) (Binary64.mkPoint 1e308 300)
       Binary64.EASING_FACTOR
     = Binary64.mkPoint infinity 300.
Proof.
  cbn zeta.
  assert (E : Binary64.easeTicks 212 (Binary64.mkPoint 200 300) (Binary64.mkPoint 100 300)
              = Binary64.mkPoint 199.99999999999991 300) by (vm_compute; reflexivity).
  rewrite E.
  assert (Hfix : Binary64.lerp (Binary64.mkPoint 199.99999999999991 300)
                   (Binary64.mkPoint 200 300) Binary64.EASING_FACTOR
                 = Binary64.mkPoint 199.99999999999991 300) by (vm_compute; reflexivity).
  split; [reflexivity|]. split; [vm_compute; reflexivity|]. split; [exact Hfix|].
  split; [|vm_compute; reflexivity].
  intros n. induction n as [|n IH]; [reflexivity|].
  cbn [Binary64.easeTicks]. rewrite Hfix. exact IH.
Qed.

End EasingClaims.

Section PinchClaims.
Import StringCanvas Inputs.

(** C7.  For a hand observed in a tick, with [raw] its raw pinch signal of
    this tick: its record after the tick holds [raw]; if [raw] is false,
    the hand controls a grabbed endpoint and less than the debounce window
    (150 ms) has elapsed since the recorded release time, then its effective
    pinch is true; the release time is recorded (the current time, unless
    one is recorded already) on the frame the pinch goes from true to false,
    and it is cleared on every frame on which the raw pinch is true. *)
Theorem C7_pinch_debounce (canvas : Canvas) (st : CanvasState) (hands : list Hand)
    (v : Video) (currentTime : Z) (i : nat) (hand : Hand) :
  hands !! i = Some hand ->
  is_Some (indexTip hand) ->
  let prev := default (mkPinchState false None) (pinchStates st !! i) in
  let raw := getPinchState hand (Some v) canvas (state prev) in
  let col := collectHandTips st hands (Some v) canvas currentTime in
  let st' := draw canvas hands (Some v) currentTime st in
  exists (tip : HandTip) (record : PinchState),
    tip ∈ handTips col
    /\ handId tip = i
    /\ pinchStates st' !! i = Some record
    /\ state record = raw
    /\ (raw = false ->
        isControllingEndpoint st i = true ->
        forall t : Z,
          releaseTime record = Some t ->
          (currentTime - t < PINCH_DEBOUNCE_TIME)%Z ->
          isPinched tip = true)
    /\ (raw = false -> state prev = true ->
        releaseTime record = Some (default currentTime (releaseTime prev)))
    /\ (raw = true -> releaseTime record = None /\ isPinched tip = true).
Proof.
  intros Hhand [[vx vy] Htip]. cbn zeta.
  set (prev := default (mkPinchState false None) (pinchStates st !! i)).
  set (raw := getPinchState hand (Some v) canvas (state prev)).
  destruct (videoToCanvas vx vy (Some v) canvas) as [tx ty] eqn:Hxy.
  set (rt := updateReleaseTime raw (state prev) (releaseTime prev) currentTime).
  set (tip := mkHandTip (mkPoint tx ty) i
                (effectivePinch raw (isControllingEndpoint st i) rt currentTime)).
  assert (Hobs : observation st (Some v) canvas currentTime (pinchStates st !! i) i hand
                 = Some (tip, mkPinchState raw rt)).
  { unfold observation. rewrite Htip, Hxy. reflexivity. }
  destruct (forEachHand_observed st (Some v) canvas currentTime hands 0
              (mkCollected (pinchStates st) [] ∅) i hand tip (mkPinchState raw rt)
              Hhand Hobs) as (Hlook & Hin & Hact).
  cbn [Nat.add] in Hlook, Hact.
  exists tip, (mkPinchState raw rt). split; [exact Hin|]. split; [reflexivity|].
  split; [|split; [reflexivity|]].
  - unfold draw, cleanPinchStates. cbn [pinchStates].
    apply map_lookup_filter_Some. split; [exact Hlook | exact Hact].
  - cbn [releaseTime state isPinched tip]. split; [|split].
    + intros Hraw Hctl t Hrt Hwin. unfold effectivePinch.
      rewrite Hraw, Hctl, Hrt. cbn [negb andb].
      now rewrite bool_decide_true by exact Hwin.
    + intros Hraw Hprev. unfold rt, updateReleaseTime.
      rewrite Hraw, Hprev. cbn [negb andb].
      now destruct (releaseTime prev).
    + intros Hraw. unfold rt, updateReleaseTime, effectivePinch.
      rewrite Hraw. cbn [negb andb]. split; reflexivity.
Qed.

Lemma C7_witness :
  let hands := [handAt 200 300 100] in
  exists tip : HandTip,
    tip ∈ handTips (collectHandTips leftHeld hands (Some video800) canvas800 1000)
    /\ handId tip = 0%nat
    /\ isPinched tip = true
    /\ pinchStates (draw canvas800 hands (Some video800) 1000 leftHeld) !! 0%nat
       = Some (mkPinchState false (Some 1000%Z)).
Proof.
  cbn zeta.
  destruct (C7_pinch_debounce canvas800 leftHeld [handAt 200 300 100] video800
              1000 0 (handAt 200 300 100))
    as (tip & record & Hin & Hid & Hlook & Hstate & Hdebounce & Hrecord & _).
  { reflexivity. }
  { eexists. reflexivity. }
  assert (Hraw : getPinchState (handAt 200 300 100) (Some video800) canvas800
                   (state (default (mkPinchState false None)
                             (pinchStates leftHeld !! 0%nat))) = false).
  { canvas_eval. reflexivity. }
  specialize (Hrecord Hraw eq_refl). cbn in Hrecord.
  rewrite Hraw in Hstate.
  exists tip. split; [exact Hin|]. split; [exact Hid|]. split.
  - apply (Hdebounce Hraw eq_refl 1000%Z Hrecord). reflexivity.
  - rewrite Hlook. destruct record as [s r]. cbn in *. now subst.
Defined.

End PinchClaims.

Section GrabClaims.
Import StringCanvas Inputs.

(** C3 (amended).  In a tick that finds an endpoint idle, the endpoint
    becomes grabbed exactly when the hand tip closest to the endpoint among
    all observed hands (the first in iteration order among equally close
    ones) is effectively pinching and lies within GRAB_RADIUS (30 units) of
    the endpoint; controllingHandId is then set to that hand and the
    endpoint position snaps to that hand's tip.  In particular a single
    pinching hand 20 units from the endpoint grabs it. *)
Theorem C3_idle_to_grabbed (side : Side) (canvas : Canvas) (st : CanvasState)
    (f : Frame) :
  grabbed (endpointOf side st) = false ->
  let tips :=
    handTips (collectHandTips st (frameHands f) (frameVideo f) canvas (frameTime f)) in
  let e := endpointOf side st in
  let e' := endpointOf side (drawFrame canvas st f) in
  (grabbed e' = true <->
     exists c, isClosest tips (position e) c /\ isPinched c = true
               /\ distance c (position e) <= GRAB_RADIUS)
  /\ (forall c, isClosest tips (position e) c -> grabbed e' = true ->
        controllingHandId e' = Some (handId c) /\ position e' = tipPoint c)
  /\ (forall c, tips = [c] -> isPinched c = true -> distance c (position e) = 20 ->
        grabbed e' = true /\ controllingHandId e' = Some (handId c)
        /\ position e' = tipPoint c).
Proof.
  intros Hidle. cbn zeta. unfold drawFrame. rewrite draw_endpoint. cbn zeta.
  set (col := collectHandTips st (frameHands f) (frameVideo f) canvas (frameTime f)).
  destruct (stepEndpoint_from_idle (activeHandIds col) (handTips col)
              (anchorOf side canvas) (endpointOf side st)
              (checkPresence_idle _ _ Hidle)) as (Hiff & _ & Hset).
  split; [exact Hiff|]. split; [exact Hset|].
  intros c Htips Hp Hd.
  assert (Hc : isClosest (handTips col) (position (endpointOf side st)) c)
    by (rewrite Htips; apply isClosest_singleton).
  assert (Hg : grabbed (stepEndpoint (activeHandIds col) (handTips col)
                          (anchorOf side canvas) (endpointOf side st)) = true).
  { apply Hiff. exists c. unfold GRAB_RADIUS. repeat split; [exact Hc|exact Hp|lra]. }
  split; [exact Hg|]. now apply Hset.
Qed.

(** C2 (amended).  In a tick that finds an endpoint grabbed, with its
    controlling hand observed: the endpoint becomes idle (grabbed false,
    controllingHandId cleared) exactly when the hand tip closest to the
    endpoint, which need not be the controlling hand, is not effectively
    pinching or is farther than GRAB_RADIUS + RELEASE_HYSTERESIS (40 units)
    from the endpoint; otherwise it stays grabbed, keeps its
    controllingHandId and takes the position of that closest tip.  With the
    controlling hand not observed, the ownership is cleared before the grab
    logic runs, and the endpoint ends the tick idle unless the closest tip
    is pinching within GRAB_RADIUS and grabs it anew. *)
Theorem C2_grabbed_release (side : Side) (canvas : Canvas) (st : CanvasState)
    (f : Frame) (h : nat) :
  grabbed (endpointOf side st) = true ->
  controllingHandId (endpointOf side st) = Some h ->
  let col := collectHandTips st (frameHands f) (frameVideo f) canvas (frameTime f) in
  let tips := handTips col in
  let e := endpointOf side st in
  let e' := endpointOf side (drawFrame canvas st f) in
  (h ∈ activeHandIds col ->
     exists c, isClosest tips (position e) c
       /\ (grabbed e' = false <->
             isPinched c = false
             \/ GRAB_RADIUS + RELEASE_HYSTERESIS < distance c (position e))
       /\ (grabbed e' = false -> controllingHandId e' = None)
       /\ (grabbed e' = true ->
             controllingHandId e' = Some h /\ position e' = tipPoint c))
  /\ (h ∉ activeHandIds col ->
       (grabbed e' = true <->
          exists c, isClosest tips (position e) c /\ isPinched c = true
                    /\ distance c (position e) <= GRAB_RADIUS)
       /\ (grabbed e' = false -> controllingHandId e' = None)
       /\ (forall c, isClosest tips (position e) c -> grabbed e' = true ->
             controllingHandId e' = Some (handId c) /\ position e' = tipPoint c)).
Proof.
  intros Hg Hh. cbn zeta. unfold drawFrame. rewrite draw_endpoint. cbn zeta.
  set (col := collectHandTips st (frameHands f) (frameVideo f) canvas (frameTime f)).
  split.
  - intros Hobs.
    assert (Hne : handTips col <> []).
    { apply (active_tips st (frameHands f) (frameVideo f) canvas (frameTime f)) in Hobs.
      destruct Hobs as (tip & Hin & _). fold col in Hin.
      intros E. rewrite E in Hin. now apply elem_of_nil in Hin. }
    destruct (closest_exists _ (position (endpointOf side st)) Hne) as [c Hc].
    exists c. split; [exact Hc|].
    rewrite (stepEndpoint_closest _ _ _ _ _ Hc). cbn zeta.
    rewrite (checkPresence_observed _ _ _ Hh Hobs), Hg, Hh.
    unfold GRAB_RADIUS, RELEASE_HYSTERESIS.
    destruct (isPinched c); cbn [negb andb orb];
      repeat case_bool_decide; cbn [andb orb grabbed controllingHandId position];
      try lra; (split; [|split]); try discriminate; try tauto;
      try (split; [intros _; right; lra | reflexivity]);
      try (split; [discriminate | intros [? | ?]; [discriminate | lra]]);
      try (split; [intros _; now left | reflexivity]).
  - intros Hun.
    assert (Hclear : checkPresence (activeHandIds col) (endpointOf side st)
                     = {| position := position (endpointOf side st);
                          grabbed := false; controllingHandId := None |})
      by exact (checkPresence_unobserved _ _ _ Hh Hun).
    destruct (stepEndpoint_from_idle (activeHandIds col) (handTips col)
                (anchorOf side canvas) (endpointOf side st))
      as (Hiff & Hkeep & Hset); [now rewrite Hclear|].
    split; [exact Hiff|]. split; [|exact Hset].
    intros Hidle. rewrite (Hkeep Hidle), Hclear. reflexivity.
Qed.

(** C1 (amended).  Each endpoint is decided on its own, by the same rule
    and against the same hand tips, and nothing keeps one hand from
    controlling both: in a tick where one effectively pinching hand is the
    closest tip to both endpoints and within GRAB_RADIUS of each (each
    endpoint being idle or already controlled by that hand), both endpoints
    are grabbed, both controllingHandIds equal that hand's id and both
    endpoints sit on its tip after the tick. *)
Theorem C1_one_hand_both_endpoints (canvas : Canvas) (st : CanvasState) (f : Frame)
    (c : HandTip) :
  let tips :=
    handTips (collectHandTips st (frameHands f) (frameVideo f) canvas (frameTime f)) in
  (forall side,
     (grabbed (endpointOf side st) = false
      \/ controllingHandId (endpointOf side st) = Some (handId c))
     /\ isClosest tips (position (endpointOf side st)) c
     /\ distance c (position (endpointOf side st)) <= GRAB_RADIUS) ->
  isPinched c = true ->
  let st' := drawFrame canvas st f in
  leftGrabbed st' = true /\ rightGrabbed st' = true
  /\ leftHandId st' = Some (handId c) /\ rightHandId st' = Some (handId c)
  /\ leftEnd st' = tipPoint c /\ rightEnd st' = tipPoint c.
Proof.
  cbn zeta. intros Hsides Hp.
  assert (Hside : forall side,
            endpointOf side (drawFrame canvas st f)
            = {| position := tipPoint c; grabbed := true;
                 controllingHandId := Some (handId c) |}).
  { intros side. destruct (Hsides side) as (Hown & Hc & Hd).
    unfold drawFrame. rewrite draw_endpoint. cbn zeta.
    set (col := collectHandTips st (frameHands f) (frameVideo f) canvas (frameTime f))
      in *.
    rewrite (stepEndpoint_closest _ _ _ _ _ Hc). cbn zeta.
    rewrite (bool_decide_true _ Hd), Hp. cbn [andb]. f_equal.
    assert (Hact : handId c ∈ activeHandIds col).
    { apply (active_tips st (frameHands f) (frameVideo f) canvas (frameTime f)).
      exists c. split; [|reflexivity]. now apply isClosest_elem in Hc. }
    destruct (grabbed (checkPresence _ _)) eqn:Hg; [|reflexivity].
    destruct Hown as [Hidle | Hheld].
    - now rewrite (checkPresence_idle _ _ Hidle) in Hg.
    - now rewrite (checkPresence_observed _ _ _ Hheld Hact). }
  pose proof (Hside Left) as HL. pose proof (Hside Right) as HR.
  cbn [endpointOf] in HL, HR. unfold leftEndpoint, rightEndpoint in HL, HR.
  injection HL as HL1 HL2 HL3. injection HR as HR1 HR2 HR3.
  repeat split; assumption.
Qed.

End GrabClaims.

Section GrabExamples.
Import StringCanvas Inputs.

(** Equality of two canvas states, field by field. *)
Ltac state_eq :=
  f_equal; try reflexivity; try (f_equal; lra); try (vm_compute; reflexivity).

Ltac run_tick :=
  unfold drawFrame, pinchFrame, openNearPinchFar, holderFarOpenNear;
  cbn [frameHands frameVideo frameTime];
  rewrite draw_observations; canvas_eval.

(** The hand pinches at the left anchor and grabs the left endpoint. *)
Lemma tick_grab (t : Z) :
  drawFrame canvas800 (initialState canvas800) (pinchFrame 200 t) = dragging 200.
Proof. run_tick; state_eq. Qed.

(** The pinching hand moves up to 40 units to the right, short of the right
    endpoint's grab radius: the left endpoint follows it. *)
Lemma tick_drag (from to : R) (t : Z) :
  from <= to <= from + 40 -> 200 <= from -> to <= 560 ->
  drawFrame canvas800 (dragging from) (pinchFrame to t) = dragging to.
Proof. intros Hmove Hfrom Hto. run_tick; state_eq. Qed.

(** The pinching hand arrives 10 units from the right endpoint, 30 units
    from the left endpoint it holds: it grabs the right endpoint as well. *)
Lemma tick_both (t : Z) :
  drawFrame canvas800 (dragging 560) (pinchFrame 590 t) = bothHeld 590.
Proof. run_tick; state_eq. Qed.

Lemma run_carry : run canvas800 (initialState canvas800) carryFrames = bothHeld 590.
Proof.
  unfold carryFrames, run. cbn [foldl].
  rewrite tick_grab.
  rewrite !tick_drag by lra.
  apply tick_both.
Qed.

(** C1 fails as stated: on the 800 x 600 canvas, starting from the initial
    state, one pinching hand grabs the left endpoint, carries it to the
    right and, 10 units from the right endpoint, grabs that one too: after
    the eleventh tick both endpoints are grabbed and both controllingHandIds
    are hand 0. *)
Lemma C1_counterexample_same_hand_both_endpoints :
  let st := run canvas800 (initialState canvas800) carryFrames in
  leftGrabbed st = true /\ rightGrabbed st = true
  /\ leftHandId st = Some 0%nat /\ rightHandId st = Some 0%nat.
Proof. cbn zeta. rewrite run_carry. repeat split. Qed.

Lemma C1_witness :
  let st' := drawFrame canvas800 (dragging 560) (pinchFrame 590 160) in
  leftHandId st' = Some 0%nat /\ rightHandId st' = Some 0%nat.
Proof.
  cbn zeta.
  set (c := mkHandTip (mkPoint ((800 - (800 - 590)) * (800 / 800)) (300 * (600 / 600)))
              0 true).
  assert (Htips : handTips (collectHandTips (dragging 560)
                              (frameHands (pinchFrame 590 160))
                              (frameVideo (pinchFrame 590 160)) canvas800
                              (frameTime (pinchFrame 590 160))) = [c]).
  { unfold pinchFrame. cbn [frameHands frameVideo frameTime].
    rewrite collect_observations. canvas_eval. reflexivity. }
  destruct (C1_one_hand_both_endpoints canvas800 (dragging 560) (pinchFrame 590 160) c)
    as (_ & _ & HL & HR & _).
  - intros side. rewrite Htips. split; [|split].
    + destruct side; [right | left]; reflexivity.
    + apply isClosest_singleton.
    + destruct side; subst c; canvas_eval; lra.
  - reflexivity.
  - split; [exact HL | exact HR].
Defined.

(** C3 fails as stated: the left endpoint is idle at its anchor; hand 1 is
    effectively pinching 20 units from it, and no other pinching hand is
    within GRAB_RADIUS, so hand 1 is the closest such hand; but the open
    hand 0 is closer (5 units), the code looks at that one only, and the
    endpoint stays idle. *)
Lemma C3_counterexample_closer_open_hand :
  let st := initialState canvas800 in
  let tips :=
    handTips (collectHandTips st (frameHands openNearPinchFar)
                (frameVideo openNearPinchFar) canvas800 (frameTime openNearPinchFar)) in
  let st' := drawFrame canvas800 st openNearPinchFar in
  leftGrabbed st = false
  /\ (exists c : HandTip,
        c ∈ tips /\ handId c = 1%nat /\ isPinched c = true
        /\ distance c (leftEnd st) <= GRAB_RADIUS
        /\ (forall c' : HandTip,
              c' ∈ tips -> isPinched c' = true ->
              distance c' (leftEnd st) <= GRAB_RADIUS ->
              distance c (leftEnd st) <= distance c' (leftEnd st)))
  /\ leftGrabbed st' = false /\ leftHandId st' = None.
Proof.
  cbn zeta. split; [reflexivity|]. split.
  - unfold openNearPinchFar. cbn [frameHands frameVideo frameTime].
    rewrite collect_observations. canvas_eval.
    eexists. split; [apply elem_of_cons; right; apply elem_of_cons; left; reflexivity|].
    split; [reflexivity|]. split; [reflexivity|]. split.
    + canvas_eval. lra.
    + intros c' [-> | [-> | Hin%elem_of_nil]%elem_of_cons]%elem_of_cons Hp Hd;
        [discriminate | lra | contradiction].
  - run_tick. split; reflexivity.
Qed.

Lemma C3_witness :
  let st' := drawFrame canvas800 (initialState canvas800) (pinchFrame 220 0) in
  leftGrabbed st' = true /\ leftHandId st' = Some 0%nat
  /\ leftEnd st' = mkPoint ((800 - (800 - 220)) * (800 / 800)) (300 * (600 / 600)).
Proof.
  cbn zeta.
  set (c := mkHandTip (mkPoint ((800 - (800 - 220)) * (800 / 800)) (300 * (600 / 600)))
              0 true).
  assert (Htips : handTips (collectHandTips (initialState canvas800)
                              (frameHands (pinchFrame 220 0))
                              (frameVideo (pinchFrame 220 0)) canvas800
                              (frameTime (pinchFrame 220 0))) = [c]).
  { unfold pinchFrame. cbn [frameHands frameVideo frameTime].
    rewrite collect_observations. canvas_eval. reflexivity. }
  destruct (C3_idle_to_grabbed Left canvas800 (initialState canvas800)
              (pinchFrame 220 0) eq_refl) as (_ & _ & Hscenario).
  apply (Hscenario c Htips eq_refl).
  subst c. canvas_eval. lra.
Defined.

(** C2 fails as stated: the left endpoint is grabbed by hand 0, which is
    observed, effectively pinching and 35 units from the endpoint, within
    GRAB_RADIUS + RELEASE_HYSTERESIS, so none of the three release
    conditions holds; but the open hand 1 is closer to the endpoint, the
    code looks at that one only, and the endpoint is released. *)
Lemma C2_counterexample_closer_open_hand :
  let st := leftHeld in
  let tips :=
    handTips (collectHandTips st (frameHands holderFarOpenNear)
                (frameVideo holderFarOpenNear) canvas800 (frameTime holderFarOpenNear)) in
  let st' := drawFrame canvas800 st holderFarOpenNear in
  leftGrabbed st = true /\ leftHandId st = Some 0%nat
  /\ (exists c : HandTip,
        c ∈ tips /\ handId c = 0%nat /\ isPinched c = true
        /\ distance c (leftEnd st) <= GRAB_RADIUS + RELEASE_HYSTERESIS)
  /\ leftGrabbed st' = false /\ leftHandId st' = None.
Proof.
  cbn zeta. split; [reflexivity|]. split; [reflexivity|]. split.
  - unfold holderFarOpenNear. cbn [frameHands frameVideo frameTime].
    rewrite collect_observations. canvas_eval.
    eexists. split; [apply elem_of_cons; left; reflexivity|].
    split; [reflexivity|]. split; [reflexivity|]. canvas_eval. lra.
  - run_tick. split; reflexivity.
Qed.

Lemma C2_witness :
  let st' := drawFrame canvas800 (dragging 200) (pinchFrame 250 16) in
  leftGrabbed st' = false /\ leftHandId st' = None.
Proof.
  cbn zeta.
  set (c := mkHandTip (mkPoint ((800 - (800 - 250)) * (800 / 800)) (300 * (600 / 600)))
              0 true).
  assert (Hcol : collectHandTips (dragging 200) (frameHands (pinchFrame 250 16))
                   (frameVideo (pinchFrame 250 16)) canvas800
                   (frameTime (pinchFrame 250 16))
                 = mkCollected {[ 0%nat := mkPinchState true None ]} [c] {[ 0%nat ]}).
  { unfold pinchFrame. cbn [frameHands frameVideo frameTime].
    rewrite collect_observations. canvas_eval.
    f_equal; vm_compute; reflexivity. }
  destruct (C2_grabbed_release Left canvas800 (dragging 200) (pinchFrame 250 16) 0
              eq_refl eq_refl) as [Hobserved _].
  rewrite Hcol in Hobserved. cbn [handTips activeHandIds] in Hobserved.
  destruct Hobserved as (c' & Hc' & Hiff & Hclear & _); [set_solver|].
  rewrite (isClosest_unique _ _ _ _ Hc' (isClosest_singleton _ c)) in Hiff.
  assert (Hidle : grabbed (endpointOf Left
                             (drawFrame canvas800 (dragging 200) (pinchFrame 250 16)))
                  = false).
  { apply Hiff. right. subst c. canvas_eval. lra. }
  split; [exact Hidle | exact (Hclear Hidle)].
Defined.

End GrabExamples.

(* ===================================================================== *)
(** * Further properties of the code *)
(* ===================================================================== *)

(** ** Control signals ([lib/utils.ts]) *)

Section ControlSignalFacts.
Import JS Utils.

Lemma hypot_zero (a b : R) : hypot a b = 0 <-> a = 0 /\ b = 0.
Proof.
  unfold hypot. split.
  - intros H. apply sqrt_eq_0 in H; [|nra]. split; nra.
  - intros [-> ->]. rewrite Rmult_0_l, Rplus_0_l. apply sqrt_0.
Qed.

Lemma distance_zero (a b : Point) : distance a b = 0 <-> a = b.
Proof.
  unfold distance. rewrite hypot_zero. destruct a as [ax ay], b as [bx b_y].
  cbn [x y]. split.
  - intros [H1 H2]. f_equal; lra.
  - intros [= -> ->]. lra.
Qed.

Lemma distance_pos (a b : Point) : 0 <= distance a b.
Proof. apply sqrt_pos. Qed.

(** X1.  Tension for a positive [maxStretch]: the elongation beyond the rest
    length over [maxStretch], cut to the unit interval. *)
Theorem computeTension_piecewise
    (leftEnd rightEnd leftAnchor rightAnchor : Point) (maxStretch : R) :
  0 < maxStretch ->
  let rest := distance leftAnchor rightAnchor in
  let current := distance leftEnd rightEnd in
  exists t,
    computeTension leftEnd rightEnd leftAnchor rightAnchor (Fin maxStretch) = Fin t
    /\ 0 <= t <= 1
    /\ (current <= rest -> t = 0)
    /\ (rest <= current <= rest + maxStretch -> t = (current - rest) / maxStretch)
    /\ (rest + maxStretch <= current -> t = 1).
Proof.
  intros Hm. cbn zeta. unfold computeTension.
  set (rest := distance leftAnchor rightAnchor).
  set (current := distance leftEnd rightEnd).
  rewrite max_Fin. cbn [div]. rewrite bool_decide_false by lra.
  rewrite min_Fin. eexists; split; [reflexivity|].
  assert (Hq : forall s, s / maxStretch * maxStretch = s) by (intros; field; lra).
  pose proof (Hq (Rmax 0 (current - rest))) as Hs.
  pose proof (Hq (current - rest)) as Hs'.
  unfold Rmin, Rmax in *.
  repeat destruct (Rle_dec _ _); repeat split; intros; try nra.
Qed.

Lemma computeTension_piecewise_witness :
  computeTension (mkPoint 150 300) (mkPoint 600 300) (mkPoint 200 300) (mkPoint 600 300)
    defaultMaxStretch = Fin (50 / 100).
Proof.
  destruct (computeTension_piecewise (mkPoint 150 300) (mkPoint 600 300)
              (mkPoint 200 300) (mkPoint 600 300) 100) as (t & Ht & _ & _ & Hmid & _);
    [lra|].
  unfold defaultMaxStretch. rewrite Ht. f_equal.
  assert (E1 : distance (mkPoint 150 300) (mkPoint 600 300) = 450).
  { unfold distance. cbn [x y]. rewrite hypot_axis by lra. rewrite Rabs_left; lra. }
  assert (E2 : distance (mkPoint 200 300) (mkPoint 600 300) = 400).
  { unfold distance. cbn [x y]. rewrite hypot_axis by lra. rewrite Rabs_left; lra. }
  rewrite Hmid; rewrite E1, E2; lra.
Defined.

(** X2.  Tension for a degenerate [maxStretch]: with [maxStretch = 0] a string
    no longer than at rest has tension NaN and a longer one tension 1; with
    a negative [maxStretch] the tension is never positive. *)
Theorem computeTension_degenerate_maxStretch
    (leftEnd rightEnd leftAnchor rightAnchor : Point) :
  let rest := distance leftAnchor rightAnchor in
  let current := distance leftEnd rightEnd in
  (current <= rest ->
   computeTension leftEnd rightEnd leftAnchor rightAnchor (Fin 0) = NaN)
  /\ (rest < current ->
      computeTension leftEnd rightEnd leftAnchor rightAnchor (Fin 0) = Fin 1)
  /\ (forall m, m < 0 ->
      exists t, computeTension leftEnd rightEnd leftAnchor rightAnchor (Fin m) = Fin t
                /\ t <= 0).
Proof.
  cbn zeta. unfold computeTension.
  set (rest := distance leftAnchor rightAnchor).
  set (current := distance leftEnd rightEnd).
  rewrite max_Fin. cbn [div]. split; [|split].
  - intros Hle. rewrite bool_decide_true by reflexivity.
    rewrite Rmax_left by lra. unfold inf_of_sign.
    rewrite !bool_decide_false by lra. reflexivity.
  - intros Hlt. rewrite bool_decide_true by reflexivity.
    rewrite Rmax_right by lra. unfold inf_of_sign.
    rewrite bool_decide_true by lra. reflexivity.
  - intros m Hm. rewrite bool_decide_false by lra. rewrite min_Fin.
    eexists; split; [reflexivity|].
    assert (Hs : 0 <= Rmax 0 (current - rest)) by apply Rmax_l.
    assert (Hq : Rmax 0 (current - rest) / m * m = Rmax 0 (current - rest))
      by (field; lra).
    assert (Rmax 0 (current - rest) / m <= 0) by nra.
    rewrite Rmin_right; lra.
Qed.

Lemma computeTension_degenerate_witness :
  computeTension (mkPoint 200 300) (mkPoint 600 300) (mkPoint 200 300) (mkPoint 600 300)
    (Fin 0) = NaN.
Proof.
  apply (computeTension_degenerate_maxStretch (mkPoint 200 300) (mkPoint 600 300)
           (mkPoint 200 300) (mkPoint 600 300)).
  lra.
Defined.

(** X3.  The stretch of one side for a positive [maxStretch]: in the unit
    interval, 0 exactly at the anchor, 1 exactly from [maxStretch] units on;
    the left and the right function are the same function. *)
Theorem computeStretch_unit (endpoint anchor : Point) (maxStretch : R) :
  0 < maxStretch ->
  computeRightStretch endpoint anchor (Fin maxStretch)
  = computeLeftStretch endpoint anchor (Fin maxStretch)
  /\ exists s,
       computeLeftStretch endpoint anchor (Fin maxStretch) = Fin s
       /\ 0 <= s <= 1
       /\ (s = 0 <-> endpoint = anchor)
       /\ (s = 1 <-> maxStretch <= distance endpoint anchor).
Proof.
  intros Hm. split; [reflexivity|]. unfold computeLeftStretch.
  cbn [div]. rewrite bool_decide_false by lra. rewrite min_Fin.
  eexists; split; [reflexivity|].
  pose proof (distance_pos endpoint anchor) as Hd.
  pose proof (distance_zero endpoint anchor) as Hz.
  assert (Hq : distance endpoint anchor / maxStretch * maxStretch
               = distance endpoint anchor) by (field; lra).
  set (d := distance endpoint anchor) in *.
  assert (Hpos : d / maxStretch = 0 <-> d = 0) by (split; intros; nra).
  assert (Hone : d / maxStretch <= 1 <-> d <= maxStretch) by (split; intros; nra).
  unfold Rmin. destruct (Rle_dec _ _) as [Hle | Hgt].
  - split; [lra|]. split; [split; intros H; [lra | apply Hz in H; nra]|].
    split; [intros; nra | intros; lra].
  - split; [nra|]. split; [split; intros H; [apply Hz; nra | apply Hz in H; nra]|].
    split; [intros; nra | intros; nra].
Qed.

Lemma computeStretch_unit_witness :
  exists s, computeLeftStretch (mkPoint 200 300) (mkPoint 200 300) defaultMaxStretch = Fin s
            /\ s = 0.
Proof.
  destruct (computeStretch_unit (mkPoint 200 300) (mkPoint 200 300) 100)
    as (_ & s & Hs & _ & Hzero & _); [lra|].
  exists s. split; [exact Hs|]. now apply Hzero.
Defined.

(** The sine of [atan2 dy dx] is the vertical share [dy / hypot dx dy] of
    the direction, and 0 for the null vector (exact sine and arc tangent). *)
Lemma sin_atan2 (dy dx : R) :
  (dx = 0 /\ dy = 0 -> sin (atan2 dy dx) = 0)
  /\ (~ (dx = 0 /\ dy = 0) -> sin (atan2 dy dx) = dy / hypot dx dy).
Proof.
  assert (Hs : forall z, 0 < sqrt (1 + z²)).
  { intros z. apply sqrt_lt_R0. unfold Rsqr. nra. }
  assert (Hh : forall k, 0 < k -> dx * dx = k * k ->
                 hypot dx dy = k * sqrt (1 + (dy / dx)²)).
  { intros k Hk Hkk. unfold hypot.
    assert (Hdx : dx <> 0) by nra.
    replace (dx * dx + dy * dy) with ((k * k) * (1 + (dy / dx)²))
      by (unfold Rsqr; rewrite <- Hkk; field; exact Hdx).
    rewrite sqrt_mult; [|nra|unfold Rsqr; nra].
    rewrite sqrt_square by lra. reflexivity. }
  unfold atan2. split.
  - intros [-> ->]. rewrite !bool_decide_false by lra. apply sin_0.
  - intros Hnz. case_bool_decide as Hpos.
    + rewrite sin_atan, (Hh dx) by (try reflexivity; lra).
      specialize (Hs (dy / dx)). field. lra.
    + case_bool_decide as Hneg.
      * assert (Hsin : forall a, sin (a - PI) = - sin a).
        { intros a. rewrite sin_minus, cos_PI, sin_PI. ring. }
        rewrite (Hh (- dx)) by (try ring; lra).
        specialize (Hs (dy / dx)).
        case_bool_decide; rewrite ?neg_sin, ?Hsin, sin_atan; field; lra.
      * assert (dx = 0) by lra. subst dx.
        assert (Hy : hypot 0 dy = Rabs dy).
        { unfold hypot. rewrite Rmult_0_l, Rplus_0_l. apply sqrt_Rsqr_abs. }
        rewrite Hy. case_bool_decide.
        -- rewrite sin_PI2, Rabs_right by lra. field. lra.
        -- rewrite bool_decide_true by lra.
           rewrite sin_neg, sin_PI2, Rabs_left by lra. field. lra.
Qed.

(** X4.  The string angle lies in [[-1, 1]] and has the sign of the tilt:
    it is not negative when the right end is lower on the canvas than the
    left end ([leftEnd.y < rightEnd.y]), not positive when it is higher, and
    0 for a level string whose right end is to the right of its left end. *)
Theorem computeStringAngle_sign (leftEnd rightEnd : Point) :
  exists a,
    computeStringAngle leftEnd rightEnd = Fin a
    /\ -1 <= a <= 1
    /\ (leftEnd.(y) < rightEnd.(y) -> 0 <= a)
    /\ (rightEnd.(y) < leftEnd.(y) -> a <= 0)
    /\ (rightEnd.(y) = leftEnd.(y) -> leftEnd.(x) < rightEnd.(x) -> a = 0).
Proof.
  unfold computeStringAngle.
  set (dx := rightEnd.(x) - leftEnd.(x)). set (dy := rightEnd.(y) - leftEnd.(y)).
  destruct (clamp_Fin (-1) 1 (sin (atan2 dy dx))) as (c & -> & Hc & Hid); [lra|].
  rewrite (Hid (SIN_bound _)). eexists; split; [reflexivity|].
  split; [apply SIN_bound|].
  destruct (sin_atan2 dy dx) as [Hzero Hdir].
  assert (Hh : 0 <= hypot dx dy) by apply sqrt_pos.
  assert (Hnz : ~ (dx = 0 /\ dy = 0) -> 0 < hypot dx dy).
  { intros Hn. destruct (Req_dec_T (hypot dx dy) 0) as [E | E]; [|lra].
    apply hypot_zero in E. contradiction. }
  split; [|split].
  - intros Hy. assert (0 < dy) by (unfold dy; lra).
    rewrite Hdir by lra. apply Rlt_le, Rdiv_lt_0_compat; [lra|]. apply Hnz. lra.
  - intros Hy. assert (dy < 0) by (unfold dy; lra).
    rewrite Hdir by lra. specialize (Hnz ltac:(lra)).
    assert (Hq : dy / hypot dx dy * hypot dx dy = dy) by (field; lra). nra.
  - intros Hy Hx. assert (dy = 0) by (unfold dy; lra).
    assert (E : dx <> 0) by (unfold dx; lra).
    rewrite Hdir by (intros [? _]; contradiction). rewrite H. unfold Rdiv. ring.
Qed.

Lemma computeStringAngle_sign_witness :
  exists a,
    computeStringAngle (mkPoint 200 300) (mkPoint 600 340) = Fin a
    /\ -1 <= a <= 1
    /\ (300 < 340 -> 0 <= a)
    /\ (340 < 300 -> a <= 0)
    /\ (340 = 300 -> 200 < 600 -> a = 0).
Proof.
  apply (computeStringAngle_sign (mkPoint 200 300) (mkPoint 600 340)).
Defined.

End ControlSignalFacts.

(** ** The mapped parameters ([lib/audioConfig.ts]) *)

Section MappedParamFacts.
Import JS Utils AudioConfig MappedParams MappedBounds Inputs.

Lemma clamp01_cases (t : R) :
  let b := Rmax 0 (Rmin 1 t) in
  0 <= b <= 1 /\ (t <= 0 -> b = 0) /\ (1 <= t -> b = 1) /\ (0 <= t <= 1 -> b = t).
Proof. cbn zeta. unfold Rmax, Rmin. repeat destruct (Rle_dec _ _); lra. Qed.

Lemma Rpower_one_base (e : R) : Rpower 1 e = 1.
Proof. unfold Rpower. now rewrite ln_1, Rmult_0_r, exp_0. Qed.

(** The curve on a finite tension with a positive exponent. *)
Lemma applyCurve_positive (t e : R) :
  0 < e ->
  exists c, applyCurve (Fin t) (Fin e) = Fin c
    /\ 0 <= c <= 1
    /\ (t <= 0 -> c = 0)
    /\ (1 <= t -> c = 1)
    /\ (0 < t < 1 -> c = Rpower t e).
Proof.
  intros He. unfold applyCurve. rewrite min_Fin, max_Fin.
  destruct (clamp01_cases t) as (Hb & Hb0 & Hb1 & Hbt).
  set (b := Rmax 0 (Rmin 1 t)) in *.
  cbn [strict_eq pow]. case_bool_decide as He1.
  - subst e. exists b. split; [reflexivity|]. split; [exact Hb|].
    split; [exact Hb0|]. split; [exact Hb1|].
    intros Ht. rewrite Rpower_1 by lra. apply Hbt. lra.
  - rewrite (bool_decide_false (e = 0)) by lra.
    case_bool_decide as Hz.
    + rewrite bool_decide_true by lra. exists 0. split; [reflexivity|].
      split; [lra|]. split; [reflexivity|]. split.
      * intros Ht. specialize (Hb1 Ht). lra.
      * intros Ht. rewrite Hbt in Hz by lra. lra.
    + rewrite bool_decide_true by lra. exists (Rpower b e).
      split; [reflexivity|]. pose proof (Rpower_unit b e ltac:(lra) He).
      split; [lra|]. split; [intros Ht; specialize (Hb0 Ht); lra|].
      split.
      * intros Ht. rewrite (Hb1 Ht). apply Rpower_one_base.
      * intros Ht. now rewrite Hbt by lra.
Qed.

(** The curve does not decrease when the tension grows. *)
Lemma applyCurve_monotone (t1 t2 e c1 c2 : R) :
  0 < e -> t1 <= t2 ->
  applyCurve (Fin t1) (Fin e) = Fin c1 -> applyCurve (Fin t2) (Fin e) = Fin c2 ->
  c1 <= c2.
Proof.
  intros He Hle H1 H2.
  destruct (applyCurve_positive t1 e He) as (c1' & E1 & B1 & Z1 & O1 & P1).
  destruct (applyCurve_positive t2 e He) as (c2' & E2 & B2 & Z2 & O2 & P2).
  rewrite E1 in H1. rewrite E2 in H2. injection H1 as <-. injection H2 as <-.
  destruct (Rle_dec t1 0) as [H10 | H10]; [rewrite (Z1 H10); lra|].
  destruct (Rle_dec 1 t2) as [H21 | H21]; [rewrite (O2 H21); lra|].
  rewrite P1, P2 by lra. apply Rle_Rpower_l; lra.
Qed.

Lemma clamp01_const (t c : R) :
  Rmax 0 (Rmin 1 t) = c -> JS.max (Fin 0) (JS.min (Fin 1) (Fin t)) = Fin c.
Proof. intros <-. now rewrite min_Fin, max_Fin. Qed.

Lemma applyCurve_NInf (curve : num) : applyCurve NInf curve = applyCurve (Fin 0) curve.
Proof.
  unfold applyCurve. rewrite (clamp01_const 0 0); [reflexivity|].
  unfold Rmax, Rmin. repeat destruct (Rle_dec _ _); lra.
Qed.

Lemma applyCurve_PInf (curve : num) : applyCurve PInf curve = applyCurve (Fin 1) curve.
Proof.
  unfold applyCurve. rewrite (clamp01_const 1 1).
  - change (JS.min (Fin 1) PInf) with (Fin 1). rewrite max_Fin.
    now rewrite Rmax_right by lra.
  - unfold Rmax, Rmin. repeat destruct (Rle_dec _ _); lra.
Qed.

Lemma outputOf_updateAudio (p : TensionParam) (controls : StringControls)
    (midpointX canvasWidth : num) (config : Config) :
  outputOf p (updateAudio controls midpointX canvasWidth config)
  = settle p (mapRange (rangeOf p (mappings config))
                (applyCurve (tension controls) (curveOf p (curves config)))).
Proof. destruct p; reflexivity. Qed.

Lemma mapRange_Fin (lo hi c : R) :
  mapRange (mkRange (Fin lo) (Fin hi)) (Fin c) = Fin (lo + c * (hi - lo)).
Proof. unfold mapRange. cbn. f_equal. Qed.

Lemma settle_monotone (p : TensionParam) (v w : R) :
  v <= w -> le (settle p (Fin v)) (settle p (Fin w)) = true.
Proof.
  intros Hle. destruct p; cbn [settle]; rewrite ?min_Fin, ?max_Fin; apply le_Fin;
    try exact Hle.
  unfold Rmax, Rmin. repeat destruct (Rle_dec _ _); lra.
Qed.

(** The curve on two ordered tensions, the infinities included. *)
Lemma applyCurve_le (t1 t2 : num) (e : R) :
  0 < e -> le t1 t2 = true ->
  exists c1 c2,
    applyCurve t1 (Fin e) = Fin c1 /\ applyCurve t2 (Fin e) = Fin c2
    /\ 0 <= c1 <= c2 /\ c2 <= 1.
Proof.
  intros He Hle.
  assert (Hfin : forall t, exists c, applyCurve (Fin t) (Fin e) = Fin c /\ 0 <= c <= 1
                                     /\ (t <= 0 -> c = 0) /\ (1 <= t -> c = 1)).
  { intros t. destruct (applyCurve_positive t e He) as (c & E & B & Z & O & _). eauto 6. }
  destruct t1 as [| | |a], t2 as [| | |b]; try discriminate;
    rewrite ?applyCurve_NInf, ?applyCurve_PInf.
  - destruct (Hfin 1) as (c & E & B & _ & O). exists c, c. rewrite E. repeat split; lra.
  - destruct (Hfin 0) as (c1 & E1 & B1 & Z1 & _).
    destruct (Hfin 1) as (c2 & E2 & B2 & _ & O2).
    exists c1, c2. rewrite E1, E2, (Z1 ltac:(lra)), (O2 ltac:(lra)). repeat split; lra.
  - destruct (Hfin 0) as (c & E & B & _). exists c, c. rewrite E. repeat split; lra.
  - destruct (Hfin 0) as (c1 & E1 & B1 & Z1 & _).
    destruct (Hfin b) as (c2 & E2 & B2 & _).
    exists c1, c2. rewrite E1, E2, (Z1 ltac:(lra)). repeat split; lra.
  - destruct (Hfin a) as (c1 & E1 & B1 & _).
    destruct (Hfin 1) as (c2 & E2 & B2 & _ & O2).
    exists c1, c2. rewrite E1, E2, (O2 ltac:(lra)). repeat split; lra.
  - apply le_Fin in Hle.
    destruct (Hfin a) as (c1 & E1 & B1 & _). destruct (Hfin b) as (c2 & E2 & B2 & _).
    exists c1, c2. rewrite E1, E2.
    pose proof (applyCurve_monotone a b e c1 c2 He Hle E1 E2). repeat split; lra.
Qed.

(** The curve with a positive exponent gives NaN or a value of the unit
    interval. *)
Lemma applyCurve_cases (t : num) (e : R) :
  0 < e ->
  applyCurve t (Fin e) = NaN
  \/ exists c, applyCurve t (Fin e) = Fin c /\ 0 <= c <= 1.
Proof.
  intros He. destruct t as [| | |a].
  - left. unfold applyCurve. cbn [JS.min JS.max strict_eq pow].
    case_bool_decide; [reflexivity|]. cbn. now rewrite bool_decide_false by lra.
  - right. rewrite applyCurve_PInf.
    destruct (applyCurve_positive 1 e He) as (c & E & B & _). eauto.
  - right. rewrite applyCurve_NInf.
    destruct (applyCurve_positive 0 e He) as (c & E & B & _). eauto.
  - right. destruct (applyCurve_positive a e He) as (c & E & B & _). eauto.
Qed.

(** X5.  At and beyond the ends of the tension scale the mapped parameters
    saturate: for a positive exponent and a range whose [max - min] does not
    overflow, a tension of at most 0 (minus infinity included) gives the
    configured minimum, and a tension of at least 1 (plus infinity
    included) gives what tension 1 gives, [min + 1 * (max - min)]; the
    filter cutoff is that clamped to 20..20000. *)
Theorem mapped_saturates (p : TensionParam) (controls : StringControls)
    (midpointX canvasWidth : num) (config : Config) :
  positiveExponent (curveOf p (curves config)) ->
  Binary64.spanFinite (rangeOf p (mappings config)) ->
  let u := updateAudio controls midpointX canvasWidth config in
  let r := rangeOf p (mappings config) in
  (le (tension controls) (Fin 0) = true -> outputOf p u = settle p (min r))
  /\ (le (Fin 1) (tension controls) = true -> outputOf p u = settle p (fullTension r)).
Proof.
  intros (e & He & Hpos) (lo & hi & Hr & _). cbn zeta.
  rewrite outputOf_updateAudio, He, Hr. cbn [min max]. split; intros Ht.
  - assert (Hc : applyCurve (tension controls) (Fin e) = Fin 0).
    { destruct (tension controls) as [| | |t]; try discriminate.
      - rewrite applyCurve_NInf.
        destruct (applyCurve_positive 0 e Hpos) as (c & -> & _ & Hz & _).
        now rewrite Hz by lra.
      - apply le_Fin in Ht.
        destruct (applyCurve_positive t e Hpos) as (c & -> & _ & Hz & _).
        now rewrite Hz by lra. }
    rewrite Hc, mapRange_Fin. f_equal. f_equal. lra.
  - assert (Hc : applyCurve (tension controls) (Fin e) = Fin 1).
    { destruct (tension controls) as [| | |t]; try discriminate.
      - rewrite applyCurve_PInf.
        destruct (applyCurve_positive 1 e Hpos) as (c & -> & _ & _ & Ho & _).
        now rewrite Ho by lra.
      - apply le_Fin in Ht.
        destruct (applyCurve_positive t e Hpos) as (c & -> & _ & _ & Ho & _).
        now rewrite Ho by lra. }
    rewrite Hc. reflexivity.
Qed.

Lemma mapped_saturates_witness :
  synth_volume (updateAudio (controlsWithTension (Fin 3)) (Fin 400) (Fin 800) audioConfig)
  = fullTension (mkRange (Fin (-30)) (Fin 0))
  /\ filter_frequency
       (updateAudio (controlsWithTension (Fin 0)) (Fin 400) (Fin 800) audioConfig)
     = JS.max (Fin 20) (JS.min (Fin 20000) (Fin 200)).
Proof.
  split.
  - apply (mapped_saturates Volume (controlsWithTension (Fin 3)) (Fin 400) (Fin 800)
             audioConfig).
    + exists (8 / 10). split; [reflexivity | lra].
    + apply spanFinite_small. lra.
    + apply le_Fin. lra.
  - apply (mapped_saturates FilterCutoff (controlsWithTension (Fin 0)) (Fin 400)
             (Fin 800) audioConfig).
    + exists 2. split; [reflexivity | lra].
    + apply spanFinite_small. lra.
    + apply le_Fin. lra.
Defined.

(** X6.  With a positive exponent and a range with [min <= max] whose
    [max - min] does not overflow, no mapped parameter decreases when the
    curved tension grows: if [applyCurve] gives no more for the first
    tension than for the second, the parameter is no greater either; with
    the linear curve (exponent 1) this holds for the tensions themselves. *)
Theorem mapped_monotone (p : TensionParam) (controls1 controls2 : StringControls)
    (midpointX canvasWidth : num) (config : Config) :
  positiveExponent (curveOf p (curves config)) ->
  finiteOrdered (rangeOf p (mappings config)) ->
  Binary64.spanFinite (rangeOf p (mappings config)) ->
  let curve := curveOf p (curves config) in
  let out1 := outputOf p (updateAudio controls1 midpointX canvasWidth config) in
  let out2 := outputOf p (updateAudio controls2 midpointX canvasWidth config) in
  (le (applyCurve (tension controls1) curve) (applyCurve (tension controls2) curve) = true ->
   le out1 out2 = true)
  /\ (curve = Fin 1 -> le (tension controls1) (tension controls2) = true ->
      le out1 out2 = true).
Proof.
  intros (e & He & Hpos) Hr _. cbn zeta.
  destruct (finiteOrdered_Fin _ Hr) as (lo & hi & Hrange & Hlohi).
  rewrite !outputOf_updateAudio, He, Hrange.
  assert (Hmono : forall c1 c2, 0 <= c1 <= c2 ->
            le (settle p (mapRange (mkRange (Fin lo) (Fin hi)) (Fin c1)))
               (settle p (mapRange (mkRange (Fin lo) (Fin hi)) (Fin c2))) = true).
  { intros c1 c2 Hc. rewrite !mapRange_Fin. apply settle_monotone. nra. }
  split.
  - destruct (applyCurve_cases (tension controls1) e Hpos) as [-> | (c1 & -> & B1)];
      [discriminate|].
    destruct (applyCurve_cases (tension controls2) e Hpos) as [-> | (c2 & -> & B2)];
      [discriminate|].
    intros Hle%le_Fin. apply Hmono. lra.
  - intros _ Hle.
    destruct (applyCurve_le _ _ e Hpos Hle) as (c1 & c2 & -> & -> & B & _).
    now apply Hmono.
Qed.

Lemma mapped_monotone_witness :
  le (reverb_wet (updateAudio (controlsWithTension (Fin (2 / 10))) (Fin 400) (Fin 800)
                    audioConfig))
     (reverb_wet (updateAudio (controlsWithTension (Fin (7 / 10))) (Fin 400) (Fin 800)
                    audioConfig)) = true.
Proof.
  apply (mapped_monotone ReverbWet (controlsWithTension (Fin (2 / 10)))
           (controlsWithTension (Fin (7 / 10))) (Fin 400) (Fin 800) audioConfig).
  - exists 1. split; [reflexivity | lra].
  - repeat split. apply le_Fin. lra.
  - apply spanFinite_small. lra.
  - reflexivity.
  - apply le_Fin. lra.
Defined.

(** X7.  The exponent bends the curve below or above the identity: on a tension
    of the unit interval an exponent of at least 1 gives at most the
    tension, a positive exponent of at most 1 gives at least the tension. *)
Theorem applyCurve_exponent (t e : R) :
  0 <= t <= 1 -> 0 < e ->
  exists c, applyCurve (Fin t) (Fin e) = Fin c
    /\ (1 <= e -> c <= t) /\ (e <= 1 -> t <= c).
Proof.
  intros Ht He.
  destruct (applyCurve_positive t e He) as (c & Hc & Hb & H0 & H1 & Hp).
  exists c. split; [exact Hc|].
  destruct (Req_dec_T t 0) as [-> | Hn0]; [rewrite H0 by lra; lra|].
  destruct (Req_dec_T t 1) as [-> | Hn1]; [rewrite H1 by lra; lra|].
  rewrite Hp by lra. unfold Rpower.
  assert (Hln : ln t < 0) by (rewrite <- ln_1; apply ln_increasing; lra).
  assert (Hexp : exp (ln t) = t) by (apply exp_ln; lra).
  split; intros Hcmp.
  - destruct (Req_dec_T e 1) as [-> | Hne]; [rewrite Rmult_1_l; lra|].
    rewrite <- Hexp at 2. left. apply exp_increasing. nra.
  - destruct (Req_dec_T e 1) as [-> | Hne]; [rewrite Rmult_1_l; lra|].
    rewrite <- Hexp at 1. left. apply exp_increasing. nra.
Qed.

Lemma applyCurve_exponent_witness :
  exists c, applyCurve (Fin (1 / 2)) (Fin 2) = Fin c /\ c <= 1 / 2.
Proof.
  destruct (applyCurve_exponent (1 / 2) 2) as (c & Hc & Hlow & _); [lra | lra |].
  exists c. split; [exact Hc | apply Hlow; lra].
Defined.

(** X8.  Only the frequency is guarded against NaN: with a NaN tension every
    other mapped parameter is NaN, unless its exponent is 0, in which case
    the curve gives 1 and the parameter is what tension 1 would give. *)
Theorem mapped_nan_tension (p : TensionParam) (controls : StringControls)
    (midpointX canvasWidth : num) (config : Config) :
  tension controls = NaN ->
  let u := updateAudio controls midpointX canvasWidth config in
  (curveOf p (curves config) <> Fin 0 -> outputOf p u = NaN)
  /\ (curveOf p (curves config) = Fin 0 ->
      outputOf p u = settle p (mapRange (rangeOf p (mappings config)) (Fin 1))).
Proof.
  intros Ht. cbn zeta. rewrite outputOf_updateAudio, Ht. split.
  - intros Hc.
    assert (E : applyCurve NaN (curveOf p (curves config)) = NaN).
    { unfold applyCurve. cbn [JS.min JS.max].
      destruct (curveOf p (curves config)) as [| | |e]; cbn; try reflexivity.
      case_bool_decide; [reflexivity|].
      case_bool_decide; [subst; contradiction | reflexivity]. }
    rewrite E. unfold mapRange. cbn [mul]. rewrite add_NaN_r.
    destruct p; reflexivity.
  - intros ->. unfold applyCurve. cbn. rewrite bool_decide_false by lra.
    now rewrite bool_decide_true by reflexivity.
Qed.

Lemma mapped_nan_tension_witness :
  synth_volume (updateAudio (controlsWithTension NaN) (Fin 400) (Fin 800) audioConfig)
  = NaN.
Proof.
  apply (mapped_nan_tension Volume (controlsWithTension NaN) (Fin 400) (Fin 800)
           audioConfig eq_refl).
  intros [=]. lra.
Defined.

(** X9.  The modulation depth has a hard ceiling: for a finite angle and a
    finite configured range whose [max - min] does not overflow, the LFO
    bounds are [-d] and [d] with [0 <= d <= 50], whatever the range is;
    only the size of the angle counts; and with [0 <= min <= max] and
    [min <= 50] the depth is at least the configured minimum. *)
Theorem modulation_depth_bounded (controls : StringControls)
    (midpointX canvasWidth : num) (config : Config) (a lo hi : R) :
  angle controls = Fin a ->
  modulationDepth (mappings config) = mkRange (Fin lo) (Fin hi) ->
  Binary64.finiteDifference lo hi ->
  let u := updateAudio controls midpointX canvasWidth config in
  exists d,
    lfo_max u = Fin d /\ lfo_min u = Fin (- d) /\ 0 <= d <= 50
    /\ (forall controls',
          angle controls' = neg (angle controls) ->
          lfo_max (updateAudio controls' midpointX canvasWidth config) = Fin d)
    /\ (0 <= lo <= hi -> lo <= 50 -> lo <= d).
Proof.
  intros Ha Hr _. cbn zeta. unfold updateAudio. cbn [lfo_max lfo_min].
  rewrite Ha, Hr. cbn [abs neg]. rewrite mapRange_Fin, min_Fin, max_Fin.
  eexists. split; [reflexivity|]. split; [reflexivity|].
  set (v := lo + Rabs a * (hi - lo)).
  split; [unfold Rmax, Rmin; repeat destruct (Rle_dec _ _); lra|].
  split.
  - intros controls' ->. rewrite ?Hr. cbn [abs neg].
    rewrite Rabs_Ropp, ?mapRange_Fin, ?min_Fin, ?max_Fin. reflexivity.
  - intros Hlo Hhi. pose proof (Rabs_pos a).
    assert (lo <= v) by (unfold v; nra).
    unfold Rmax, Rmin. repeat destruct (Rle_dec _ _); lra.
Qed.

Lemma modulation_depth_witness :
  exists d,
    lfo_max (updateAudio (controlsWithTension (Fin (1 / 2))) (Fin 400) (Fin 800)
               audioConfig) = Fin d
    /\ 0 <= d <= 50.
Proof.
  destruct (modulation_depth_bounded (controlsWithTension (Fin (1 / 2))) (Fin 400)
              (Fin 800) audioConfig 0 0 10 eq_refl eq_refl)
    as (d & Hd & _ & Hb & _).
  { apply finiteDifference_small. lra. }
  exists d. split; [exact Hd | exact Hb].
Defined.

(** X10.  The filter cutoff is audible for every finite tension, every finite
    non-negative exponent and every range with finite bounds, ordered or
    not, whose [max - min] does not overflow. *)
Theorem filter_cutoff_audible (controls : StringControls)
    (midpointX canvasWidth : num) (config : Config) (t e : R) :
  tension controls = Fin t ->
  curve_filterCutoff (curves config) = Fin e -> 0 <= e ->
  Binary64.spanFinite (filterCutoff (mappings config)) ->
  audible (filter_frequency (updateAudio controls midpointX canvasWidth config)).
Proof.
  intros Ht He Hpos (lo & hi & Hr & _).
  unfold updateAudio. cbn [filter_frequency]. rewrite Ht, He, Hr.
  assert (Hc : exists c, applyCurve (Fin t) (Fin e) = Fin c).
  { destruct (Req_dec_T e 0) as [-> | Hne].
    - unfold applyCurve. rewrite min_Fin, max_Fin. cbn [strict_eq pow].
      rewrite bool_decide_false by lra. rewrite bool_decide_true by reflexivity. eauto.
    - destruct (applyCurve_positive t e) as (c & Hc & _); [lra | eauto]. }
  destruct Hc as (c & ->). rewrite mapRange_Fin.
  destruct (clamp_Fin 20 20000 (lo + c * (hi - lo))) as (f & -> & Hf & _); [lra|].
  split; apply le_Fin; lra.
Qed.

Lemma filter_cutoff_audible_witness :
  audible (filter_frequency
             (updateAudio (controlsWithTension (Fin (-3))) (Fin 400) (Fin 800)
                (configWithFilterCutoff (mkRange (Fin 5) (Fin 10))))).
Proof.
  apply (filter_cutoff_audible _ _ _ _ (-3) 2); [reflexivity | reflexivity | lra |].
  apply spanFinite_small. lra.
Defined.

(** X11.  The hybrid pitch.  With frequency bounds [20 <= min <= max <= 20000], a
    positive exponent and a finite tension, the frequency sent is
    [min + nx * 0.75 * (max - min) + c * 0.25 * (max - min)], where [nx] is
    the normalised midpoint and [c] the curved tension, both in the unit
    interval: it lies within [[min, max]], neither clamp nor fallback
    changes it, and without tension the position alone reaches at most
    three quarters of the range. *)
Theorem hybrid_frequency (controls : StringControls) (midpointX canvasWidth : num)
    (config : Config) (t lo hi : R) :
  tension controls = Fin t ->
  positiveExponent (curve_frequency (curves config)) ->
  frequency (mappings config) = mkRange (Fin lo) (Fin hi) ->
  20 <= lo -> lo <= hi -> hi <= 20000 ->
  exists nx c,
    normalizedX midpointX canvasWidth = Fin nx /\ 0 <= nx <= 1
    /\ applyCurve (Fin t) (curve_frequency (curves config)) = Fin c /\ 0 <= c <= 1
    /\ synth_frequency (updateAudio controls midpointX canvasWidth config)
       = Fin (lo + nx * (75 / 100 * (hi - lo)) + c * (25 / 100 * (hi - lo)))
    /\ lo <= lo + nx * (75 / 100 * (hi - lo)) + c * (25 / 100 * (hi - lo)) <= hi
    /\ (t <= 0 ->
        lo + nx * (75 / 100 * (hi - lo)) + c * (25 / 100 * (hi - lo))
        <= lo + 75 / 100 * (hi - lo)).
Proof.
  intros Ht (e & He & Hpos) Hfr Hlo Hle Hhi.
  destruct (normalizedX_unit midpointX canvasWidth) as (nx & Hnx & Bnx).
  destruct (applyCurve_positive t e Hpos) as (c & Hc & Bc & Hzero & _).
  exists nx, c. rewrite He. split; [exact Hnx|]. split; [exact Bnx|].
  split; [exact Hc|]. split; [exact Bc|].
  set (f := lo + nx * (75 / 100 * (hi - lo)) + c * (25 / 100 * (hi - lo))).
  assert (Bf : lo <= f <= hi) by (unfold f; nra).
  assert (Hraw : rawFrequency controls midpointX canvasWidth config = Fin f).
  { unfold rawFrequency. rewrite Ht, He, Hfr, Hc, Hnx.
    cbn [min max add sub mul neg]. f_equal. unfold f. field. }
  assert (Hclamped : clampedFrequency controls midpointX canvasWidth config = Fin f).
  { unfold clampedFrequency. rewrite Hraw, Hfr. cbn [min max].
    rewrite !min_Fin, !max_Fin. f_equal.
    unfold Rmax, Rmin. repeat destruct (Rle_dec _ _); lra. }
  split; [|split; [exact Bf|]].
  - unfold updateAudio. cbn [synth_frequency].
    unfold synthFrequency, validatedFrequency. rewrite Hclamped.
    unfold invalidFrequency, validFrequency, gt. cbn [isNaN isFinite negb orb andb le lt].
    rewrite bool_decide_false by lra. rewrite bool_decide_true by lra.
    rewrite min_Fin, max_Fin. f_equal.
    unfold Rmax, Rmin. repeat destruct (Rle_dec _ _); lra.
  - intros Ht0. rewrite (Hzero Ht0) in *. unfold f. nra.
Qed.

Lemma hybrid_frequency_witness :
  exists f,
    synth_frequency (updateAudio (controlsWithTension (Fin 0)) (Fin 400) (Fin 800)
                       audioConfig) = Fin f
    /\ 220 <= f <= 880.
Proof.
  destruct (hybrid_frequency (controlsWithTension (Fin 0)) (Fin 400) (Fin 800)
              audioConfig 0 220 880) as (nx & c & _ & _ & _ & _ & Hf & Hb & _);
    try reflexivity; try lra.
  - exists 1. split; [reflexivity | lra].
  - eexists. split; [exact Hf | exact Hb].
Defined.

End MappedParamFacts.

(** ** The canvas tick, continued ([components/StringCanvas.tsx]) *)

Section CanvasMoreFacts.
Import StringCanvas StringCanvasPaint CanvasInvariants Inputs.

(** X12.  Pinch detection has hysteresis: a hand that is found pinching when it
    was not pinching before is also found pinching when it was; with a
    video and both tips, the hand pinches from below 50 units and keeps
    pinching below 80 units of distance between the tips on the canvas;
    without a video or without one of the tips it never pinches. *)
Theorem pinch_hysteresis (hand : Hand) (video : option Video) (canvas : Canvas) :
  (getPinchState hand video canvas false = true ->
   getPinchState hand video canvas true = true)
  /\ (video = None -> forall s, getPinchState hand video canvas s = false)
  /\ (pinchTips hand = None -> forall s, getPinchState hand video canvas s = false)
  /\ (forall v thumbTip index,
        video = Some v -> pinchTips hand = Some (thumbTip, index) ->
        let p1 := videoToCanvas thumbTip.1 thumbTip.2 video canvas in
        let p2 := videoToCanvas index.1 index.2 video canvas in
        let d := JS.hypot (p2.1 - p1.1) (p2.2 - p1.2) in
        (getPinchState hand video canvas false = true <-> d < PINCH_THRESHOLD)
        /\ (getPinchState hand video canvas true = true <-> d < PINCH_RELEASE_THRESHOLD)).
Proof.
  unfold getPinchState, PINCH_THRESHOLD, PINCH_RELEASE_THRESHOLD.
  split; [|split; [|split]].
  - destruct video; [|discriminate].
    destruct (pinchTips hand) as [[[vx1 vy1] [vx2 vy2]]|]; [|discriminate].
    destruct (videoToCanvas vx1 vy1 _ _), (videoToCanvas vx2 vy2 _ _).
    rewrite !bool_decide_eq_true. lra.
  - intros ->. reflexivity.
  - intros ->. destruct video; reflexivity.
  - intros v [vx1 vy1] [vx2 vy2] -> ->. cbn [fst snd].
    destruct (videoToCanvas vx1 vy1 _ _), (videoToCanvas vx2 vy2 _ _). cbn [fst snd].
    rewrite !bool_decide_eq_true. tauto.
Qed.

Lemma pinch_hysteresis_witness :
  getPinchState (handAt 200 300 10) (Some video800) canvas800 true = true.
Proof.
  apply (pinch_hysteresis (handAt 200 300 10) (Some video800) canvas800).
  canvas_eval. reflexivity.
Defined.

(** X13.  Mapping of tracker coordinates to the canvas.  For a video of
    non-zero size, coordinates that are both at most 1 are read as
    normalised and mirrored: [(1 - vx) * videoWidth], [vy * videoHeight],
    each scaled by canvas size over video size; for coordinates of the unit
    interval and a video at least one pixel wide and high the result lies
    between 0 and the image of the video's edge,
    [videoWidth * (canvas.width / videoWidth)] and
    [videoHeight * (canvas.height / videoHeight)] (the canvas size in exact
    arithmetic).  As soon as one coordinate exceeds 1 both are read as
    pixels of the video.  Without a video, or with a video of width or
    height 0, nothing is mapped. *)
Theorem videoToCanvas_cases (v : Video) (canvas : Canvas) (vx vy : R) :
  (videoWidth v <> 0 -> videoHeight v <> 0 -> vx <= 1 -> vy <= 1 ->
   videoToCanvas vx vy (Some v) canvas
   = ((1 - vx) * videoWidth v * (width canvas / videoWidth v),
      vy * videoHeight v * (height canvas / videoHeight v)))
  /\ (1 <= videoWidth v -> 1 <= videoHeight v -> 0 <= vx <= 1 -> 0 <= vy <= 1 ->
      0 <= width canvas -> 0 <= height canvas ->
      let p := videoToCanvas vx vy (Some v) canvas in
      0 <= p.1 <= videoWidth v * (width canvas / videoWidth v)
      /\ 0 <= p.2 <= videoHeight v * (height canvas / videoHeight v))
  /\ (videoWidth v <> 0 -> videoHeight v <> 0 -> 1 < vx \/ 1 < vy ->
      videoToCanvas vx vy (Some v) canvas
      = ((videoWidth v - vx) * (width canvas / videoWidth v),
         vy * (height canvas / videoHeight v)))
  /\ (videoWidth v = 0 \/ videoHeight v = 0 ->
      videoToCanvas vx vy (Some v) canvas = (vx, vy))
  /\ videoToCanvas vx vy None canvas = (vx, vy).
Proof.
  assert (Hnorm : videoWidth v <> 0 -> videoHeight v <> 0 -> vx <= 1 -> vy <= 1 ->
                  videoToCanvas vx vy (Some v) canvas
                  = ((1 - vx) * videoWidth v * (width canvas / videoWidth v),
                     vy * videoHeight v * (height canvas / videoHeight v))).
  { intros Hw Hh Hx Hy. unfold videoToCanvas.
    rewrite !bool_decide_false by lra. reflexivity. }
  split; [exact Hnorm|]. split; [|split; [|split]].
  - intros Hw Hh Hx Hy Hcw Hch. cbn zeta. rewrite Hnorm by lra. cbn [fst snd].
    assert (Hsx : 0 <= width canvas / videoWidth v).
    { apply Rmult_le_pos; [lra|]. apply Rlt_le, Rinv_0_lt_compat. lra. }
    assert (Hsy : 0 <= height canvas / videoHeight v).
    { apply Rmult_le_pos; [lra|]. apply Rlt_le, Rinv_0_lt_compat. lra. }
    assert (Hax : 0 <= (1 - vx) * videoWidth v <= videoWidth v) by nra.
    assert (Hay : 0 <= vy * videoHeight v <= videoHeight v) by nra.
    split; (split; [apply Rmult_le_pos; lra | apply Rmult_le_compat_r; lra]).
  - intros Hw Hh Hpix. unfold videoToCanvas.
    rewrite (bool_decide_false (videoWidth v = 0)), (bool_decide_false (videoHeight v = 0))
      by assumption. cbn [orb].
    destruct Hpix as [Hx | Hy].
    + now rewrite (bool_decide_true (1 < vx)) by exact Hx.
    + rewrite (bool_decide_true (1 < vy)) by exact Hy. now rewrite orb_true_r.
  - intros [Hw | Hh]; unfold videoToCanvas.
    + now rewrite (bool_decide_true _ Hw).
    + rewrite (bool_decide_true _ Hh). now rewrite orb_true_r.
  - reflexivity.
Qed.

Lemma videoToCanvas_witness :
  let p := videoToCanvas (1 / 4) (1 / 2) (Some (mkVideo 640 480)) canvas800 in
  0 <= p.1 <= 640 * (800 / 640) /\ 0 <= p.2 <= 480 * (600 / 480).
Proof.
  apply (videoToCanvas_cases (mkVideo 640 480) canvas800 (1 / 4) (1 / 2));
    cbn; lra.
Defined.

(** On doubles the image of the video's edge need not be the canvas width:
    for a video 352 wide and the 800 x 600 canvas, the normalised abscissa
    0 is mapped to 800.0000000000001, to the right of the canvas. *)
Lemma videoToCanvas_edge_rounds :
  Binary64.videoToCanvas 0 0.5 (Some (Binary64.mkVideo 352 288))
    (Binary64.mkCanvas 800 600)
  = (800.0000000000001%float, 300%float).
Proof. vm_compute. reflexivity. Qed.

(** X14.  Clamping to a canvas of non-negative size gives a point on the canvas,
    leaves a point on the canvas where it is, and clamping twice is
    clamping once. *)
Theorem clampToCanvas_on_canvas (px py : R) (canvas : Canvas) :
  0 <= width canvas -> 0 <= height canvas ->
  let c := clampToCanvas px py canvas in
  isOutOfBounds c.1 c.2 canvas = false
  /\ (isOutOfBounds px py canvas = false -> c = (px, py))
  /\ clampToCanvas c.1 c.2 canvas = c.
Proof.
  intros Hw Hh. cbn zeta. unfold clampToCanvas, isOutOfBounds. cbn [fst snd].
  split; [|split].
  - rewrite !bool_decide_false; [reflexivity|..];
      unfold Rmax, Rmin; repeat destruct (Rle_dec _ _); lra.
  - rewrite !orb_false_iff, !bool_decide_eq_false. intros [[[H1 H2] H3] H4].
    f_equal; unfold Rmax, Rmin; repeat destruct (Rle_dec _ _); lra.
  - f_equal; unfold Rmax, Rmin; repeat destruct (Rle_dec _ _); lra.
Qed.

Lemma clampToCanvas_witness :
  let c := clampToCanvas 900 (-5) canvas800 in
  isOutOfBounds c.1 c.2 canvas800 = false
  /\ (isOutOfBounds 900 (-5) canvas800 = false -> c = (900, -5))
  /\ clampToCanvas c.1 c.2 canvas800 = c.
Proof.
  apply (clampToCanvas_on_canvas 900 (-5) canvas800); cbn; lra.
Defined.

Lemma checkPresence_owned (active : gset nat) (e : Endpoint) :
  owned e -> owned (checkPresence active e).
Proof.
  unfold owned, checkPresence. intros He.
  destruct (controllingHandId e) as [h|] eqn:Hh; [|now rewrite Hh].
  case_bool_decide; [now rewrite Hh|]. cbn. split; [discriminate|].
  intros [? ?]; discriminate.
Qed.

Lemma grabRelease_owned (tips : list HandTip) (e : Endpoint) :
  owned e -> owned (grabRelease tips e).
Proof.
  unfold owned. intros He.
  assert (Hidle : grabbed (mkEndpoint (position e) false None) = true
                  <-> is_Some (controllingHandId (mkEndpoint (position e) false None))).
  { cbn. split; [discriminate|]. intros [? ?]; discriminate. }
  unfold grabRelease. destruct tips as [|t tips]; [exact He|].
  destruct (closestTip (t :: tips) (position e)) as [[c d]|].
  - destruct (bool_decide (d <= GRAB_RADIUS) && isPinched c).
    + cbn. split; [intros _|reflexivity].
      destruct (grabbed e) eqn:Hg; [now apply He|eauto].
    + destruct (grabbed e) eqn:Hg; [|now rewrite Hg].
      destruct (negb (isPinched c) || _); [exact Hidle|].
      cbn. split; [intros _; now apply He|reflexivity].
  - destruct (grabbed e) eqn:Hg; [exact Hidle|now rewrite Hg].
Qed.

Lemma ease_owned (anchor : Point) (e : Endpoint) : owned e -> owned (ease anchor e).
Proof. unfold owned, ease. destruct (grabbed e) eqn:Hg; cbn; now rewrite ?Hg. Qed.

Lemma stepEndpoint_owned (active : gset nat) (tips : list HandTip)
    (anchor : Point) (e : Endpoint) :
  owned e -> owned (stepEndpoint active tips anchor e).
Proof.
  intros He. unfold stepEndpoint.
  now apply ease_owned, grabRelease_owned, checkPresence_owned.
Qed.

Lemma endpointOf_draw_eta (side : Side) (st : CanvasState) :
  mkEndpoint (position (endpointOf side st)) (grabbed (endpointOf side st))
    (controllingHandId (endpointOf side st)) = endpointOf side st.
Proof. now destruct side. Qed.

Lemma drawFrame_wellOwned (canvas : Canvas) (st : CanvasState) (f : Frame) :
  wellOwned st -> wellOwned (drawFrame canvas st f).
Proof.
  intros [Hl Hr]. unfold wellOwned, drawFrame.
  change (leftEndpoint ?s) with (endpointOf Left s).
  change (rightEndpoint ?s) with (endpointOf Right s).
  rewrite !draw_endpoint. cbn zeta. split; now apply stepEndpoint_owned.
Qed.

(** X15.  Ownership invariant: an endpoint is grabbed exactly when it records a
    controlling hand.  It holds when the component is mounted and every
    tick keeps it, so it holds after any sequence of frames. *)
Theorem ownership_invariant (canvas : Canvas) (frames : list Frame) (st : CanvasState) :
  wellOwned st -> wellOwned (run canvas st frames).
Proof.
  revert st. induction frames as [|f frames IH]; intros st Hst; [exact Hst|].
  rewrite run_cons. now apply IH, drawFrame_wellOwned.
Qed.

Lemma ownership_invariant_witness :
  wellOwned (run canvas800 (initialState canvas800) carryFrames).
Proof.
  apply (ownership_invariant canvas800 carryFrames (initialState canvas800)).
  split; (split; [discriminate | intros [? ?]; discriminate]).
Defined.

Lemma checkPresence_grabbed (active : gset nat) (e : Endpoint) :
  owned e -> grabbed (checkPresence active e) = true ->
  checkPresence active e = e
  /\ exists h, controllingHandId e = Some h /\ h ∈ active.
Proof.
  unfold owned, checkPresence. intros He.
  destruct (controllingHandId e) as [h|] eqn:Hh.
  - case_bool_decide; [eauto|discriminate].
  - intros Hg. apply He in Hg. destruct Hg; discriminate.
Qed.

(** X16.  After a tick, a grabbed endpoint lies on a hand tip: the tip closest to
    where the endpoint was, which is pinching and within the release
    distance; and the hand recorded as its controller was seen in this
    tick.  (The controller need not be the hand of that tip.) *)
Theorem grabbed_on_pinching_tip (side : Side) (canvas : Canvas) (st : CanvasState)
    (f : Frame) :
  owned (endpointOf side st) ->
  let col := collectHandTips st (frameHands f) (frameVideo f) canvas (frameTime f) in
  let e := endpointOf side st in
  let e' := endpointOf side (drawFrame canvas st f) in
  grabbed e' = true ->
  exists tip h,
    isClosest (handTips col) (position e) tip
    /\ isPinched tip = true
    /\ distance tip (position e) <= GRAB_RADIUS + RELEASE_HYSTERESIS
    /\ position e' = tipPoint tip
    /\ controllingHandId e' = Some h
    /\ h ∈ activeHandIds col.
Proof.
  intros He col e e'. subst e e'. unfold drawFrame. rewrite draw_endpoint. cbn zeta.
  fold col. set (e := endpointOf side st) in *.
  destruct (handTips col) as [|t tips] eqn:Htips.
  - rewrite stepEndpoint_no_tips, ease_grabbed. intros Hg.
    destruct (checkPresence_grabbed _ _ He Hg) as (_ & h & _ & Hh).
    apply (active_tips st (frameHands f) (frameVideo f) canvas (frameTime f)) in Hh.
    destruct Hh as (tip & Hin & _). fold col in Hin. rewrite Htips in Hin.
    now apply elem_of_nil in Hin.
  - destruct (closest_exists (t :: tips) (position e)) as [c Hc]; [discriminate|].
    rewrite (stepEndpoint_closest _ _ _ _ c Hc). cbn zeta.
    assert (Hcin : handId c ∈ activeHandIds col).
    { apply (active_tips st (frameHands f) (frameVideo f) canvas (frameTime f)).
      exists c. split; [|reflexivity]. fold col. rewrite Htips.
      exact (isClosest_elem _ _ _ Hc). }
    unfold GRAB_RADIUS, RELEASE_HYSTERESIS in *.
    destruct (bool_decide (distance c (position e) <= 30) && isPinched c) eqn:Hgrab.
    + apply andb_true_iff in Hgrab as [Hd Hp]. apply bool_decide_eq_true in Hd.
      intros _. cbn [position grabbed controllingHandId].
      destruct (grabbed (checkPresence (activeHandIds col) e)) eqn:Hg0.
      * destruct (checkPresence_grabbed _ _ He Hg0) as (Hcp & h & Hh & Hin); rewrite Hcp.
        exists c, h. repeat split; [exact Hc|exact Hp|lra|exact Hh|exact Hin].
      * exists c, (handId c). repeat split; [exact Hc|exact Hp|lra|exact Hcin].
    + destruct (grabbed (checkPresence (activeHandIds col) e)) eqn:Hg0.
      * destruct (negb (isPinched c) || bool_decide (30 + 10 < distance c (position e)))
          eqn:Hrel.
        { discriminate. }
        apply orb_false_iff in Hrel as [Hp Hd]. apply negb_false_iff in Hp.
        apply bool_decide_eq_false in Hd. intros _.
        destruct (checkPresence_grabbed _ _ He Hg0) as (Hcp & h & Hh & Hin); rewrite Hcp.
        exists c, h. cbn [position grabbed controllingHandId].
        repeat split; [exact Hc|exact Hp|lra|exact Hh|exact Hin].
      * rewrite ease_grabbed, Hg0. discriminate.
Qed.

Lemma grabbed_on_pinching_tip_witness :
  exists tip h,
    isClosest (handTips (collectHandTips (initialState canvas800)
                           (frameHands (pinchFrame 200 0)) (frameVideo (pinchFrame 200 0))
                           canvas800 (frameTime (pinchFrame 200 0))))
      (position (endpointOf Left (initialState canvas800))) tip
    /\ isPinched tip = true
    /\ distance tip (position (endpointOf Left (initialState canvas800)))
       <= GRAB_RADIUS + RELEASE_HYSTERESIS
    /\ position (endpointOf Left (drawFrame canvas800 (initialState canvas800) (pinchFrame 200 0)))
       = tipPoint tip
    /\ controllingHandId
         (endpointOf Left (drawFrame canvas800 (initialState canvas800) (pinchFrame 200 0)))
       = Some h
    /\ h ∈ activeHandIds (collectHandTips (initialState canvas800)
                           (frameHands (pinchFrame 200 0)) (frameVideo (pinchFrame 200 0))
                           canvas800 (frameTime (pinchFrame 200 0))).
Proof.
  apply (grabbed_on_pinching_tip Left canvas800 (initialState canvas800) (pinchFrame 200 0)).
  - split; [discriminate | intros [? ?]; discriminate].
  - rewrite tick_grab. reflexivity.
Defined.

Lemma idle_owned (p : Point) : owned (mkEndpoint p false None).
Proof. split; [discriminate | intros [? ?]; discriminate]. Qed.

(** X17.  A tick without hands, or without a video element: both endpoints come
    out released, without a controlling hand and eased 15% of the way to
    their anchors, and no pinch record is kept. *)
Theorem tick_without_hands (canvas : Canvas) (st : CanvasState) (f : Frame) :
  frameHands f = [] \/ frameVideo f = None ->
  wellOwned st ->
  let st' := drawFrame canvas st f in
  leftGrabbed st' = false /\ rightGrabbed st' = false
  /\ leftHandId st' = None /\ rightHandId st' = None
  /\ leftEnd st' = lerp (leftEnd st) (leftAnchor canvas) EASING_FACTOR
  /\ rightEnd st' = lerp (rightEnd st) (rightAnchor canvas) EASING_FACTOR
  /\ pinchStates st' = ∅.
Proof.
  intros Hf [Hl Hr]. cbn zeta. unfold drawFrame.
  assert (Hcol : collectHandTips st (frameHands f) (frameVideo f) canvas (frameTime f)
                 = mkCollected (pinchStates st) [] ∅).
  { destruct Hf as [-> | ->]; [|apply collect_no_video].
    unfold collectHandTips. now destruct (frameVideo f). }
  assert (Hstep : forall side, owned (endpointOf side st) ->
            endpointOf side (draw canvas (frameHands f) (frameVideo f) (frameTime f) st)
            = mkEndpoint (lerp (position (endpointOf side st)) (anchorOf side canvas)
                            EASING_FACTOR) false None).
  { intros side Ho. rewrite draw_endpoint. cbn zeta. rewrite Hcol.
    cbn [handTips activeHandIds]. rewrite stepEndpoint_no_tips.
    assert (H0 : checkPresence ∅ (endpointOf side st)
                 = mkEndpoint (position (endpointOf side st)) false None).
    { unfold checkPresence. destruct (controllingHandId (endpointOf side st)) eqn:Hc.
      - rewrite bool_decide_false by apply not_elem_of_empty. reflexivity.
      - destruct (grabbed (endpointOf side st)) eqn:Hg.
        + apply Ho in Hg. rewrite Hc in Hg. destruct Hg; discriminate.
        + destruct (endpointOf side st); cbn in *; now subst. }
    rewrite H0. reflexivity. }
  pose proof (Hstep Left Hl) as HL. pose proof (Hstep Right Hr) as HR.
  cbn [endpointOf anchorOf] in HL, HR. unfold leftEndpoint, rightEndpoint in HL, HR.
  cbn [position] in HL, HR. injection HL as HL1 HL2 HL3. injection HR as HR1 HR2 HR3.
  repeat (split; [assumption|]).
  unfold draw. cbn [pinchStates]. rewrite Hcol. cbn [activeHandIds col_pinchStates].
  unfold cleanPinchStates. apply map_eq. intros k. rewrite lookup_empty.
  apply map_lookup_filter_None. right. intros ? _. cbn. apply not_elem_of_empty.
Qed.

Lemma tick_without_hands_witness :
  let st' := drawFrame canvas800 (bothHeld 590) (emptyFrame 176) in
  leftGrabbed st' = false /\ rightGrabbed st' = false
  /\ leftHandId st' = None /\ rightHandId st' = None
  /\ leftEnd st' = lerp (leftEnd (bothHeld 590)) (leftAnchor canvas800) EASING_FACTOR
  /\ rightEnd st' = lerp (rightEnd (bothHeld 590)) (rightAnchor canvas800) EASING_FACTOR
  /\ pinchStates st' = ∅.
Proof.
  apply (tick_without_hands canvas800 (bothHeld 590) (emptyFrame 176)).
  - left. reflexivity.
  - split; (split; [intros _; eexists; reflexivity | reflexivity]).
Defined.

(** X18.  Grabbing has hysteresis.  With the same hand tips, an endpoint that
    would be grabbed from idle is kept when it is held (by a hand that is
    seen); and with [c] the closest tip, an idle endpoint is grabbed exactly
    when [c] pinches within the grab radius (30), a held one is kept exactly
    when [c] pinches within grab radius plus release hysteresis (40). *)
Theorem grab_hysteresis (active : gset nat) (tips : list HandTip) (anchor p : Point)
    (h : nat) :
  h ∈ active ->
  let held := mkEndpoint p true (Some h) in
  let idle := mkEndpoint p false None in
  (grabbed (stepEndpoint active tips anchor idle) = true ->
   grabbed (stepEndpoint active tips anchor held) = true)
  /\ (forall c, isClosest tips p c ->
        (grabbed (stepEndpoint active tips anchor idle) = true
         <-> isPinched c = true /\ distance c p <= GRAB_RADIUS)
        /\ (grabbed (stepEndpoint active tips anchor held) = true
            <-> isPinched c = true
                /\ distance c p <= GRAB_RADIUS + RELEASE_HYSTERESIS)).
Proof.
  intros Hh held idle.
  assert (Hheld : checkPresence active held = held).
  { now apply (checkPresence_observed active held h). }
  assert (Hidle : checkPresence active idle = idle) by reflexivity.
  assert (Hboth : forall c, isClosest tips p c ->
            (grabbed (stepEndpoint active tips anchor idle) = true
             <-> isPinched c = true /\ distance c p <= GRAB_RADIUS)
            /\ (grabbed (stepEndpoint active tips anchor held) = true
                <-> isPinched c = true
                    /\ distance c p <= GRAB_RADIUS + RELEASE_HYSTERESIS)).
  { intros c Hc.
    rewrite (stepEndpoint_closest active tips anchor idle c Hc),
            (stepEndpoint_closest active tips anchor held c Hc).
    cbn zeta. rewrite Hheld, Hidle. cbn [position grabbed held idle].
    unfold GRAB_RADIUS, RELEASE_HYSTERESIS.
    destruct (isPinched c); cbn [negb orb andb]; rewrite ?andb_false_r;
      repeat case_bool_decide; cbn [andb grabbed ease]; split; split;
      try discriminate; try reflexivity;
      try (intros [? ?]; first [discriminate | lra]); try (intros _; split; [reflexivity|lra]). }
  split; [|exact Hboth].
  destruct tips as [|t tips].
  - rewrite stepEndpoint_no_tips, ease_grabbed, Hidle. discriminate.
  - destruct (closest_exists (t :: tips) p) as [c Hc]; [discriminate|].
    destruct (Hboth c Hc) as [Hi Hk]. rewrite Hi, Hk.
    unfold GRAB_RADIUS, RELEASE_HYSTERESIS. intros [? ?]. split; [assumption|lra].
Qed.

Lemma grab_hysteresis_witness :
  grabbed (stepEndpoint {[0%nat]} [mkHandTip (mkPoint 235 300) 0 true]
             (mkPoint 200 300) (mkEndpoint (mkPoint 200 300) true (Some 0%nat))) = true
  /\ grabbed (stepEndpoint {[0%nat]} [mkHandTip (mkPoint 235 300) 0 true]
                (mkPoint 200 300) (mkEndpoint (mkPoint 200 300) false None)) = false.
Proof.
  destruct (grab_hysteresis {[0%nat]} [mkHandTip (mkPoint 235 300) 0 true]
              (mkPoint 200 300) (mkPoint 200 300) 0) as [_ Hc].
  { now apply elem_of_singleton. }
  destruct (Hc _ (isClosest_singleton (mkPoint 200 300) (mkHandTip (mkPoint 235 300) 0 true)))
    as [Hidle Hheld].
  assert (Hd : distance (mkHandTip (mkPoint 235 300) 0 true) (mkPoint 200 300) = 35).
  { unfold distance. cbn [x y tipPoint]. rewrite hypot_axis by lra.
    rewrite Rabs_right by lra. lra. }
  split.
  - apply Hheld. split; [reflexivity|]. rewrite Hd. unfold GRAB_RADIUS, RELEASE_HYSTERESIS. lra.
  - apply not_true_is_false. intros Hg. apply Hidle in Hg as [_ Hg].
    rewrite Hd in Hg. unfold GRAB_RADIUS in Hg. lra.
Defined.

Lemma observations_elem (st : CanvasState) (video : option Video) (canvas : Canvas)
    (currentTime : Z) (ps : gmap nat PinchState) (hands : list Hand) :
  forall (index : nat) (o : HandTip * PinchState),
    o ∈ observations st video canvas currentTime ps index hands
    <-> exists j hand,
          hands !! j = Some hand
          /\ observation st video canvas currentTime (ps !! (index + j)%nat)
               (index + j) hand = Some o.
Proof.
  induction hands as [|hand rest IH]; intros index o; cbn [observations].
  - split; [intros H; now apply elem_of_nil in H|].
    intros (j & h & Hj & _). now rewrite lookup_nil in Hj.
  - assert (Hrest : o ∈ observations st video canvas currentTime ps (S index) rest
              <-> exists j h, (hand :: rest) !! S j = Some h
                    /\ observation st video canvas currentTime
                         (ps !! (index + S j)%nat) (index + S j) h = Some o).
    { rewrite IH. split; intros (j & h & Hj & Hobs); exists j, h;
        (split; [exact Hj|]); now replace (index + S j)%nat with (S index + j)%nat in * by lia. }
    destruct (observation st video canvas currentTime (ps !! index) index hand)
      as [o0|] eqn:Ho.
    + rewrite elem_of_cons, Hrest. split.
      * intros [-> | (j & h & Hj & Hobs)].
        -- exists 0%nat, hand. rewrite Nat.add_0_r. split; [reflexivity | exact Ho].
        -- exists (S j), h. split; assumption.
      * intros (j & h & Hj & Hobs). destruct j as [|j].
        -- left. cbn in Hj. injection Hj as <-. rewrite Nat.add_0_r in Hobs. congruence.
        -- right. exists j, h. split; assumption.
    + rewrite Hrest. split.
      * intros (j & h & Hj & Hobs). exists (S j), h. split; assumption.
      * intros (j & h & Hj & Hobs). destruct j as [|j].
        -- cbn in Hj. injection Hj as <-. rewrite Nat.add_0_r in Hobs. congruence.
        -- exists j, h. split; assumption.
Qed.

Lemma observations_sorted (st : CanvasState) (video : option Video) (canvas : Canvas)
    (currentTime : Z) (ps : gmap nat PinchState) (hands : list Hand) :
  forall index : nat,
    StronglySorted Nat.lt
      (handId <$> (observations st video canvas currentTime ps index hands).*1).
Proof.
  induction hands as [|hand rest IH]; intros index; cbn [observations].
  - constructor.
  - destruct (observation st video canvas currentTime (ps !! index) index hand)
      as [[tip record]|] eqn:Ho; [|apply IH].
    cbn [fmap list_fmap fst]. constructor; [apply IH|].
    apply Forall_forall. intros k Hk.
    apply list_elem_of_fmap in Hk as (tip' & -> & Hk).
    apply list_elem_of_fmap in Hk as ([tip'' record'] & -> & Hk).
    apply observations_elem in Hk as (j & h & _ & Hobs).
    apply observation_handId in Ho, Hobs. cbn [fst]. unfold Nat.lt. lia.
Qed.

(** X19.  The hand tips of a tick: there is one for each hand that shows an index
    tip and none else, in the order of the hands (the hand ids increase
    strictly along the list), each at the canvas position of the index tip
    of its hand. *)
Theorem hand_tips_one_per_hand (canvas : Canvas) (hands : list Hand)
    (video : option Video) (currentTime : Z) (st : CanvasState) :
  let col := collectHandTips st hands video canvas currentTime in
  StronglySorted Nat.lt (handId <$> handTips col)
  /\ (forall tip, tip ∈ handTips col ->
        exists hand vx vy,
          is_Some video
          /\ hands !! handId tip = Some hand
          /\ indexTip hand = Some (vx, vy)
          /\ (x tip, y tip) = videoToCanvas vx vy video canvas)
  /\ (forall k hand, is_Some video -> hands !! k = Some hand -> is_Some (indexTip hand) ->
        exists tip, tip ∈ handTips col /\ handId tip = k).
Proof.
  cbn zeta. destruct video as [v|].
  2:{ rewrite collect_no_video. cbn [handTips]. split; [constructor|]. split.
      - intros tip H. now apply elem_of_nil in H.
      - intros k hand [? ?]. discriminate. }
  rewrite collect_observations. cbn zeta. cbn [handTips].
  split; [apply observations_sorted|]. split.
  - intros tip Hin. apply list_elem_of_fmap in Hin as ([tip' record] & -> & Hin).
    apply observations_elem in Hin as (j & hand & Hj & Hobs). cbn [Nat.add fst] in *.
    unfold observation in Hobs.
    destruct (indexTip hand) as [[vx vy]|] eqn:Htip; [|discriminate].
    destruct (videoToCanvas vx vy (Some v) canvas) as [tx ty] eqn:Hxy.
    injection Hobs as <- _. exists hand, vx, vy.
    split; [eexists; reflexivity|]. split; [exact Hj|]. split; [exact Htip|].
    rewrite Hxy. reflexivity.
  - intros k hand _ Hk [[vx vy] Htip].
    destruct (observation st (Some v) canvas currentTime (pinchStates st !! k) k hand)
      as [[tip record]|] eqn:Hobs.
    + exists tip. split; [|exact (observation_handId _ _ _ _ _ _ _ _ _ Hobs)].
      apply list_elem_of_fmap. exists (tip, record). split; [reflexivity|].
      apply observations_elem. exists k, hand. split; [exact Hk|exact Hobs].
    + unfold observation in Hobs. rewrite Htip in Hobs.
      destruct (videoToCanvas vx vy (Some v) canvas); discriminate.
Qed.

Lemma effectivePinch_true (raw isControlling : bool) (releaseTime : option Z)
    (currentTime : Z) :
  effectivePinch raw isControlling releaseTime currentTime = true ->
  raw = true
  \/ (isControlling = true
      /\ exists t0 : Z, releaseTime = Some t0
                       /\ (currentTime - t0 < PINCH_DEBOUNCE_TIME)%Z).
Proof.
  unfold effectivePinch.
  destruct raw; [now left|]. destruct isControlling; cbn [negb andb]; [|discriminate].
  destruct releaseTime as [t0|]; [|discriminate].
  case_bool_decide; [|discriminate]. intros _. right. eauto.
Qed.

Lemma hand_tips_one_per_hand_witness :
  let col := collectHandTips (initialState canvas800)
               [handAt 205 300 100; handAt 220 300 10] (Some video800) canvas800 0 in
  StronglySorted Nat.lt (handId <$> handTips col)
  /\ (forall tip, tip ∈ handTips col ->
        exists hand vx vy,
          is_Some (Some video800)
          /\ [handAt 205 300 100; handAt 220 300 10] !! handId tip = Some hand
          /\ indexTip hand = Some (vx, vy)
          /\ (x tip, y tip) = videoToCanvas vx vy (Some video800) canvas800)
  /\ (forall k hand, is_Some (Some video800) ->
        [handAt 205 300 100; handAt 220 300 10] !! k = Some hand ->
        is_Some (indexTip hand) ->
        exists tip, tip ∈ handTips col /\ handId tip = k).
Proof.
  apply (hand_tips_one_per_hand canvas800 [handAt 205 300 100; handAt 220 300 10]
           (Some video800) 0 (initialState canvas800)).
Defined.

(** X20.  The effective pinch of a hand tip is true only if the raw pinch of its
    hand is true, or the hand controlled a grabbed endpoint before the tick
    and less than 150 ms have passed since the release time recorded for
    it: a hand that controls nothing gets no debounce. *)
Theorem effective_pinch_only_if (canvas : Canvas) (hands : list Hand) (v : Video)
    (currentTime : Z) (st : CanvasState) (tip : HandTip) :
  tip ∈ handTips (collectHandTips st hands (Some v) canvas currentTime) ->
  isPinched tip = true ->
  exists hand,
    hands !! handId tip = Some hand
    /\ let prev := default (mkPinchState false None) (pinchStates st !! handId tip) in
       let raw := getPinchState hand (Some v) canvas (state prev) in
       raw = true
       \/ (isControllingEndpoint st (handId tip) = true
           /\ exists t0 : Z,
                updateReleaseTime raw (state prev) (releaseTime prev) currentTime = Some t0
                /\ (currentTime - t0 < PINCH_DEBOUNCE_TIME)%Z).
Proof.
  rewrite collect_observations. cbn zeta. cbn [handTips].
  intros Hin Hp. apply list_elem_of_fmap in Hin as ([tip' record] & -> & Hin).
  apply observations_elem in Hin as (j & hand & Hj & Hobs). cbn [Nat.add fst] in *.
  rewrite (observation_handId _ _ _ _ _ _ _ _ _ Hobs).
  exists hand. split; [exact Hj|]. cbn zeta.
  apply effectivePinch_true.
  unfold observation in Hobs.
  destruct (indexTip hand) as [[vx vy]|]; [|discriminate].
  destruct (videoToCanvas vx vy (Some v) canvas) as [tx ty].
  injection Hobs as <- _. exact Hp.
Qed.

Lemma effective_pinch_only_if_witness :
  exists hand,
    [handAt 200 300 100] !! 0%nat = Some hand
    /\ let prev := default (mkPinchState false None) (pinchStates leftHeld !! 0%nat) in
       let raw := getPinchState hand (Some video800) canvas800 (state prev) in
       raw = true
       \/ (isControllingEndpoint leftHeld 0 = true
           /\ exists t0 : Z,
                updateReleaseTime raw (state prev) (releaseTime prev) 1000 = Some t0
                /\ (1000 - t0 < PINCH_DEBOUNCE_TIME)%Z).
Proof.
  apply (effective_pinch_only_if canvas800 [handAt 200 300 100] video800 1000 leftHeld
           (mkHandTip (mkPoint ((800 - (800 - 200)) * (800 / 800)) (300 * (600 / 600)))
              0 true)).
  - rewrite collect_observations. cbn zeta. cbn [handTips].
    canvas_eval; try lra. apply list_elem_of_singleton. reflexivity.
  - reflexivity.
Defined.

Lemma storeObservations_lookup (obs : list (HandTip * PinchState)) :
  forall (ps : gmap nat PinchState) (k : nat),
    k ∉ handId <$> obs.*1 -> storeObservations ps obs !! k = ps !! k.
Proof.
  unfold storeObservations.
  induction obs as [|o obs IH]; intros ps k Hk; [reflexivity|].
  cbn [foldl]. cbn [fmap list_fmap] in Hk. apply not_elem_of_cons in Hk as [Hne Hk].
  rewrite IH by exact Hk. now apply lookup_insert_ne.
Qed.

(** X21.  The pinch records after a tick: hand [k] has a record exactly when it
    was seen with an index tip in this tick, and the record holds the raw
    pinch of this tick and the release time updated from the record of the
    previous tick (or from "not pinching, no release time" if there was
    none).  Records of hands that are not seen are dropped. *)
Theorem pinch_records_after_tick (canvas : Canvas) (hands : list Hand) (v : Video)
    (currentTime : Z) (st : CanvasState) (k : nat) (record : PinchState) :
  pinchStates (draw canvas hands (Some v) currentTime st) !! k = Some record
  <-> exists hand,
        hands !! k = Some hand
        /\ is_Some (indexTip hand)
        /\ let prev := default (mkPinchState false None) (pinchStates st !! k) in
           let raw := getPinchState hand (Some v) canvas (state prev) in
           record = mkPinchState raw
                      (updateReleaseTime raw (state prev) (releaseTime prev) currentTime).
Proof.
  assert (Hobs : forall hand tip r,
            observation st (Some v) canvas currentTime (pinchStates st !! k) k hand
            = Some (tip, r)
            -> is_Some (indexTip hand)
               /\ r = let prev := default (mkPinchState false None) (pinchStates st !! k) in
                      let raw := getPinchState hand (Some v) canvas (state prev) in
                      mkPinchState raw
                        (updateReleaseTime raw (state prev) (releaseTime prev) currentTime)).
  { intros hand tip r. unfold observation.
    destruct (indexTip hand) as [[vx vy]|]; [|discriminate].
    destruct (videoToCanvas vx vy (Some v) canvas). intros H. injection H as _ <-.
    split; [eexists; reflexivity | reflexivity]. }
  unfold draw, cleanPinchStates. cbn [pinchStates].
  rewrite map_lookup_filter_Some. cbn [fst]. split.
  - intros [Hlook Hact].
    apply (active_tips st hands (Some v) canvas currentTime) in Hact
      as (tip & Hin & Hid).
    rewrite collect_observations in Hin. cbn zeta in Hin. cbn [handTips] in Hin.
    apply list_elem_of_fmap in Hin as ([tip' r] & -> & Hin).
    apply observations_elem in Hin as (j & hand & Hj & Hob). cbn [Nat.add fst] in *.
    pose proof (observation_handId _ _ _ _ _ _ _ _ _ Hob) as Hid'.
    assert (j = k) as -> by congruence.
    destruct (forEachHand_observed st (Some v) canvas currentTime hands 0
                (mkCollected (pinchStates st) [] ∅) k hand tip' r Hj Hob)
      as (Hlook' & _ & _).
    cbn [Nat.add] in Hlook'. unfold collectHandTips in Hlook. rewrite Hlook' in Hlook.
    injection Hlook as <-. exists hand. split; [exact Hj|].
    destruct (Hobs hand tip' r Hob) as [Htip ->]. split; [exact Htip|reflexivity].
  - intros (hand & Hk & [[vx vy] Htip] & Hrec). cbn zeta in Hrec.
    destruct (videoToCanvas vx vy (Some v) canvas) as [tx ty] eqn:Hxy.
    set (prev := default (mkPinchState false None) (pinchStates st !! k)) in *.
    set (raw := getPinchState hand (Some v) canvas (state prev)) in *.
    set (rt := updateReleaseTime raw (state prev) (releaseTime prev) currentTime) in *.
    assert (Hob : observation st (Some v) canvas currentTime (pinchStates st !! k) k hand
                  = Some (mkHandTip (mkPoint tx ty) k
                            (effectivePinch raw (isControllingEndpoint st k) rt currentTime),
                          record)).
    { unfold observation. rewrite Htip, Hxy, Hrec. reflexivity. }
    destruct (forEachHand_observed st (Some v) canvas currentTime hands 0
                (mkCollected (pinchStates st) [] ∅) k hand _ _ Hk Hob)
      as (Hlook & _ & Hact).
    split; [exact Hlook | exact Hact].
Qed.

Lemma pinch_records_after_tick_witness :
  pinchStates (draw canvas800 [handAt 200 300 100] (Some video800) 1000 leftHeld) !! 0%nat
  = Some (mkPinchState false (Some 1000%Z)).
Proof.
  apply (pinch_records_after_tick canvas800 [handAt 200 300 100] video800 1000 leftHeld 0
           (mkPinchState false (Some 1000%Z))).
  exists (handAt 200 300 100). split; [reflexivity|]. split; [eexists; reflexivity|].
  canvas_eval; first [lra | reflexivity].
Defined.

End CanvasMoreFacts.

(** ** The audio effect, continued ([app/page.tsx]) *)

Section PageMoreFacts.
Import JS Utils AudioConfig Page SynthCalls Inputs MoreInputs.

Lemma callsInOrder_app (sounding : bool) (calls calls' : list AudioCall) :
  callsInOrder sounding (calls ++ calls')
  = callsInOrder sounding calls ≫= λ b, callsInOrder b calls'.
Proof.
  unfold callsInOrder. rewrite foldl_app.
  destruct (foldl _ (Some sounding) calls) as [b|]; [reflexivity|].
  cbn. induction calls' as [|c calls' IH]; [reflexivity | exact IH].
Qed.

Lemma playAudio_inOrder (config : Config) (isPlaying isGrabbed : bool)
    (controls : StringControls) (midpointX canvasWidth : num) :
  let res := playAudio config isPlaying isGrabbed controls midpointX canvasWidth in
  callsInOrder isPlaying res.2 = Some res.1.
Proof.
  cbn zeta. unfold playAudio.
  destruct (gate controls isGrabbed), isPlaying, (pluckCondition config controls);
    reflexivity.
Qed.

(** X22.  The calls on the synthesizer over any sequence of reports are in order:
    an attack is only triggered while no note sounds, a release and a
    parameter update only while a note sounds; and [isPlayingRef] tells at
    the end whether a note sounds.  (For calls that do not throw.) *)
Theorem synth_calls_in_order (canvas : StringCanvas.Canvas) (config : Config)
    (reports : list Report) (refs : Refs) :
  callsInOrder (isPlaying refs) (effectTrace canvas config refs reports)
  = Some (isPlaying (runEffects canvas config refs reports)).
Proof.
  revert refs. induction reports as [|rep rest IH]; intros refs; [reflexivity|].
  cbn [effectTrace]. rewrite callsInOrder_app.
  change (runEffects canvas config refs (rep :: rest))
    with (runEffects canvas config
            (audioEffect canvas config refs (reportState rep) (reportTime rep)).1 rest).
  rewrite <- IH.
  assert (Hstep : callsInOrder (isPlaying refs)
                    (audioEffect canvas config refs (reportState rep) (reportTime rep)).2
                  = Some (isPlaying
                            (audioEffect canvas config refs (reportState rep)
                               (reportTime rep)).1)).
  { rewrite audioEffect_calls. cbn zeta. cbn [fst snd isPlaying].
    apply playAudio_inOrder. }
  rewrite Hstep. reflexivity.
Qed.

Lemma synth_calls_in_order_witness :
  callsInOrder (isPlaying playingRefs)
    (effectTrace canvas800 audioConfig playingRefs
       [mkReport stretched 16; mkReport barelyStretched 32])
  = Some (isPlaying (runEffects canvas800 audioConfig playingRefs
                       [mkReport stretched 16; mkReport barelyStretched 32])).
Proof.
  apply (synth_calls_in_order canvas800 audioConfig
           [mkReport stretched 16; mkReport barelyStretched 32] playingRefs).
Defined.

Lemma tension_default (canvas : StringCanvas.Canvas) (refs : Refs) (s : StringState)
    (now : Z) :
  tension (effectControls canvas refs s now)
  = Fin (Rmin 1 (Rmax 0 (distance (leftEnd s) (rightEnd s)
                         - distance (StringCanvas.leftAnchor canvas)
                             (StringCanvas.rightAnchor canvas)) / 100)).
Proof.
  unfold effectControls, computeStringControls, computeTension, defaultMaxStretch.
  cbn [tension]. rewrite max_Fin. cbn [div]. rewrite bool_decide_false by lra.
  now rewrite min_Fin.
Qed.

(** X23.  Whether a note sounds after a run of the effect is decided by the
    geometry alone: it sounds exactly when an endpoint is grabbed and the
    string is more than one unit longer than at rest.  A string that is held
    but not stretched, or pushed together, is silent. *)
Theorem sounding_iff_stretched (canvas : StringCanvas.Canvas) (config : Config)
    (refs : Refs) (s : StringState) (now : Z) :
  let rest := distance (StringCanvas.leftAnchor canvas) (StringCanvas.rightAnchor canvas) in
  let current := distance (leftEnd s) (rightEnd s) in
  isPlaying (audioEffect canvas config refs s now).1
  = bool_decide (rest + 1 < current) && (leftGrabbed s || rightGrabbed s).
Proof.
  cbn zeta. rewrite audioEffect_calls. cbn zeta. cbn [fst isPlaying].
  assert (Hplay : forall p g c m w, (playAudio config p g c m w).1 = gate c g).
  { intros p g c m w. unfold playAudio. destruct (gate c g), p; reflexivity. }
  rewrite Hplay. unfold gate. rewrite tension_default. f_equal.
  unfold gt, lt.
  set (d := distance (leftEnd s) (rightEnd s)
            - distance (StringCanvas.leftAnchor canvas) (StringCanvas.rightAnchor canvas)).
  assert (Hiff : 1 / 100 < Rmin 1 (Rmax 0 d / 100) <-> 1 < d).
  { unfold Rmin, Rmax. repeat destruct (Rle_dec _ _); split; intros; lra. }
  apply bool_decide_ext. rewrite Hiff. unfold d. split; intros; lra.
Qed.

Lemma sounding_iff_stretched_witness :
  isPlaying (audioEffect canvas800 audioConfig playingRefs stretched 16).1
  = bool_decide (distance (StringCanvas.leftAnchor canvas800)
                   (StringCanvas.rightAnchor canvas800) + 1
                 < distance (leftEnd stretched) (rightEnd stretched))
    && (leftGrabbed stretched || rightGrabbed stretched).
Proof.
  apply (sounding_iff_stretched canvas800 audioConfig playingRefs stretched 16).
Defined.

(** X24.  A pluck is only raised when the clock has advanced since the last run
    of the effect and the tension has risen above the previous tension. *)
Theorem pluck_needs_rising_tension (canvas : StringCanvas.Canvas) (config : Config)
    (refs : Refs) (s : StringState) (now : Z) :
  pluckRaised (audioEffect canvas config refs s now).2 = true ->
  (lastUpdateTime refs < now)%Z
  /\ lt (previousTension refs) (tension (effectControls canvas refs s now)) = true.
Proof.
  rewrite audioEffect_calls. cbn zeta. cbn [snd]. rewrite pluckRaised_playAudio.
  intros [_ [_ Hv]%andb_true_iff]%andb_true_iff. revert Hv.
  rewrite tension_default.
  unfold effectControls, computeStringControls. cbn [tensionVelocity].
  fold (effectControls canvas refs s now).
  change (computeTension (leftEnd s) (rightEnd s) (StringCanvas.leftAnchor canvas)
            (StringCanvas.rightAnchor canvas) defaultMaxStretch)
    with (tension (effectControls canvas refs s now)).
  rewrite tension_default.
  set (t := Rmin 1 _). unfold computeTensionVelocity, le.
  case_bool_decide as Hdt.
  { unfold gt, lt. rewrite bool_decide_false by lra. discriminate. }
  assert (Hpos : 0 < IZR (now - lastUpdateTime refs)) by lra.
  apply (lt_IZR 0) in Hpos. intros Hv. split; [lia|].
  unfold gt in Hv. destruct (previousTension refs) as [| | |p];
    cbn [sub add neg div lt] in Hv |- *; try discriminate; try reflexivity.
  - revert Hv. case_bool_decide; [lra | discriminate].
  - revert Hv. case_bool_decide; [lra|]. intros Hv%bool_decide_eq_true.
    apply bool_decide_eq_true.
    assert (Hq : (t + - p) / (IZR (now - lastUpdateTime refs) / 1000)
                 * (IZR (now - lastUpdateTime refs) / 1000) = t + - p) by (field; lra).
    nra.
Qed.

Lemma pluck_needs_rising_tension_witness :
  (lastUpdateTime playingRefs < 16)%Z
  /\ lt (previousTension playingRefs)
        (tension (effectControls canvas800 playingRefs stretched 16)) = true.
Proof.
  apply (pluck_needs_rising_tension canvas800 audioConfig playingRefs stretched 16).
  rewrite audioEffect_calls. cbn zeta. cbn [snd]. rewrite pluckRaised_playAudio.
  assert (Et : tension (effectControls canvas800 playingRefs stretched 16)
               = Fin (50 / 100)).
  { unfold effectControls, computeStringControls, computeTension, distance,
      defaultMaxStretch.
    cbn [tension x y stretched Page.leftEnd Page.rightEnd canvas800
         StringCanvas.leftAnchor StringCanvas.rightAnchor StringCanvas.width
         StringCanvas.height].
    js_compute. }
  assert (Ev : tensionVelocity (effectControls canvas800 playingRefs stretched 16)
               = Fin (50 / 100 / (16 / 1000))).
  { pose proof Et as Et'. unfold effectControls, computeStringControls in Et' |- *.
    cbn [tension tensionVelocity] in Et' |- *. rewrite Et'.
    unfold computeTensionVelocity, playingRefs.
    cbn [previousTension lastUpdateTime]. js_compute. }
  unfold gate, pluckCondition. rewrite Et, Ev.
  cbn [stretched Page.leftGrabbed Page.rightGrabbed orb audioConfig mappings pluckThreshold].
  js_compute.
Defined.

End PageMoreFacts.

(** ** Hands from the tracker ([lib/handposeMediaPipe.ts]) *)

Section TrackingFacts.
Import StringCanvas Tracking MoreInputs.

(** X25.  A hand converted from the tracker's landmarks carries both formats,
    and they agree: the index tip read for string control (annotations,
    entry 3 of the index finger) is landmark 8, and the tips read for the
    pinch (landmarks 4 and 8) are entry 3 of the thumb and of the index
    finger of the annotations; with fewer than 9 landmarks the hand has no
    index tip and never pinches. *)
Theorem convertHand_tips (handLandmarks : list (R * R * R)) :
  handLandmarks <> [] ->
  let xy := λ lm : R * R * R, (lm.1.1, lm.1.2) in
  exists hand a,
    convertHand handLandmarks = Some hand
    /\ landmarks hand = Some handLandmarks
    /\ annotations hand = Some a
    /\ thumb a !! 3%nat = xy <$> handLandmarks !! 4%nat
    /\ indexFinger a !! 3%nat = xy <$> handLandmarks !! 8%nat
    /\ indexTip hand = xy <$> handLandmarks !! 8%nat
    /\ pinchTips hand
       = (handLandmarks !! 4%nat ≫= λ t, handLandmarks !! 8%nat ≫= λ i, Some (xy t, xy i)).
Proof.
  intros Hne. cbn zeta. destruct handLandmarks as [|lm0 rest]; [done|].
  set (l := lm0 :: rest). eexists _, _. split; [reflexivity|].
  split; [reflexivity|]. split; [reflexivity|]. cbn [thumb indexFinger].
  assert (H4 : ((λ lm : R * R * R, (lm.1.1, lm.1.2)) <$> take 4 (drop 1 l)) !! 3%nat
               = (λ lm : R * R * R, (lm.1.1, lm.1.2)) <$> l !! 4%nat).
  { rewrite list_lookup_fmap, lookup_take_lt, lookup_drop by lia. reflexivity. }
  assert (H8 : ((λ lm : R * R * R, (lm.1.1, lm.1.2)) <$> take 4 (drop 5 l)) !! 3%nat
               = (λ lm : R * R * R, (lm.1.1, lm.1.2)) <$> l !! 8%nat).
  { rewrite list_lookup_fmap, lookup_take_lt, lookup_drop by lia. reflexivity. }
  split; [exact H4|]. split; [exact H8|]. split.
  - unfold indexTip. cbn [annotations landmarks mbind option_bind indexFinger].
    rewrite H8. destruct (l !! 8%nat) as [[[a b] c]|]; reflexivity.
  - unfold pinchTips. cbn [landmarks].
    destruct (l !! 4%nat) as [[[a b] c]|], (l !! 8%nat) as [[[a' b'] c']|]; reflexivity.
Qed.

Lemma convertHand_tips_witness :
  exists hand a,
    convertHand nineLandmarks = Some hand
    /\ landmarks hand = Some nineLandmarks
    /\ annotations hand = Some a
    /\ thumb a !! 3%nat = (λ lm : R * R * R, (lm.1.1, lm.1.2)) <$> nineLandmarks !! 4%nat
    /\ indexFinger a !! 3%nat
       = (λ lm : R * R * R, (lm.1.1, lm.1.2)) <$> nineLandmarks !! 8%nat
    /\ indexTip hand = (λ lm : R * R * R, (lm.1.1, lm.1.2)) <$> nineLandmarks !! 8%nat
    /\ pinchTips hand
       = (nineLandmarks !! 4%nat ≫= λ t, nineLandmarks !! 8%nat ≫= λ i,
          Some ((λ lm : R * R * R, (lm.1.1, lm.1.2)) t,
                (λ lm : R * R * R, (lm.1.1, lm.1.2)) i)).
Proof.
  apply (convertHand_tips nineLandmarks). discriminate.
Defined.

End TrackingFacts.
